(** * Label construction, matrix assembly and precision-at-k

    A shallow embedding of the pieces of the notebooks that carry logic
    of their own:

    - [precision_at_k], its callers (the random baseline, the model
      comparison loop), the population shares of [plot_precision_recall_n]
      and the feature ranking (07_3_Machine_Learning_Models.ipynb),
    - the SQL of [train_matrix] and the pandas cleaning of [df_training]
      (07_3_Machine_Learning_Models.ipynb),
    - [generate_labels] (Old Notebooks/03_2_ML_data_preparation_creating_labels.ipynb),
    - [tokenize], the stop word lists and the topic keywords of the text
      analysis notebook,
    - the queries and statements of the SQL introduction (01_Databases.ipynb).

    Conventions.  Python integers are [Z].  Scores and the numeric
    feature columns are modelled by their exact rational value ([Q]);
    comparisons of finite doubles agree with the comparisons of their
    values.  The fraction [k] of [precision_at_k] is a binary64 number
    ([spec_float]): the product [k*len(y_scores)] is rounded as the
    interpreter rounds it, with the multiplication of the Standard
    Library's specification of IEEE 754.  A call that raises is [None].  SQL tables are lists of
    rows in storage order.  The columns read from [il_dhs.ind_spells] are
    taken to hold no NULL; the columns of the matrices, which a left join
    fills with NULL, are [option]s. *)

From Stdlib Require Import ZArith QArith Qround List Lia Permutation Sorted.
From Stdlib Require Import String Ascii Bool SpecFloat.
From stdpp Require Import gmap strings.
Import ListNotations.

Local Open Scope Z_scope.

(* ================================================================== *)
(** * Part I: definitions *)
(* ================================================================== *)

(** ** Sorting and indexing primitives *)

Section Sorting.
Context {A : Type} (leb : A -> A -> bool).

(** Insert [x] before the first element that is not below it. *)
Fixpoint insert_sorted (x : A) (l : list A) : list A :=
  match l with
  | [] => [x]
  | y :: l' => if leb x y then x :: y :: l' else y :: insert_sorted x l'
  end.

(** Ascending sort for the order [leb]. *)
Fixpoint sort_by (l : list A) : list A :=
  match l with
  | [] => []
  | x :: l' => insert_sorted x (sort_by l')
  end.
End Sorting.

Module Metrics.

(** [len(x)] *)
Definition py_len {A : Type} (l : list A) : Z := Z.of_nat (length l).

(** [int(x)]: truncation towards zero. *)
Definition py_int (x : Q) : Z := Z.quot (Qnum x) (Zpos (Qden x)).

(** [a[i]] on a sequence: a negative index counts from the end, an
    index outside [-len, len) raises [IndexError]. *)
Definition py_getitem {A : Type} (l : list A) (i : Z) : option A :=
  if (0 <=? i) then nth_error l (Z.to_nat i)
  else if (- py_len l <=? i) then nth_error l (Z.to_nat (py_len l + i))
  else None.

(** [np.sort(a)]: ascending. *)
Definition np_sort (a : list Q) : list Q := sort_by Qle_bool a.

(** [a[::-1]] *)
Definition reversed {A : Type} (a : list A) : list A := rev a.

(** Number of positions at which [p] holds of the pair of entries. *)
Definition count_pairs (p : Z -> Z -> bool) (y_true y_pred : list Z) : Z :=
  py_len (List.filter (fun yp => p (fst yp) (snd yp)) (combine y_true y_pred)).

(** The distinct values of a label vector. *)
Definition unique_labels (l : list Z) : list Z := nodup Z.eq_dec l.

(** [sklearn.metrics.precision_score(y_true, y_pred)] with its defaults
    ([pos_label=1], [average='binary']), from the library's documented
    contract: [tp / (tp + fp)], where a true positive is a position
    predicted 1 whose true label is 1 and a false positive a position
    predicted 1 whose true label is not 1; [0] (with a warning) when
    nothing is predicted positive.  Vectors of different lengths and
    targets that are not binary raise [ValueError]. *)
Definition precision_score (y_true y_pred : list Z) : option Q :=
  let present := unique_labels (y_true ++ y_pred) in
  if negb (length y_true =? length y_pred)%nat then None
  else if (2 <? length present)%nat then None
  else if ((length present =? 2)%nat && negb (existsb (Z.eqb 1) present)) then None
  else
    let tp := count_pairs (fun t p => (p =? 1) && (t =? 1)) y_true y_pred in
    let fp := count_pairs (fun t p => (p =? 1) && negb (t =? 1)) y_true y_pred in
    Some (if tp + fp =? 0 then 0%Q else Qred (tp # Z.to_pos (tp + fp))).

(** The prediction vector of [precision_at_k]:
    [[1 if i >= threshold else 0 for i in y_scores]]. *)
Definition y_pred_of (threshold : Q) (y_scores : list Q) : list Z :=
  map (fun i => if Qle_bool threshold i then 1 else 0) y_scores.

(** A label is binary when it is 0 or 1. *)
Definition binary (t : Z) : Prop := t = 0 \/ t = 1.

(** The number of entries a prediction vector marks positive. *)
Definition positives (y_pred : list Z) : Z :=
  py_len (List.filter (Z.eqb 1) y_pred).

(** [int(k*len(y_scores))] for a Python float [k], in the binary64
    arithmetic of the interpreter: the length is converted to a double,
    the product is rounded to nearest, ties to even, and [int]
    truncates towards zero.  [None] stands for the exception [int] raises
    on an infinity or a NaN. *)
Definition float_of_int (n : Z) : spec_float := binary_normalize 53 1024 n 0 false.

Definition int_of_float (x : spec_float) : option Z :=
  match x with
  | S754_zero _ => Some 0
  | S754_finite s m e =>
      let a := if 0 <=? e then Zpos m * 2 ^ e else Zpos m / 2 ^ (- e) in
      Some (if s then - a else a)
  | _ => None
  end.

Definition float_index (k : spec_float) (n : nat) : option Z :=
  int_of_float (SFmul 53 1024 k (float_of_int (Z.of_nat n))).

(** The number a finite double stands for, [m * 2^e] with its sign. *)
Definition float_value (x : spec_float) : Q :=
  match x with
  | S754_finite s m e =>
      let v := if 0 <=? e then inject_Z (Zpos m * 2 ^ e)
               else Zpos m # Z.to_pos (2 ^ (- e)) in
      if s then (- v)%Q else v
  | _ => 0%Q
  end.

(** [[
    def precision_at_k(y_true, y_scores,k):
        threshold = np.sort(y_scores)[::-1][int(k*len(y_scores))]
        y_pred = np.asarray([1 if i >= threshold else 0 for i in y_scores ])
        return precision_score(y_true, y_pred)
    ]] *)
Definition precision_at_k (y_true : list Z) (y_scores : list Q) (k : spec_float)
  : option Q :=
  match float_index k (length y_scores) with
  | None => None
  | Some idx =>
      match py_getitem (reversed (np_sort y_scores)) idx with
      | None => None
      | Some threshold =>
          let y_pred := y_pred_of threshold y_scores in
          precision_score y_true y_pred
      end
  end.

(** From [plot_precision_recall_n], the share of the population at a
    threshold:
    [[
    num_above_thresh = len(y_score[y_score>=value])
    pct_above_thresh = num_above_thresh / float(number_scored)
    ]] *)
Definition num_above_thresh (y_score : list Q) (value : Q) : Z :=
  py_len (List.filter (Qle_bool value) y_score).

Definition pct_above_thresh (y_score : list Q) (value : Q) : option Q :=
  let number_scored := py_len y_score in
  if number_scored =? 0 then None
  else Some (Qred (num_above_thresh y_score value # Z.to_pos number_scored)).

(** The worked example: ten rows, true labels and scores. *)
Definition example_y_true : list Z := [1; 0; 1; 0; 1; 0; 0; 0; 0; 0].

Definition example_y_scores : list Q :=
  [9#10; 8#10; 7#10; 6#10; 5#10; 4#10; 3#10; 2#10; 1#10; 5#100]%Q.

(** The double nearest to 0.3: [5404319552844595 * 2^-54]. *)
Definition double_0_3 : spec_float := S754_finite false 5404319552844595 (-54).

(** The doubles of the literals 0.05, 0.1, 0.29 and 1.0. *)
Definition double_0_05 : spec_float := S754_finite false 7205759403792794 (-57).
Definition double_0_1 : spec_float := S754_finite false 7205759403792794 (-56).
Definition double_0_29 : spec_float := S754_finite false 5224175567749775 (-54).
Definition double_1 : spec_float := S754_finite false 4503599627370496 (-52).

(** A hundred rows scored 0.01, 0.02, ..., 1.00, with a true label 1 on
    the rows scored 0.72 and more. *)
Definition hundred_y_scores : list Q :=
  map (fun i => Z.of_nat i # 100) (seq 1 100).

Definition hundred_y_true : list Z :=
  map (fun i => if (72 <=? i)%nat then 1 else 0) (seq 1 100).

(** [x < y] *)
Definition py_lt (x y : Q) : bool := negb (Qle_bool y x).

(** [calc_threshold = lambda x,y: 0 if x < y else 1] *)
Definition calc_threshold (x y : Q) : Z := if py_lt x y then 0 else 1.

(** [predicted = np.array( [calc_threshold(score,0.5) for score in y_scores] )] *)
Definition predicted (y_scores : list Q) : list Z :=
  map (fun score => calc_threshold score (1#2)) y_scores.

(** The random baseline; the draws of [np.random.uniform(0,1)] are the
    argument [random_score].
    [[
    random_predicted = np.array( [calc_threshold(score,0.5) for score in random_score] )
    random_p_at_5 = precision_at_k(expected,random_predicted, 0.05)
    ]] *)
Definition random_p_at_5 (expected : list Z) (random_score : list Q) : option Q :=
  let random_predicted := predicted random_score in
  precision_at_k expected (map inject_Z random_predicted) double_0_05.

(** The loop of [plot_precision_recall_n] over the thresholds that
    [precision_recall_curve] returned:
    [[
    for value in pr_thresholds:
        num_above_thresh = len(y_score[y_score>=value])
        pct_above_thresh = num_above_thresh / float(number_scored)
        pct_above_per_thresh.append(pct_above_thresh)
    ]] *)
Fixpoint pct_above_per_thresh (y_score : list Q) (pr_thresholds : list Q)
  : option (list Q) :=
  match pr_thresholds with
  | [] => Some []
  | value :: rest =>
      match pct_above_thresh y_score value with
      | None => None
      | Some pct =>
          match pct_above_per_thresh y_score rest with
          | None => None
          | Some pcts => Some (pct :: pcts)
          end
      end
  end.

(** The model comparison loop; the scores each fitted classifier gives
    the test rows are the entries of [y_score_per_clf].
    [[
    max_p_at_k = 0
    for clfNM in sel_clfs:
        ...
        p_at_5 = precision_at_k(expected,y_score, 0.05)
        if max_p_at_k < p_at_5:
            max_p_at_k = p_at_5
    ]] *)
Fixpoint max_p_at_k_from (max_p_at_k : Q) (expected : list Z)
         (y_score_per_clf : list (list Q)) : option Q :=
  match y_score_per_clf with
  | [] => Some max_p_at_k
  | y_score :: rest =>
      match precision_at_k expected y_score double_0_05 with
      | None => None
      | Some p_at_5 =>
          max_p_at_k_from (if py_lt max_p_at_k p_at_5 then p_at_5 else max_p_at_k)
                          expected rest
      end
  end.

Definition max_p_at_k (expected : list Z) (y_score_per_clf : list (list Q)) : option Q :=
  max_p_at_k_from 0 expected y_score_per_clf.

End Metrics.

(** ** Relational primitives *)

(** [l LEFT JOIN r ON on]: every left row is kept; it is paired with each
    right row that satisfies the condition, or once with NULL when none
    does. *)
Definition left_join {A B : Type} (on : A -> B -> bool) (l : list A) (r : list B)
  : list (A * option B) :=
  flat_map (fun a =>
              match List.filter (on a) r with
              | [] => [(a, None)]
              | bs => map (fun b => (a, Some b)) bs
              end) l.

(** ** Calendar dates and month intervals, as PostgreSQL computes them *)

Module Calendar.

Record date := mkDate { year : Z; month : Z; day : Z }.

Definition is_leap (y : Z) : bool :=
  ((y mod 4 =? 0) && negb (y mod 100 =? 0)) || (y mod 400 =? 0).

Definition days_in_month (y m : Z) : Z :=
  if m =? 2 then (if is_leap y then 29 else 28)
  else if (m =? 4) || (m =? 6) || (m =? 9) || (m =? 11) then 30
  else 31.

Definition valid_date (d : date) : bool :=
  (1 <=? month d) && (month d <=? 12) &&
  (1 <=? day d) && (day d <=? days_in_month (year d) (month d)).

(** [d + 'n months'::interval]: the month moves by [n], the year
    follows, and a day past the end of the new month is brought back to
    its last day.  The result is a timestamp at midnight, which compares
    with a date column as the date itself. *)
Definition add_months (d : date) (n : Z) : date :=
  let idx := year d * 12 + (month d - 1) + n in
  let y := idx / 12 in
  let m := idx mod 12 + 1 in
  mkDate y m (Z.min (day d) (days_in_month y m)).

(** [d - 'n months'::interval] *)
Definition sub_months (d : date) (n : Z) : date := add_months d (- n).

Definition date_ltb (a b : date) : bool :=
  (year a <? year b) ||
  ((year a =? year b) &&
   ((month a <? month b) || ((month a =? month b) && (day a <? day b)))).

Definition date_eqb (a b : date) : bool :=
  (year a =? year b) && (month a =? month b) && (day a =? day b).

Definition date_leb (a b : date) : bool := date_ltb a b || date_eqb a b.

Definition date_le (a b : date) : Prop := date_leb a b = true.

Definition date_lt (a b : date) : Prop := date_ltb a b = true.

(** The text form: decimal fields separated by dashes. *)
Definition digit_of (c : ascii) : option Z :=
  let n := Z.of_nat (nat_of_ascii c) in
  if (48 <=? n) && (n <=? 57) then Some (n - 48) else None.

Fixpoint number_of (acc : Z) (s : string) : option Z :=
  match s with
  | EmptyString => Some acc
  | String c s' =>
      match digit_of c with
      | Some v => number_of (10 * acc + v) s'
      | None => None
      end
  end.

(** Split at every dash. *)
Fixpoint fields (cur : string) (s : string) : list string :=
  match s with
  | EmptyString => [cur]
  | String c s' =>
      if Ascii.eqb c "-"%char then cur :: fields EmptyString s'
      else fields (cur ++ String c EmptyString)%string s'
  end.

Definition field_number (s : string) : option Z :=
  match s with
  | EmptyString => None
  | _ => number_of 0 s
  end.

(** ['YYYY-MM-DD'::date]; a string that is not a date of the calendar
    makes the statement fail. *)
Definition parse_date (s : string) : option date :=
  match fields EmptyString s with
  | [y; m; d] =>
      match field_number y, field_number m, field_number d with
      | Some y', Some m', Some d' =>
          let r := mkDate y' m' d' in
          if valid_date r then Some r else None
      | _, _, _ => None
      end
  | _ => None
  end.

End Calendar.

(** ** The label builder *)

Module Labels.
Import Calendar.

(** A row of [il_dhs.ind_spells], with the columns the queries read. *)
Record spell := mkSpell {
  recptno : Z;
  start_date : date;
  end_date : date;
  benefit_type : string
}.

(** A row of the temporary tables [cohort_*] and [cohort_returned_*]:
    [SELECT recptno, start_date, end_date]. *)
Record cohort_row := mkRow {
  c_recptno : Z;
  c_start_date : date;
  c_end_date : date
}.

(** A row of [{schema}.labels_*]. *)
Record label_row := mkLabel {
  l_recptno : Z;
  l_start_date : date;
  l_end_date : date;
  label : Z
}.

(** The database: the spells table and the catalogue of label tables,
    keyed by (schema name, table name). *)
Record database := mkDb {
  ind_spells : list spell;
  tables : gmap (string * string) (list label_row)
}.

(** *** Statements against the database: state and failure *)

Definition M (A : Type) : Type := database -> option (A * database).

Definition ret {A : Type} (a : A) : M A := fun db => Some (a, db).

Definition raise {A : Type} : M A := fun _ => None.

Definition bind {A B : Type} (c : M A) (k : A -> M B) : M B :=
  fun db => match c db with
            | None => None
            | Some (a, db') => k a db'
            end.

Notation "x <- c ;; k" := (bind c (fun x => k))
  (at level 100, c at next level, right associativity).
Notation "c ;;; k" := (bind c (fun _ => k))
  (at level 100, right associativity).

(** [SELECT * FROM pg_tables WHERE tablename = .. AND schemaname = ..],
    then [cursor.rowcount]. *)
Definition pg_tables_rowcount (schema tablename : string) : M Z :=
  fun db => Some (match tables db !! (schema, tablename) with
                  | Some _ => 1
                  | None => 0
                  end, db).

Definition scan_ind_spells : M (list spell) :=
  fun db => Some (ind_spells db, db).

Definition cast_date (s : string) : M date :=
  fun db => match parse_date s with
            | Some d => Some (d, db)
            | None => None
            end.

Definition drop_table_if_exists (schema tablename : string) : M unit :=
  fun db => Some (tt, mkDb (ind_spells db) (delete (schema, tablename) (tables db))).

Definition create_table_as (schema tablename : string) (rows : list label_row) : M unit :=
  fun db => match tables db !! (schema, tablename) with
            | Some _ => None
            | None => Some (tt, mkDb (ind_spells db)
                                     (<[(schema, tablename) := rows]> (tables db)))
            end.

(** [pd.read_sql("SELECT * FROM {schema}.{tablename}", conn)] *)
Definition read_sql (schema tablename : string) : M (list label_row) :=
  fun db => match tables db !! (schema, tablename) with
            | Some rows => Some (rows, db)
            | None => None
            end.

(** *** The three queries *)

Definition row_of (s : spell) : cohort_row :=
  mkRow (recptno s) (start_date s) (end_date s).

Definition is_tanf46 (s : spell) : bool := String.eqb (benefit_type s) "tanf46".

(** [[
    WHERE end_date >= (('{pred_date}'::date - '{months_off} months'::interval)
                       -'{months_back} months'::interval)
        AND end_date < ('{pred_date}'::date - '{months_off} months'::interval)
            AND benefit_type = 'tanf46'
    ]] *)
Definition cohort_where (pred_date : date) (months_off months_back : Z) (s : spell) : bool :=
  date_leb (sub_months (sub_months pred_date months_off) months_back) (end_date s)
  && date_ltb (end_date s) (sub_months pred_date months_off)
  && is_tanf46 s.

(** [CREATE TEMP TABLE cohort_{tbl_suffix} AS SELECT recptno, start_date,
    end_date FROM il_dhs.ind_spells WHERE ..] *)
Definition select_cohort (pred_date : date) (months_off months_back : Z)
           (spells : list spell) : list cohort_row :=
  map row_of (List.filter (cohort_where pred_date months_off months_back) spells).

(** [[
    WHERE start_date >= '{pred_date}'::date
        AND start_date < ('{pred_date}'::date + '{months_ahead} months'::interval)
        AND benefit_type = 'tanf46'
        AND recptno IN (SELECT recptno FROM cohort_{tbl_suffix})
    ]] *)
Definition returned_where (pred_date : date) (months_ahead : Z)
           (cohort : list cohort_row) (s : spell) : bool :=
  date_leb pred_date (start_date s)
  && date_ltb (start_date s) (add_months pred_date months_ahead)
  && is_tanf46 s
  && existsb (Z.eqb (recptno s)) (map c_recptno cohort).

(** [ORDER BY recptno, start_date] *)
Definition order_leb (a b : spell) : bool :=
  (recptno a <? recptno b)
  || ((recptno a =? recptno b) && date_leb (start_date a) (start_date b)).

(** Rows in the order of [ORDER BY recptno, start_date]. *)
Definition ordered (l : list spell) : Prop :=
  StronglySorted (fun a b => order_leb a b = true) l.

(** [DISTINCT ON (recptno)] over ordered rows: the first row of every
    run of rows with the same [recptno] is kept. *)
Fixpoint distinct_from (prev : Z) (l : list spell) : list spell :=
  match l with
  | [] => []
  | x :: l' =>
      if recptno x =? prev then distinct_from prev l'
      else x :: distinct_from (recptno x) l'
  end.

Definition distinct_on_recptno (l : list spell) : list spell :=
  match l with
  | [] => []
  | x :: l' => x :: distinct_from (recptno x) l'
  end.

(** [CREATE TEMP TABLE cohort_returned_{tbl_suffix} AS SELECT DISTINCT ON
    (recptno) recptno, start_date, end_date FROM il_dhs.ind_spells WHERE ..
    ORDER BY recptno, start_date] *)
Definition select_cohort_returned (pred_date : date) (months_ahead : Z)
           (cohort : list cohort_row) (spells : list spell) : list cohort_row :=
  map row_of
      (distinct_on_recptno
         (sort_by order_leb
                  (List.filter (returned_where pred_date months_ahead cohort) spells))).

(** [a LEFT JOIN b ON a.recptno = b.recptno] *)
Definition join_returned (cohort returned : list cohort_row)
  : list (cohort_row * option cohort_row) :=
  left_join (fun a b => c_recptno a =? c_recptno b) cohort returned.

(** [SELECT a.recptno, a.start_date, a.end_date,
     CASE WHEN b.recptno IS NULL THEN 0 ELSE 1 END as label] *)
Definition label_of (ab : cohort_row * option cohort_row) : label_row :=
  mkLabel (c_recptno (fst ab)) (c_start_date (fst ab)) (c_end_date (fst ab))
          (match snd ab with None => 0 | Some _ => 1 end).

Definition select_labels (cohort returned : list cohort_row) : list label_row :=
  map label_of (join_returned cohort returned).

(** The label rows computed from the spells for given parameters. *)
Definition build_labels (pred_date : date) (months_off months_back months_ahead : Z)
           (spells : list spell) : list label_row :=
  let cohort := select_cohort pred_date months_off months_back spells in
  let returned := select_cohort_returned pred_date months_ahead cohort spells in
  select_labels cohort returned.

(** [preddate.replace('-', '')] *)
Fixpoint remove_dashes (s : string) : string :=
  match s with
  | EmptyString => EmptyString
  | String c s' =>
      if Ascii.eqb c "-"%char then remove_dashes s' else String c (remove_dashes s')
  end.

Definition labels_table (tbl_suffix : string) : string := ("labels_" ++ tbl_suffix)%string.

(** The script held in [sql].  The two temporary tables live in the
    session of the call, which opens a connection of its own; they are
    the local values [cohort] and [returned].  The final
    [ALTER TABLE .. OWNER TO] changes no row and is left out. *)
Definition labels_sql (tbl_suffix pred_date : string)
           (months_off months_back months_ahead : Z) (schema : string) : M unit :=
  d <- cast_date pred_date ;;
  spells <- scan_ind_spells ;;
  let cohort := select_cohort d months_off months_back spells in
  let returned := select_cohort_returned d months_ahead cohort spells in
  drop_table_if_exists schema (labels_table tbl_suffix) ;;;
  create_table_as schema (labels_table tbl_suffix) (select_labels cohort returned).

(** [[
    def generate_labels(preddate, months_off=12, months_back=3, months_ahead=24,
                        schema=myschema, overwrite=False):
        tbl_suffix = preddate.replace('-', '')
        sql = ...
        cursor.execute(<pg_tables query>)
        if not(cursor.rowcount) or overwrite:
            cursor.execute(sql)
        df = pd.read_sql(<SELECT * FROM {schema}.labels_{tbl_suffix}>, conn)
        return df
    ]] *)
Definition generate_labels (preddate : string)
           (months_off months_back months_ahead : Z)
           (schema : string) (overwrite : bool) : M (list label_row) :=
  let tbl_suffix := remove_dashes preddate in
  rowcount <- pg_tables_rowcount schema (labels_table tbl_suffix) ;;
  (if (rowcount =? 0) || overwrite
   then labels_sql tbl_suffix preddate months_off months_back months_ahead schema
   else ret tt) ;;;
  read_sql schema (labels_table tbl_suffix).

Definition myschema : string := "ada_tanf".

(** *** The label, as the specification words it

    An entity returned when some spell of the category starts in the
    forward window [[pred_date, pred_date + months_ahead)]. *)
Definition returned_in_window (pred_date : date) (months_ahead : Z) (k : Z) (s : spell)
  : Prop :=
  recptno s = k
  /\ benefit_type s = "tanf46"%string
  /\ date_le pred_date (start_date s)
  /\ date_lt (start_date s) (add_months pred_date months_ahead).

Definition has_return (pred_date : date) (months_ahead : Z) (spells : list spell) (k : Z)
  : bool :=
  existsb (fun s => date_leb pred_date (start_date s)
                    && date_ltb (start_date s) (add_months pred_date months_ahead)
                    && is_tanf46 s
                    && (recptno s =? k)) spells.

(** One label row per cohort row, 1 exactly when the entity returned. *)
Definition labels_spec (pred_date : date) (months_off months_back months_ahead : Z)
           (spells : list spell) : list label_row :=
  map (fun a => mkLabel (c_recptno a) (c_start_date a) (c_end_date a)
                        (if has_return pred_date months_ahead spells (c_recptno a)
                         then 1 else 0))
      (select_cohort pred_date months_off months_back spells).

(** The cohort columns of a label row. *)
Definition cohort_part (r : label_row) : cohort_row :=
  mkRow (l_recptno r) (l_start_date r) (l_end_date r).

(** *** Example data

    Prediction date 2008-01-01, twelve months off, a three-month
    cohort window [[2006-10-01, 2007-01-01)] and a forward window of two
    months, the sixty days [[2008-01-01, 2008-03-01)].  Entities 1, 2
    and 3 each end one spell in the cohort window; 1 returns once, 2
    does not, 3 returns on day 40 (2008-02-10) and on day 5
    (2008-01-06), stored in that order. *)
Definition tanf (k : Z) (s e : date) : spell := mkSpell k s e "tanf46".

Definition scenario_spells : list spell :=
  [ tanf 1 (mkDate 2006 1 1) (mkDate 2006 10 15);
    tanf 2 (mkDate 2006 2 1) (mkDate 2006 11 20);
    tanf 3 (mkDate 2006 3 1) (mkDate 2006 12 5);
    tanf 3 (mkDate 2008 2 10) (mkDate 2008 6 30);
    tanf 1 (mkDate 2008 1 20) (mkDate 2008 4 30);
    tanf 3 (mkDate 2008 1 6) (mkDate 2008 1 31) ].

Definition scenario_db : database := mkDb scenario_spells ∅.


(** The prediction date written as four, two and two digits between
    dashes, ['2008-01-01']. *)
Definition is_digit (c : ascii) : bool :=
  match digit_of c with Some _ => true | None => false end.

Definition is_dash (c : ascii) : bool := Ascii.eqb c "-"%char.

Definition iso_padded (s : string) : bool :=
  match s with
  | String y1 (String y2 (String y3 (String y4 (String d1 (String m1 (String m2
      (String d2 (String e1 (String e2 EmptyString))))))))) =>
      is_digit y1 && is_digit y2 && is_digit y3 && is_digit y4 && is_dash d1
      && is_digit m1 && is_digit m2 && is_dash d2 && is_digit e1 && is_digit e2
  | _ => false
  end.

End Labels.

(** ** The training and test matrices *)

Module Matrix.

(** A row of [recidivism_labels_*], with the columns the join reads. *)
Record label_row := mkLabel {
  l_inmate_doc_number : option Z;
  l_recidivism : option Z
}.

(** A row of [features_*]. *)
Record feature_row := mkFeature {
  f_inmate_doc_number : option Z;
  f_num_admits : option Q;
  f_length_longest_sentence : option Q;
  f_age_first_admit : option Q;
  f_age : option Q
}.

(** A row of [train_matrix] / [test_matrix], and of the data frame read
    from it. *)
Record matrix_row := mkMatrix {
  inmate_doc_number : option Z;
  recidivism : option Z;
  num_admits : option Q;
  length_longest_sentence : option Q;
  age_first_admit : option Q;
  age : option Q
}.

(** [f.inmate_doc_number = l.inmate_doc_number]: true only when both
    sides are present and equal. *)
Definition on_doc_number (l : label_row) (f : feature_row) : bool :=
  match f_inmate_doc_number f, l_inmate_doc_number l with
  | Some a, Some b => a =? b
  | _, _ => false
  end.

(** [select l.inmate_doc_number, l.recidivism, f.num_admits,
     f.length_longest_sentence, f.age_first_admit, f.age] *)
Definition select_row (lf : label_row * option feature_row) : matrix_row :=
  let l := fst lf in
  match snd lf with
  | Some f =>
      mkMatrix (l_inmate_doc_number l) (l_recidivism l) (f_num_admits f)
               (f_length_longest_sentence f) (f_age_first_admit f) (f_age f)
  | None =>
      mkMatrix (l_inmate_doc_number l) (l_recidivism l) None None None None
  end.

(** [[
    create table train_matrix as
    select ... from recidivism_labels_2009_2013 l
    left join features_2000_2008 f on f.inmate_doc_number = l.inmate_doc_number
    ]] *)
Definition train_matrix (labels : list label_row) (features : list feature_row)
  : list matrix_row :=
  map select_row (left_join on_doc_number labels features).

Definition is_none {A : Type} (o : option A) : bool :=
  match o with None => true | Some _ => false end.

(** [df.isnull().any(axis=1)], for one row *)
Definition isnull_any (r : matrix_row) : bool :=
  is_none (inmate_doc_number r) || is_none (recidivism r) || is_none (num_admits r)
  || is_none (length_longest_sentence r) || is_none (age_first_admit r)
  || is_none (age r).

(** [nrows_training_isnan = df_training[isnan_training_rows].shape[0]] *)
Definition nrows_isnan (df : list matrix_row) : nat :=
  length (List.filter isnull_any df).

(** [df_training = df_training[~isnan_training_rows]] *)
Definition drop_missing (df : list matrix_row) : list matrix_row :=
  List.filter (fun r => negb (isnull_any r)) df.

(** [keep = (df['age_first_admit'] >= 14) & (df['age_first_admit'] <= 99)];
    a comparison with a missing value is false. *)
Definition keep (r : matrix_row) : bool :=
  match age_first_admit r with
  | Some a => Qle_bool (14#1) a && Qle_bool a (99#1)
  | None => false
  end.

(** [df_training = df_training[keep]] *)
Definition keep_in_range (df : list matrix_row) : list matrix_row :=
  List.filter keep df.

(** The rows the range filter removes. *)
Definition nrows_out_of_range (df : list matrix_row) : nat :=
  length (List.filter (fun r => negb (keep r)) df).

(** The cleaning cells, in order. *)
Definition clean (df : list matrix_row) : list matrix_row :=
  keep_in_range (drop_missing df).

(** The document numbers present in a feature table, and the condition
    that none occurs in two rows. *)
Definition doc_numbers (features : list feature_row) : list Z :=
  flat_map (fun f => match f_inmate_doc_number f with
                     | Some a => [a]
                     | None => []
                     end) features.

Definition unique_doc_numbers (features : list feature_row) : Prop :=
  List.NoDup (doc_numbers features).

(** The label columns of a label row and of a matrix row. *)
Definition label_columns (l : label_row) : option Z * option Z :=
  (l_inmate_doc_number l, l_recidivism l).

Definition matrix_label_columns (r : matrix_row) : option Z * option Z :=
  (inmate_doc_number r, recidivism r).

(** Example tables: three labelled inmates; the first has a complete
    feature row, the second none, the third an age at first admission
    of 7. *)
Definition example_labels : list label_row :=
  [mkLabel (Some 101) (Some 1); mkLabel (Some 102) (Some 0); mkLabel (Some 103) (Some 0)].

Definition example_features : list feature_row :=
  [mkFeature (Some 101) (Some (2#1)%Q) (Some (365#1)%Q) (Some (21#1)%Q) (Some (40#1)%Q);
   mkFeature (Some 103) (Some (1#1)%Q) (Some (30#1)%Q) (Some (7#1)%Q) (Some (35#1)%Q)].

(** A feature table with two rows for one inmate. *)
Definition repeated_features : list feature_row :=
  [mkFeature (Some 101) (Some (2#1)%Q) (Some (365#1)%Q) (Some (21#1)%Q) (Some (40#1)%Q);
   mkFeature (Some 101) (Some (3#1)%Q) (Some (400#1)%Q) (Some (21#1)%Q) (Some (40#1)%Q)].

(** The share printed before the rows with missing values are dropped:
    [float(nrows_training_isnan)/nrows_training].  Division by zero
    raises. *)
Definition nan_share (df : list matrix_row) : option Q :=
  let nrows := Z.of_nat (length df) in
  if nrows =? 0 then None
  else Some (Qred (Z.of_nat (nrows_isnan df) # Z.to_pos nrows)).

End Matrix.

(** ** Rankings by [np.argsort] *)

Module Ranking.
Import Metrics.

(** All the values, or nothing when one lookup failed. *)
Fixpoint sequence_opt {A : Type} (l : list (option A)) : option (list A) :=
  match l with
  | [] => Some []
  | None :: _ => None
  | Some x :: l' =>
      match sequence_opt l' with
      | None => None
      | Some xs => Some (x :: xs)
      end
  end.

(** Each entry with its position. *)
Definition enumerate {A : Type} (a : list A) : list (nat * A) :=
  combine (seq 0 (length a)) a.

Definition value_leb (x y : nat * Q) : bool := Qle_bool (snd x) (snd y).

(** [np.argsort(a)]: the positions of [a], in ascending order of the
    entries they hold. *)
Definition argsort (a : list Q) : list nat :=
  map fst (sort_by value_leb (enumerate a)).

(** One line of the feature ranking:
    [(f + 1, sel_features[f], importances[indices[f]])]. *)
Definition ranking_line (sel_features : list string) (importances : list Q)
           (indices : list nat) (f : nat) : option (Z * string * Q) :=
  match nth_error sel_features f, nth_error indices f with
  | Some name, Some i =>
      match nth_error importances i with
      | Some v => Some (Z.of_nat f + 1, name, v)
      | None => None
      end
  | _, _ => None
  end.

(** [[
    importances = clf.feature_importances_
    indices = np.argsort(importances)[::-1]
    for f in range(X_test.shape[1]):
        print ("%d. %s (%f)" % (f + 1, sel_features[f], importances[indices[f]]))
    ]]
    [X_test] holds the columns [sel_features], so [X_test.shape[1]] is
    their number. *)
Definition feature_ranking (sel_features : list string) (importances : list Q)
  : option (list (Z * string * Q)) :=
  let indices := reversed (argsort importances) in
  sequence_opt (map (ranking_line sel_features importances indices)
                    (seq 0 (length sel_features))).

(** The keywords of one topic, for [top] = 5 or 10:
    [[
    word_idx = np.argsort(topic)[::-1][:5]
    keywords = ', '.join( features[i] for i in word_idx)
    ]] *)
Definition word_idx (top : nat) (topic : list Q) : list nat :=
  firstn top (reversed (argsort topic)).

Definition keyword_list (top : nat) (features : list string) (topic : list Q)
  : option (list string) :=
  sequence_opt (map (nth_error features) (word_idx top topic)).

Definition keywords (top : nat) (features : list string) (topic : list Q)
  : option string :=
  match keyword_list top features topic with
  | Some ws => Some (String.concat ", " ws)
  | None => None
  end.

End Ranking.

(** ** Tokenizing abstracts *)

Module Text.

(** A Python string, as the sequence of its code points. *)
Definition pystr : Type := list Z.

(** [string.punctuation]: the 32 ASCII characters that are neither
    letters, digits nor blank, at the code points 33-47, 58-64, 91-96 and
    123-126. *)
Definition is_punctuation (c : Z) : bool :=
  ((33 <=? c) && (c <=? 47)) || ((58 <=? c) && (c <=? 64))
  || ((91 <=? c) && (c <=? 96)) || ((123 <=? c) && (c <=? 126)).

(** [text.translate(str.maketrans(string.punctuation,
    ' '*len(string.punctuation)))]: every punctuation character becomes a
    space, every other character stays. *)
Definition translate_char (c : Z) : Z := if is_punctuation c then 32 else c.

Definition translate (text : pystr) : pystr := map translate_char text.

(** The characters [str.split()] separates at: those of [str.isspace]. *)
Definition is_space (c : Z) : bool :=
  ((9 <=? c) && (c <=? 13)) || ((28 <=? c) && (c <=? 32))
  || (c =? 133) || (c =? 160) || (c =? 5760)
  || ((8192 <=? c) && (c <=? 8202))
  || (c =? 8232) || (c =? 8233) || (c =? 8239) || (c =? 8287) || (c =? 12288).

(** [s.split()]: the maximal runs of characters that are not whitespace.
    [cur] is the run being read, last character first. *)
Fixpoint split_from (cur : pystr) (s : pystr) : list pystr :=
  match s with
  | [] => match cur with
          | [] => []
          | _ => [rev cur]
          end
  | c :: s' =>
      if is_space c
      then match cur with
           | [] => split_from [] s'
           | _ => rev cur :: split_from [] s'
           end
      else split_from (c :: cur) s'
  end.

Definition split (s : pystr) : list pystr := split_from [] s.

Section Stemmer.
(** [stemmer.stem], the Snowball stemmer of NLTK. *)
Variable stem : pystr -> pystr.

(** [[
    def tokenize(text):
        translator=str.maketrans(string.punctuation, ' '*len(string.punctuation))
        return [stemmer.stem(i) for i in text.translate(translator).split()]
    ]] *)
Definition tokenize (text : pystr) : list pystr :=
  map stem (split (translate text)).

(** [tokenize(s)[0]] *)
Definition first_token (s : pystr) : option pystr :=
  match tokenize s with
  | [] => None
  | t :: _ => Some t
  end.

(** [eng_stopwords = [tokenize(s)[0] for s in stop]] *)
Fixpoint stopword_tokens (stop : list pystr) : option (list pystr) :=
  match stop with
  | [] => Some []
  | s :: rest =>
      match first_token s with
      | None => None
      | Some t =>
          match stopword_tokens rest with
          | None => None
          | Some ts => Some (t :: ts)
          end
      end
  end.
End Stemmer.

(** A character that ends a word: whitespace or punctuation. *)
Definition is_separator (c : Z) : bool := is_space c || is_punctuation c.

(** The code points of an ASCII literal. *)
Fixpoint of_string (s : string) : pystr :=
  match s with
  | EmptyString => []
  | String c s' => Z.of_nat (nat_of_ascii c) :: of_string s'
  end.

End Text.

(** ** The queries of the SQL introduction (01_Databases.ipynb) *)

Module Databases.

(** The columns of [inmate] and [sentences] that the queries name; a
    column may hold NULL. *)
Record inmate_row := mkInmate
  { inmate_doc_number : option Z;
    inmate_race_code : option string;
    inmate_gender_code : option string }.

Record sentences_row := mkSentence
  { sentences_inmate_doc_number : option Z;
    actual_sentence_end_date : option string }.

(** [LIMIT n]. *)
Definition limit {A : Type} (n : nat) (rows : list A) : list A := firstn n rows.

(** [COUNT( * )]: the number of rows. *)
Definition count_star {A : Type} (rows : list A) : Z := Z.of_nat (length rows).

(** The values of a column that are not NULL. *)
Definition non_null {A B : Type} (col : A -> option B) (rows : list A) : list B :=
  flat_map (fun r => match col r with Some v => [v] | None => [] end) rows.

(** [COUNT(col)] and [COUNT(DISTINCT col)]. *)
Definition count_column {A B : Type} (col : A -> option B) (rows : list A) : Z :=
  count_star (non_null col rows).

Definition count_distinct {A B : Type} `{EqDecision B}
           (col : A -> option B) (rows : list A) : Z :=
  count_star (remove_dups (non_null col rows)).

(** [[
    SELECT COUNT( * ) FROM sentences LIMIT 20;
    SELECT COUNT(inmate_doc_number) FROM sentences LIMIT 20;
    SELECT COUNT(DISTINCT inmate_doc_number) FROM sentences LIMIT 20;
    ]]
    An aggregate without [GROUP BY] gives one row. *)
Definition count_sentences (sentences : list sentences_row) : list Z :=
  limit 20 [count_star sentences].

Definition count_sentences_doc_number (sentences : list sentences_row) : list Z :=
  limit 20 [count_column sentences_inmate_doc_number sentences].

Definition count_sentences_distinct_doc_number (sentences : list sentences_row)
  : list Z :=
  limit 20 [count_distinct sentences_inmate_doc_number sentences].

(** [SELECT key, count( * ) FROM rows GROUP BY key]: one row per value of
    the key, NULL being a value of its own, with the number of rows that
    carry it.  SQL leaves the order of the groups open; the model lists
    them in the order of [remove_dups]. *)
Definition group_count {A K : Type} `{EqDecision K} (key : A -> K) (rows : list A)
  : list (K * Z) :=
  map (fun k => (k, count_star (List.filter (fun r => bool_decide (key r = k)) rows)))
      (remove_dups (map key rows)).

(** [ORDER BY count( * )] and [ORDER BY count( * ) DESC]. *)
Definition count_asc {K : Type} (g1 g2 : K * Z) : bool := snd g1 <=? snd g2.
Definition count_desc {K : Type} (g1 g2 : K * Z) : bool := snd g2 <=? snd g1.

(** [[
    SELECT inmate_race_code, count( * ) FROM inmate
    GROUP BY inmate_race_code LIMIT 20;
    ]] *)
Definition race_counts (inmate : list inmate_row) : list (option string * Z) :=
  limit 20 (group_count inmate_race_code inmate).

(** [[
    SELECT inmate_race_code, count( * ) FROM inmate
    GROUP BY inmate_race_code ORDER BY count( * ) LIMIT 20;
    ]] *)
Definition race_counts_ordered (inmate : list inmate_row)
  : list (option string * Z) :=
  limit 20 (sort_by count_asc (group_count inmate_race_code inmate)).

Definition race_gender (r : inmate_row) : option string * option string :=
  (inmate_race_code r, inmate_gender_code r).

(** [[
    SELECT inmate_race_code, inmate_gender_code, count( * ) FROM inmate
    GROUP BY inmate_race_code, inmate_gender_code
    ORDER BY count( * ) DESC LIMIT 20;
    ]] *)
Definition race_gender_counts (inmate : list inmate_row)
  : list ((option string * option string) * Z) :=
  limit 20 (sort_by count_desc (group_count race_gender inmate)).

(** [[
    SELECT inmate_race_code, inmate_gender_code, count( * ) FROM inmate
    GROUP BY inmate_race_code, inmate_gender_code
    HAVING count( * ) > 1000
    ORDER BY count( * ) DESC LIMIT 20;
    ]] *)
Definition race_gender_counts_having (inmate : list inmate_row)
  : list ((option string * option string) * Z) :=
  limit 20 (sort_by count_desc
              (List.filter (fun g => 1000 <? snd g) (group_count race_gender inmate))).

(** [ON sentences.inmate_doc_number = inmate.inmate_doc_number]: a
    comparison with NULL is not true. *)
Definition on_inmate_doc_number (s : sentences_row) (i : inmate_row) : bool :=
  match sentences_inmate_doc_number s, inmate_doc_number i with
  | Some a, Some b => a =? b
  | _, _ => false
  end.

(** [l JOIN r ON on]: the pairs of rows that satisfy the condition. *)
Definition join {A B : Type} (on : A -> B -> bool) (l : list A) (r : list B)
  : list (A * B) :=
  flat_map (fun a => map (fun b => (a, b)) (List.filter (on a) r)) l.

(** The three selected columns: [sentences.inmate_doc_number],
    [inmate.inmate_race_code], [sentences.actual_sentence_end_date]. *)
Definition selected_row : Type := option Z * option string * option string.

Definition select_joined (p : sentences_row * inmate_row) : selected_row :=
  (sentences_inmate_doc_number (fst p), inmate_race_code (snd p),
   actual_sentence_end_date (fst p)).





(** The database file: its tables by name.  Besides [sentences] and
    [inmate] it holds the tables the notebook creates, with all the
    columns of the join or with the three selected ones. *)
Inductive table :=
| Sentences (rows : list sentences_row)
| Inmate (rows : list inmate_row)
| Joined (rows : list (sentences_row * inmate_row))
| Selected (rows : list selected_row).

Abbreviation database := (gmap string table).

(** [FROM sentences] and [JOIN inmate] fail when the table is missing. *)
Definition from_sentences (db : database) : option (list sentences_row) :=
  match db !! "sentences"%string with
  | Some (Sentences rows) => Some rows
  | _ => None
  end.

Definition from_inmate (db : database) : option (list inmate_row) :=
  match db !! "inmate"%string with
  | Some (Inmate rows) => Some rows
  | _ => None
  end.

(** [CREATE TABLE name AS query] fails when a table of that name exists. *)
Definition create_table_as (name : string) (query : database -> option table)
           (db : database) : option database :=
  match db !! name with
  | Some _ => None
  | None =>
      match query db with
      | Some t => Some (<[name := t]> db)
      | None => None
      end
  end.

(** [DROP TABLE name] fails when there is no such table. *)
Definition drop_table (name : string) (db : database) : option database :=
  match db !! name with
  | Some _ => Some (delete name db)
  | None => None
  end.

Definition select_star_join (db : database) : option table :=
  match from_sentences db, from_inmate db with
  | Some sentences, Some inmate =>
      Some (Joined (join on_inmate_doc_number sentences inmate))
  | _, _ => None
  end.

Definition select_columns_join (db : database) : option table :=
  match from_sentences db, from_inmate db with
  | Some sentences, Some inmate =>
      Some (Selected (map select_joined (join on_inmate_doc_number sentences inmate)))
  | _, _ => None
  end.

(** [CREATE TABLE joinedtable AS SELECT * FROM sentences JOIN inmate ON ...] *)
Definition create_joinedtable : database -> option database :=
  create_table_as "joinedtable" select_star_join.

(** [CREATE TABLE joinedtable2 AS SELECT sentences.inmate_doc_number, ...] *)
Definition create_joinedtable2 : database -> option database :=
  create_table_as "joinedtable2" select_columns_join.

(** [DROP TABLE joinedtable;] *)
Definition drop_joinedtable : database -> option database :=
  drop_table "joinedtable".

(** Statements run one after the other; the first failure stops the run. *)
Fixpoint run (statements : list (database -> option database)) (db : database)
  : option database :=
  match statements with
  | [] => Some db
  | statement :: rest =>
      match statement db with
      | Some db' => run rest db'
      | None => None
      end
  end.

(** The statements of the notebook that change the database, in the
    order of its cells. *)
Definition notebook_statements : list (database -> option database) :=
  [create_joinedtable; create_joinedtable2; drop_joinedtable].

End Databases.

(* ================================================================== *)
(** * Part II: properties *)
(* ================================================================== *)

(** ** Sorting *)

Section SortingFacts.
Context {A : Type} (leb : A -> A -> bool).

Lemma insert_sorted_perm (x : A) (l : list A) :
  Permutation (insert_sorted leb x l) (x :: l).
Proof.
  induction l as [|y l IH]; simpl.
  - apply Permutation_refl.
  - destruct (leb x y).
    + apply Permutation_refl.
    + eapply Permutation_trans; [apply perm_skip, IH | apply perm_swap].
Qed.

Lemma sort_by_perm (l : list A) : Permutation (sort_by leb l) l.
Proof.
  induction l as [|x l IH]; simpl.
  - apply perm_nil.
  - eapply Permutation_trans; [apply insert_sorted_perm | apply perm_skip, IH].
Qed.

Lemma sort_by_length (l : list A) : length (sort_by leb l) = length l.
Proof. apply Permutation_length, sort_by_perm. Qed.

Hypothesis leb_total : forall a b, leb a b = true \/ leb b a = true.
Hypothesis leb_trans : forall a b c, leb a b = true -> leb b c = true -> leb a c = true.

Let le (a b : A) : Prop := leb a b = true.

Lemma insert_sorted_sorted (x : A) (l : list A) :
  StronglySorted le l -> StronglySorted le (insert_sorted leb x l).
Proof.
  induction 1 as [|y l Hl IH Hy]; simpl.
  - constructor; constructor.
  - destruct (leb x y) eqn:Hxy.
    + constructor.
      * constructor; assumption.
      * constructor; [exact Hxy|].
        eapply List.Forall_impl; [|exact Hy].
        intros z Hz. exact (leb_trans _ _ _ Hxy Hz).
    + constructor; [exact IH|].
      assert (Hyx : le y x) by (destruct (leb_total x y); [congruence | assumption]).
      eapply Permutation_Forall.
      * apply Permutation_sym, insert_sorted_perm.
      * constructor; assumption.
Qed.

Lemma sort_by_sorted (l : list A) : StronglySorted le (sort_by leb l).
Proof.
  induction l as [|x l IH]; simpl.
  - constructor.
  - apply insert_sorted_sorted, IH.
Qed.
End SortingFacts.

Lemma StronglySorted_snoc {A : Type} (R : A -> A -> Prop) (l : list A) (x : A) :
  StronglySorted R l -> Forall (fun y => R y x) l -> StronglySorted R (l ++ [x]).
Proof.
  induction 1 as [|y l Hl IH Hy]; intros Hx; simpl.
  - constructor; constructor.
  - inversion Hx as [|? ? Hyx Hlx]; subst.
    constructor; [apply IH, Hlx|].
    apply List.Forall_app; split; [exact Hy | constructor; [exact Hyx | constructor]].
Qed.

Section SortedFacts.
Context {A : Type} (R : A -> A -> Prop).

Lemma StronglySorted_rev (l : list A) :
  StronglySorted R l -> StronglySorted (fun a b => R b a) (rev l).
Proof.
  induction 1 as [|y l Hl IH Hy]; simpl.
  - constructor.
  - apply StronglySorted_snoc; [exact IH|].
    apply List.Forall_rev. exact Hy.
Qed.

(** In a sorted list an earlier entry is related to every later one. *)
Lemma StronglySorted_nth_error (l : list A) :
  StronglySorted R l ->
  forall (i j : nat) (a b : A),
    (i < j)%nat -> nth_error l i = Some a -> nth_error l j = Some b -> R a b.
Proof.
  induction 1 as [|y l Hl IH Hy]; intros i j a b Hij Hi Hj.
  - destruct i; discriminate.
  - destruct j as [|j]; [lia|]. simpl in Hj.
    destruct i as [|i]; simpl in Hi.
    + injection Hi as <-.
      rewrite List.Forall_forall in Hy. apply Hy.
      eapply nth_error_In; exact Hj.
    + eapply IH; [|exact Hi|exact Hj]. lia.
Qed.
End SortedFacts.

Lemma filter_length_perm {A : Type} (p : A -> bool) (l l' : list A) :
  Permutation l l' -> length (List.filter p l) = length (List.filter p l').
Proof.
  induction 1 as [|x l l' _ IH|x y l|l l' l'' _ IH1 _ IH2]; simpl.
  - reflexivity.
  - destruct (p x); simpl; congruence.
  - destruct (p x), (p y); reflexivity.
  - congruence.
Qed.

Lemma filter_all {A : Type} (p : A -> bool) (l : list A) :
  (forall x, In x l -> p x = true) -> List.filter p l = l.
Proof.
  induction l as [|x l IH]; intros H; simpl.
  - reflexivity.
  - rewrite (H x (or_introl eq_refl)). f_equal. apply IH.
    intros y Hy. apply H. right. exact Hy.
Qed.

Lemma filter_length_firstn {A : Type} (p : A -> bool) (n : nat) (l : list A) :
  (length (List.filter p (firstn n l)) <= length (List.filter p l))%nat.
Proof.
  rewrite <- (firstn_skipn n l) at 2.
  rewrite List.filter_app, List.length_app. lia.
Qed.

Lemma filter_nil_key {A : Type} (p : A -> bool) (l : list A) :
  (forall x, In x l -> p x = false) -> List.filter p l = [].
Proof.
  induction l as [|x l IH]; intros H; simpl; [reflexivity|].
  rewrite (H x (or_introl eq_refl)). apply IH.
  intros y Hy. apply H. right. exact Hy.
Qed.

(** ** Binary64 rounding *)

(** [float_index] multiplies with [SFmul], the Standard Library's
    specification of IEEE 754.  The lemmas of this part read off what
    that multiplication does to an exact product [m * 2^e]: the mantissa
    is shifted to 53 digits (or to the subnormal step), rounded to
    nearest with ties to even, and renormalised ([binary_round_aux_spec]).
    On a common scale [2^E0] the result is a function [Phi] of the exact
    value alone; [Phi] is monotone and leaves a number of at most 53
    digits alone.  From there: the index is monotone in [k]
    ([float_index_mono]), odd in [k] ([float_index_opp]), the length for
    [k = 1.0] ([float_index_one]), [n // 20] for [k = 0.05]
    ([float_index_five_percent]), and within one of the floor of the
    exact product ([float_index_near_floor]). *)

Lemma iter_pos_nat {A : Type} (f : A -> A) (p : positive) (x : A) :
  SpecFloat.iter_pos f p x = Nat.iter (Pos.to_nat p) f x.
Proof.
  revert x. induction p as [p IH|p IH|]; intros x; cbn [SpecFloat.iter_pos].
  - rewrite !IH, Pos2Nat.inj_xI, <- Nat.iter_succ_r, <- Nat.iter_add. f_equal. lia.
  - rewrite !IH, Pos2Nat.inj_xO, <- Nat.iter_add. f_equal. lia.
  - reflexivity.
Qed.

Lemma digits2_pos_size (m : positive) : digits2_pos m = Pos.size m.
Proof. induction m as [m IH|m IH|]; simpl; congruence. Qed.

(** A positive number of [d] binary digits lies in [[2^(d-1), 2^d)]. *)
Lemma digits2_pos_bounds (m : positive) :
  2 ^ (Zpos (digits2_pos m) - 1) <= Zpos m < 2 ^ Zpos (digits2_pos m).
Proof.
  rewrite digits2_pos_size. split.
  - pose proof (Pos.size_le m) as H.
    assert (H2 : 2 ^ Zpos (Pos.size m) <= 2 * Zpos m).
    { change 2 with (Zpos 2) at 1. rewrite <- Pos2Z.inj_pow.
      change (2 * Zpos m) with (Zpos (m~0)). apply Pos2Z.pos_le_pos. exact H. }
    replace (Zpos (Pos.size m)) with (Z.succ (Zpos (Pos.size m) - 1)) in H2 by lia.
    rewrite Z.pow_succ_r in H2 by lia. lia.
  - pose proof (Pos.size_gt m) as H.
    change 2 with (Zpos 2). rewrite <- Pos2Z.inj_pow. apply Pos2Z.pos_lt_pos. exact H.
Qed.

Lemma digits_unique (v d : Z) : 0 <= d -> 2 ^ (d - 1) <= v < 2 ^ d ->
  forall d', 0 <= d' -> 2 ^ (d' - 1) <= v < 2 ^ d' -> d = d'.
Proof.
  intros Hd [Hl Hu] d' Hd' [Hl' Hu'].
  destruct (Z.lt_trichotomy d d') as [H|[H|H]]; [|exact H|]; exfalso.
  - assert (2 ^ d <= 2 ^ (d' - 1)) by (apply Z.pow_le_mono_r; lia). lia.
  - assert (2 ^ d' <= 2 ^ (d - 1)) by (apply Z.pow_le_mono_r; lia). lia.
Qed.

Lemma shr_1_nonneg (m : Z) (r s : bool) :
  0 <= m ->
  shr_1 (Build_shr_record m r s) = Build_shr_record (m / 2) (Z.odd m) (r || s).
Proof.
  intros Hm. rewrite <- Z.div2_div.
  destruct m as [|[p|p|]|p]; try reflexivity. lia.
Qed.

Lemma mod_pow_succ (v j : Z) :
  0 <= j -> v mod 2 ^ (j + 1) = v mod 2 ^ j + 2 ^ j * ((v / 2 ^ j) mod 2).
Proof.
  intros Hj. rewrite Z.pow_add_r, Z.pow_1_r by lia.
  apply Z.rem_mul_r; [|lia]. apply Z.pow_nonzero; lia.
Qed.

(** Shifting [v] to the right by [j >= 1] bits: the quotient, the bit
    shifted out last and whether any bit shifted out before it is set. *)
Lemma shr_iter (v : Z) (j : nat) :
  0 <= v ->
  Nat.iter (S j) shr_1 (Build_shr_record v false false)
  = Build_shr_record (v / 2 ^ Z.of_nat (S j))
                     (Z.odd (v / 2 ^ Z.of_nat j))
                     (negb (v mod 2 ^ Z.of_nat j =? 0)).
Proof.
  intros Hv. induction j as [|j IH].
  - cbn [Nat.iter]. rewrite shr_1_nonneg by exact Hv.
    change (Z.of_nat 1) with 1. change (Z.of_nat 0) with 0.
    rewrite Z.pow_1_r, Z.pow_0_r, Z.div_1_r, Z.mod_1_r. reflexivity.
  - rewrite Nat.iter_succ, IH.
    assert (Hq : 0 <= v / 2 ^ Z.of_nat (S j)) by (apply Z.div_pos; lia).
    rewrite shr_1_nonneg by exact Hq. f_equal.
    + rewrite Z.div_div by lia. f_equal.
      replace (Z.of_nat (S (S j))) with (Z.of_nat (S j) + 1) by lia.
      rewrite Z.pow_add_r by lia. lia.
    + replace (Z.of_nat (S j)) with (Z.of_nat j + 1) by lia.
      rewrite (mod_pow_succ v (Z.of_nat j)) by lia.
      pose proof (Z.mod_pos_bound v (2 ^ Z.of_nat j) ltac:(lia)) as Hb.
      pose proof (Z.mod_pos_bound (v / 2 ^ Z.of_nat j) 2 ltac:(lia)) as Hb2.
      rewrite (Zmod_odd (v / 2 ^ Z.of_nat j)).
      destruct (Z.odd (v / 2 ^ Z.of_nat j));
        destruct (Z.eqb_spec (v mod 2 ^ Z.of_nat j) 0) as [E0|E0];
        cbn [negb orb];
        match goal with |- _ = negb (?a =? ?b) => destruct (Z.eqb_spec a b) end;
        cbn [negb]; try reflexivity; exfalso; nia.
Qed.

Section Binary64.
Import Metrics.

(** Round to nearest, ties to even, of [v / 2^g]. *)
Let rne (v g : Z) : Z :=
  let q := v / 2 ^ g in
  let r := v mod 2 ^ g in
  if 2 * r <? 2 ^ g then q
  else if 2 ^ g <? 2 * r then q + 1
  else if Z.even q then q else q + 1.

(** The rounding of binary64 on a scaled value [v = x * 2^-E0]: the grid
    has step [2^g], with 53 significant digits or the step of the
    subnormal numbers, [2^K]. *)
Let Phi (K v : Z) : Z :=
  let g := Z.max (Zdigits2 v - 53) K in
  rne v g * 2 ^ g.

Lemma rne_0 (v : Z) : rne v 0 = v.
Proof.
  unfold rne. rewrite Z.pow_0_r, Z.div_1_r, Z.mod_1_r. reflexivity.
Qed.

Lemma rne_exact (a g : Z) : 0 <= g -> rne (a * 2 ^ g) g = a.
Proof.
  intros Hg. unfold rne.
  assert (Hp : 0 < 2 ^ g) by (apply Z.pow_pos_nonneg; lia).
  rewrite Z.div_mul, Z.mod_mul by lia.
  destruct (Z.ltb_spec (2 * 0) (2 ^ g)); [reflexivity | lia].
Qed.

Lemma rne_bounds (v g : Z) :
  0 <= g -> v / 2 ^ g <= rne v g <= v / 2 ^ g + 1.
Proof.
  intros Hg. unfold rne.
  destruct (2 * (v mod 2 ^ g) <? 2 ^ g); [lia|].
  destruct (2 ^ g <? 2 * (v mod 2 ^ g)); [lia|].
  destruct (Z.even (v / 2 ^ g)); lia.
Qed.

Lemma rne_mono (v v' g : Z) : 0 <= g -> v <= v' -> rne v g <= rne v' g.
Proof.
  intros Hg Hv.
  assert (Hp : 0 < 2 ^ g) by (apply Z.pow_pos_nonneg; lia).
  pose proof (Z.div_le_mono v v' (2 ^ g) Hp Hv) as Hq.
  pose proof (rne_bounds v g Hg) as Hb. pose proof (rne_bounds v' g Hg) as Hb'.
  destruct (Z.eq_dec (v / 2 ^ g) (v' / 2 ^ g)) as [E|E]; [|lia].
  pose proof (Z.div_mod v (2 ^ g) ltac:(lia)) as D.
  pose proof (Z.div_mod v' (2 ^ g) ltac:(lia)) as D'.
  assert (Hr : v mod 2 ^ g <= v' mod 2 ^ g) by (rewrite E in D; lia).
  unfold rne. rewrite <- E.
  destruct (Z.ltb_spec (2 * (v mod 2 ^ g)) (2 ^ g));
    destruct (Z.ltb_spec (2 * (v' mod 2 ^ g)) (2 ^ g));
    destruct (Z.ltb_spec (2 ^ g) (2 * (v mod 2 ^ g)));
    destruct (Z.ltb_spec (2 ^ g) (2 * (v' mod 2 ^ g)));
    destruct (Z.even (v / 2 ^ g)); lia.
Qed.

Lemma rne_scale (v g j : Z) :
  0 <= g -> 0 <= j -> rne (v * 2 ^ j) (g + j) = rne v g.
Proof.
  intros Hg Hj. unfold rne.
  assert (Hp : 0 < 2 ^ g) by (apply Z.pow_pos_nonneg; lia).
  assert (Hpj : 0 < 2 ^ j) by (apply Z.pow_pos_nonneg; lia).
  rewrite Z.pow_add_r by lia.
  rewrite Z.div_mul_cancel_r by lia.
  rewrite Z.mul_mod_distr_r by lia.
  repeat match goal with
         | |- context [?a <? ?b] => destruct (Z.ltb_spec a b); try nia
         end;
    reflexivity.
Qed.

Lemma rne_nonneg (v g : Z) : 0 <= g -> 0 <= v -> 0 <= rne v g.
Proof.
  intros Hg Hv. pose proof (rne_bounds v g Hg).
  assert (0 <= v / 2 ^ g) by (apply Z.div_pos; [lia | apply Z.pow_pos_nonneg; lia]).
  lia.
Qed.

(** What [shr] and [round_nearest_even] compute together. *)
Lemma shr_rne (v : Z) (p : positive) :
  0 <= v ->
  shr_m (SpecFloat.iter_pos shr_1 p (Build_shr_record v false false)) = v / 2 ^ Zpos p
  /\ round_nearest_even
       (shr_m (SpecFloat.iter_pos shr_1 p (Build_shr_record v false false)))
       (loc_of_shr_record (SpecFloat.iter_pos shr_1 p (Build_shr_record v false false)))
     = rne v (Zpos p).
Proof.
  intros Hv. rewrite iter_pos_nat.
  destruct (Pos2Nat.is_succ p) as [j Hj]. rewrite Hj, (shr_iter v j Hv).
  assert (HS : Z.of_nat (S j) = Zpos p) by lia.
  assert (Hp : Zpos p = Z.of_nat j + 1) by lia.
  cbn [shr_m shr_r shr_s]. rewrite HS.
  split; [reflexivity|].
  unfold rne. rewrite Hp. rewrite (mod_pow_succ v (Z.of_nat j)) by lia.
  rewrite <- Hp.
  assert (Hpow : 2 ^ Zpos p = 2 * 2 ^ Z.of_nat j)
    by (rewrite Hp, Z.pow_add_r, Z.pow_1_r by lia; lia).
  assert (H2 : 0 < 2 ^ Z.of_nat j) by (apply Z.pow_pos_nonneg; lia).
  pose proof (Z.mod_pos_bound v (2 ^ Z.of_nat j) H2) as Hb.
  rewrite (Zmod_odd (v / 2 ^ Z.of_nat j)).
  destruct (Z.odd (v / 2 ^ Z.of_nat j));
    destruct (Z.eqb_spec (v mod 2 ^ Z.of_nat j) 0) as [E0|E0];
    cbn [negb loc_of_shr_record round_nearest_even];
    repeat match goal with
           | |- context [?a <? ?b] => destruct (Z.ltb_spec a b); try lia
           end;
    reflexivity.
Qed.



Lemma Zdigits2_bounds (v : Z) :
  0 < v -> 0 < Zdigits2 v /\ 2 ^ (Zdigits2 v - 1) <= v < 2 ^ Zdigits2 v.
Proof.
  destruct v as [|p|p]; try lia. intros _. cbn [Zdigits2].
  split; [lia | apply digits2_pos_bounds].
Qed.

Lemma Zdigits2_unique (v d : Z) :
  0 <= d -> 2 ^ (d - 1) <= v < 2 ^ d -> 0 < v -> Zdigits2 v = d.
Proof.
  intros Hd Hb Hv. destruct (Zdigits2_bounds v Hv) as [Hd' Hb'].
  symmetry. apply (digits_unique v d Hd Hb); [lia | exact Hb'].
Qed.

Lemma Zdigits2_mul_pow (v j : Z) :
  0 < v -> 0 <= j -> Zdigits2 (v * 2 ^ j) = Zdigits2 v + j.
Proof.
  intros Hv Hj. destruct (Zdigits2_bounds v Hv) as [Hd [Hl Hu]].
  assert (Hp : 0 < 2 ^ j) by (apply Z.pow_pos_nonneg; lia).
  apply Zdigits2_unique; [lia | | nia].
  replace (Zdigits2 v + j - 1) with ((Zdigits2 v - 1) + j) by lia.
  rewrite !Z.pow_add_r by lia. nia.
Qed.

Lemma Zdigits2_le (v w : Z) : 0 < v -> v <= w -> Zdigits2 v <= Zdigits2 w.
Proof.
  intros Hv Hw.
  destruct (Zdigits2_bounds v Hv) as [Hd [Hl Hu]].
  destruct (Zdigits2_bounds w ltac:(lia)) as [Hd' [Hl' Hu']].
  destruct (Z.le_gt_cases (Zdigits2 v) (Zdigits2 w)) as [H|H]; [exact H|].
  exfalso.
  assert (2 ^ Zdigits2 w <= 2 ^ (Zdigits2 v - 1)) by (apply Z.pow_le_mono_r; lia).
  lia.
Qed.

Lemma shr_fexp_spec (v e : Z) :
  0 <= v ->
  snd (shr_fexp 53 1024 v e loc_Exact)
  = e + Z.max 0 (fexp 53 1024 (Zdigits2 v + e) - e)
  /\ shr_m (fst (shr_fexp 53 1024 v e loc_Exact))
     = v / 2 ^ Z.max 0 (fexp 53 1024 (Zdigits2 v + e) - e)
  /\ round_nearest_even
       (shr_m (fst (shr_fexp 53 1024 v e loc_Exact)))
       (loc_of_shr_record (fst (shr_fexp 53 1024 v e loc_Exact)))
     = rne v (Z.max 0 (fexp 53 1024 (Zdigits2 v + e) - e)).
Proof.
  intros Hv. unfold shr_fexp, shr. cbn [shr_record_of_loc].
  destruct (fexp 53 1024 (Zdigits2 v + e) - e) as [|p|p] eqn:E; cbn [fst snd].
  - cbn [shr_m loc_of_shr_record round_nearest_even Z.max Z.compare].
    rewrite rne_0, Z.pow_0_r, Z.div_1_r. repeat split; lia.
  - replace (Z.max 0 (Zpos p)) with (Zpos p) by lia.
    destruct (shr_rne v p Hv) as [H1 H2]. rewrite H2, H1. repeat split.
  - replace (Z.max 0 (Zneg p)) with 0 by lia.
    cbn [shr_m loc_of_shr_record round_nearest_even].
    rewrite rne_0, Z.pow_0_r, Z.div_1_r. repeat split; lia.
Qed.

Lemma binary_round_aux_unfold (s : bool) (m : positive) (e : Z) :
  binary_round_aux 53 1024 s (Zpos m) e loc_Exact
  = let P := Z.max 0 (fexp 53 1024 (Zpos (digits2_pos m) + e) - e) in
    let m2 := rne (Zpos m) P in
    let P2 := Z.max 0 (fexp 53 1024 (Zdigits2 m2 + (e + P)) - (e + P)) in
    match m2 / 2 ^ P2 with
    | Z0 => S754_zero s
    | Zpos p => if e + P + P2 <=? 971 then S754_finite s p (e + P + P2)
                else S754_infinity s
    | Zneg _ => S754_nan
    end.
Proof.
  unfold binary_round_aux.
  destruct (shr_fexp_spec (Zpos m) e ltac:(lia)) as [H1 [_ H3]].
  cbn [Zdigits2] in H1, H3.
  destruct (shr_fexp 53 1024 (Zpos m) e loc_Exact) as [mrs' e'].
  cbn [fst snd] in H1, H3. rewrite H3, H1. cbv zeta.
  set (P := Z.max 0 (fexp 53 1024 (Zpos (digits2_pos m) + e) - e)).
  assert (Hm2 : 0 <= rne (Zpos m) P) by (apply rne_nonneg; lia).
  destruct (shr_fexp_spec (rne (Zpos m) P) (e + P) Hm2) as [H4 [H5 _]].
  destruct (shr_fexp 53 1024 (rne (Zpos m) P) (e + P) loc_Exact) as [mrs'' e''].
  cbn [fst snd] in H4, H5. rewrite H5, H4. reflexivity.
Qed.

Lemma fexp_eq (x : Z) : fexp 53 1024 x = Z.max (x - 53) (-1074).
Proof. reflexivity. Qed.

Lemma pow2_pos (j : Z) : 0 <= j -> 0 < 2 ^ j.
Proof. intros Hj. apply Z.pow_pos_nonneg; lia. Qed.

Lemma pow2_split (a b : Z) : 0 <= a -> 0 <= b -> 2 ^ (a + b) = 2 ^ a * 2 ^ b.
Proof. intros Ha Hb. apply Z.pow_add_r; assumption. Qed.

(** The result of rounding [m * 2^e]: the float returned, its exponent
    and its value on the scale [2^E0]. *)
Lemma binary_round_aux_spec (s : bool) (m : positive) (e E0 : Z) :
  E0 <= e -> E0 <= -1074 ->
  exists m3 e3 : Z,
    binary_round_aux 53 1024 s (Zpos m) e loc_Exact
    = match m3 with
      | Z0 => S754_zero s
      | Zpos p => if e3 <=? 971 then S754_finite s p e3 else S754_infinity s
      | Zneg _ => S754_nan
      end
    /\ 0 <= m3
    /\ Z.max e (fexp 53 1024 (Zpos (digits2_pos m) + e)) <= e3
       <= Z.max e (fexp 53 1024 (Zpos (digits2_pos m) + e)) + 1
    /\ (fexp 53 1024 (Zpos (digits2_pos m) + e) <= e -> e3 = e /\ m3 = Zpos m)
    /\ m3 * 2 ^ (e3 - E0) = Phi (-1074 - E0) (Zpos m * 2 ^ (e - E0)).
Proof.
  intros HE HE0. rewrite binary_round_aux_unfold. cbv zeta.
  pose proof (digits2_pos_bounds m) as [Hdl Hdu].
  set (d := Zpos (digits2_pos m)) in *.
  assert (Hd : 0 < d) by (unfold d; lia).
  rewrite !fexp_eq.
  set (c := Z.max (d + e - 53) (-1074)).
  set (P := Z.max 0 (c - e)).
  set (m2 := rne (Zpos m) P).
  assert (HP : 0 <= P) by (unfold P; lia).
  assert (Hm2 : 0 <= m2) by (apply rne_nonneg; lia).
  set (P2 := Z.max 0 (Z.max (Zdigits2 m2 + (e + P) - 53) (-1074) - (e + P))).
  (* the second shift is by at most one bit and loses nothing *)
  assert (Hsecond : (c <= e -> P2 = 0 /\ m2 = Zpos m)
                    /\ 0 <= P2 <= 1 /\ m2 / 2 ^ P2 * 2 ^ P2 = m2).
  { destruct (Z.le_gt_cases c e) as [Hce|Hce].
    - assert (HP0 : P = 0) by (unfold P; lia).
      assert (E2 : m2 = Zpos m) by (unfold m2; rewrite HP0; apply rne_0).
      assert (HP2 : P2 = 0).
      { unfold P2. rewrite E2, HP0. cbn [Zdigits2]. fold d. unfold c in Hce. lia. }
      rewrite HP2, Z.pow_0_r, Z.div_1_r. repeat split; try lia; auto.
    - assert (HPc : P = c - e) by (unfold P; lia).
      assert (Hlt : Zpos m < 2 ^ 53 * 2 ^ P).
      { rewrite <- pow2_split by lia.
        assert (2 ^ d <= 2 ^ (53 + P)) by (apply Z.pow_le_mono_r; unfold c in *; lia).
        lia. }
      assert (Hq : Zpos m / 2 ^ P < 2 ^ 53)
        by (apply Z.div_lt_upper_bound; [apply pow2_pos; lia | lia]).
      pose proof (rne_bounds (Zpos m) P HP) as Hb. fold m2 in Hb.
      assert (Hle : m2 <= 2 ^ 53) by lia.
      split; [lia|].
      destruct (Z.eq_dec m2 0) as [Z0|NZ].
      + assert (HP2 : P2 = 0) by (unfold P2; rewrite Z0; cbn [Zdigits2]; unfold c in *; lia).
        rewrite HP2, Z.pow_0_r, Z.div_1_r. lia.
      + destruct (Z.eq_dec m2 (2 ^ 53)) as [E53|N53].
        * assert (HP2 : P2 = 1).
          { unfold P2. rewrite E53. change (Zdigits2 (2 ^ 53)) with 54.
            unfold c in *. lia. }
          rewrite HP2, E53. split; [lia | reflexivity].
        * assert (HD : Zdigits2 m2 <= 53).
          { destruct (Zdigits2_bounds m2 ltac:(lia)) as [_ [Hl _]].
            destruct (Z.le_gt_cases (Zdigits2 m2) 53) as [H|H]; [exact H|].
            exfalso.
            assert (2 ^ 53 <= 2 ^ (Zdigits2 m2 - 1)) by (apply Z.pow_le_mono_r; lia).
            lia. }
          assert (HP2 : P2 = 0) by (unfold P2, c in *; lia).
          rewrite HP2, Z.pow_0_r, Z.div_1_r. lia. }
  destruct Hsecond as [Hexact [HP2 Hdiv]].
  exists (m2 / 2 ^ P2), (e + P + P2).
  split; [reflexivity|].
  split; [apply Z.div_pos; [exact Hm2 | apply pow2_pos; lia]|].
  split; [unfold P; lia|].
  split.
  { intros Hce. destruct (Hexact Hce) as [-> ->].
    rewrite Z.pow_0_r, Z.div_1_r. unfold P. split; lia. }
  (* the value *)
  replace (e + P + P2 - E0) with (P2 + (e + P - E0)) by lia.
  rewrite pow2_split, Z.mul_assoc, Hdiv by lia.
  unfold Phi. cbv zeta.
  rewrite Zdigits2_mul_pow by lia. cbn [Zdigits2]. fold d.
  replace (Z.max (d + (e - E0) - 53) (-1074 - E0)) with (c - E0) by (unfold c; lia).
  destruct (Z.le_gt_cases c e) as [Hce|Hce].
  - destruct (Hexact Hce) as [_ ->].
    replace P with 0 by (unfold P; lia). rewrite Z.add_0_r.
    replace (e - E0) with ((e - c) + (c - E0)) at 2 by lia.
    rewrite pow2_split, Z.mul_assoc, rne_exact by (unfold c in *; lia).
    rewrite <- Z.mul_assoc, <- pow2_split by (unfold c in *; lia).
    f_equal. f_equal. lia.
  - assert (HPc : P = c - e) by (unfold P; lia).
    replace (c - E0) with (P + (e - E0)) by lia.
    rewrite rne_scale by lia. fold m2. f_equal. f_equal. lia.
Qed.

Lemma Phi_nonneg (K v : Z) : 0 <= K -> 0 <= v -> 0 <= Phi K v.
Proof.
  intros HK Hv. unfold Phi. cbv zeta.
  apply Z.mul_nonneg_nonneg; [apply rne_nonneg; lia|].
  apply Z.lt_le_incl, pow2_pos; lia.
Qed.

(** A number with at most 53 significant digits above the subnormal
    step is not changed. *)
Lemma Phi_exact (K w j : Z) :
  0 <= K -> 0 < w < 2 ^ 53 -> K <= j -> Phi K (w * 2 ^ j) = w * 2 ^ j.
Proof.
  intros HK Hw Hj. unfold Phi. cbv zeta.
  rewrite Zdigits2_mul_pow by lia.
  assert (HD : Zdigits2 w <= 53).
  { destruct (Zdigits2_bounds w ltac:(lia)) as [_ [Hl _]].
    destruct (Z.le_gt_cases (Zdigits2 w) 53) as [H|H]; [exact H|].
    exfalso.
    assert (2 ^ 53 <= 2 ^ (Zdigits2 w - 1)) by (apply Z.pow_le_mono_r; lia).
    lia. }
  set (g := Z.max (Zdigits2 w + j - 53) K).
  assert (Hg : 0 <= g <= j) by (unfold g; lia).
  assert (Hsplit : w * 2 ^ j = w * 2 ^ (j - g) * 2 ^ g).
  { rewrite <- Z.mul_assoc, <- pow2_split by lia. f_equal. f_equal. lia. }
  rewrite Hsplit, rne_exact by lia. reflexivity.
Qed.

Lemma Phi_mono (K v v' : Z) :
  0 <= K -> 0 < v -> v <= v' -> Phi K v <= Phi K v'.
Proof.
  intros HK Hv Hle. unfold Phi. cbv zeta.
  pose proof (Zdigits2_le v v' Hv Hle) as HD.
  set (g := Z.max (Zdigits2 v - 53) K).
  set (g' := Z.max (Zdigits2 v' - 53) K).
  assert (Hg : 0 <= g <= g') by (unfold g, g'; lia).
  destruct (Z.eq_dec g g') as [E|NE].
  - rewrite <- E. apply Z.mul_le_mono_nonneg_r;
      [apply Z.lt_le_incl, pow2_pos; lia | apply rne_mono; lia].
  - destruct (Zdigits2_bounds v Hv) as [_ [_ Hu]].
    destruct (Zdigits2_bounds v' ltac:(lia)) as [_ [Hl' _]].
    set (D := Zdigits2 v' - 1) in *.
    assert (HgD : g < g' /\ g' <= D /\ Zdigits2 v <= D) by (unfold g, g', D in *; lia).
    assert (HvB : v <= 2 ^ D).
    { assert (2 ^ Zdigits2 v <= 2 ^ D) by (apply Z.pow_le_mono_r; lia). lia. }
    assert (HD1 : 2 ^ D = 2 ^ (D - g) * 2 ^ g)
      by (rewrite <- pow2_split by lia; f_equal; lia).
    assert (HD2 : 2 ^ D = 2 ^ (D - g') * 2 ^ g')
      by (rewrite <- pow2_split by lia; f_equal; lia).
    transitivity (2 ^ D).
    + rewrite HD1.
      apply Z.mul_le_mono_nonneg_r; [apply Z.lt_le_incl, pow2_pos; lia|].
      rewrite <- (rne_exact (2 ^ (D - g)) g) by lia.
      apply rne_mono; [lia|]. rewrite <- HD1. exact HvB.
    + rewrite HD2.
      apply Z.mul_le_mono_nonneg_r; [apply Z.lt_le_incl, pow2_pos; lia|].
      rewrite <- (rne_exact (2 ^ (D - g')) g') at 1 by lia.
      apply rne_mono; [lia|]. rewrite <- HD2. exact Hl'.
Qed.

(** [int] of a finite float, from its value on the scale [2^E0]. *)
Lemma int_of_float_scaled (s : bool) (p : positive) (e E0 : Z) :
  E0 <= e -> E0 <= 0 ->
  int_of_float (S754_finite s p e)
  = Some (if s then - (Zpos p * 2 ^ (e - E0) / 2 ^ (- E0))
          else Zpos p * 2 ^ (e - E0) / 2 ^ (- E0)).
Proof.
  intros HE HE0. cbn [int_of_float]. cbv zeta.
  assert (Heq : (if 0 <=? e then Zpos p * 2 ^ e else Zpos p / 2 ^ (- e))
                = Zpos p * 2 ^ (e - E0) / 2 ^ (- E0)).
  { destruct (Z.leb_spec 0 e) as [H|H].
    - assert (Hp : 2 ^ (e - E0) = 2 ^ e * 2 ^ (- E0))
        by (rewrite <- pow2_split by lia; f_equal; lia).
      rewrite Hp, Z.mul_assoc, Z.div_mul by (apply Z.pow_nonzero; lia).
      reflexivity.
    - assert (Hp : 2 ^ (- E0) = 2 ^ (- e) * 2 ^ (e - E0))
        by (rewrite <- pow2_split by lia; f_equal; lia).
      rewrite Hp.
      rewrite Z.div_mul_cancel_r; [reflexivity | | ]; apply Z.pow_nonzero; lia. }
  rewrite Heq. reflexivity.
Qed.

(** The index a rounded product gives: [None] on overflow, otherwise the
    integer part of the rounded value, with the sign. *)
Lemma round_index (s : bool) (m : positive) (e E0 : Z) :
  E0 <= e -> E0 <= -1074 ->
  (int_of_float (binary_round_aux 53 1024 s (Zpos m) e loc_Exact) = None
   /\ 971 <= Z.max e (fexp 53 1024 (Zpos (digits2_pos m) + e)))
  \/ int_of_float (binary_round_aux 53 1024 s (Zpos m) e loc_Exact)
     = Some (if s then - (Phi (-1074 - E0) (Zpos m * 2 ^ (e - E0)) / 2 ^ (- E0))
             else Phi (-1074 - E0) (Zpos m * 2 ^ (e - E0)) / 2 ^ (- E0)).
Proof.
  intros HE HE0.
  destruct (binary_round_aux_spec s m e E0 HE HE0)
    as (m3 & e3 & Heq & Hm3 & He3 & _ & Hval).
  rewrite Heq. destruct m3 as [|p|p]; [| |lia].
  - right. cbn [int_of_float]. rewrite <- Hval.
    rewrite Z.mul_0_l, Z.div_0_l by (apply Z.pow_nonzero; lia).
    destruct s; reflexivity.
  - destruct (Z.leb_spec e3 971) as [H|H].
    + right. rewrite (int_of_float_scaled s p e3 E0) by lia.
      rewrite Hval. reflexivity.
    + left. split; [reflexivity | lia].
Qed.

Lemma iter_xO (m d : positive) : Zpos (Pos.iter xO m d) = Zpos m * 2 ^ Zpos d.
Proof.
  induction d as [|d IH] using Pos.peano_ind.
  - cbn [Pos.iter]. rewrite Z.pow_1_r. lia.
  - rewrite Pos.iter_succ, Pos2Z.inj_xO, IH, Pos2Z.inj_succ, Z.pow_succ_r by lia. lia.
Qed.

(** [float(n)]: the mantissa and exponent handed to the rounding. *)
Lemma float_of_int_unfold (n : positive) :
  exists (mz : positive) (ez : Z),
    float_of_int (Zpos n) = binary_round_aux 53 1024 false (Zpos mz) ez loc_Exact
    /\ -52 <= ez <= 0
    /\ Zpos mz = Zpos n * 2 ^ (- ez)
    /\ (Zpos n < 2 ^ 53 ->
        fexp 53 1024 (Zpos (digits2_pos mz) + ez) <= ez).
Proof.
  unfold float_of_int, binary_normalize, binary_round.
  pose proof (digits2_pos_bounds n) as [Hl Hu].
  set (d := Zpos (digits2_pos n)) in *.
  assert (Hd : 0 < d) by (unfold d; lia).
  rewrite Z.add_0_r, fexp_eq. unfold shl_align. rewrite Z.sub_0_r.
  destruct (Z.max (d - 53) (-1074)) as [|p|p] eqn:E.
  - exists n, 0. split; [reflexivity|]. split; [lia|].
    split; [rewrite Z.pow_0_r; lia|].
    intros _. fold d. rewrite Z.add_0_r, fexp_eq. lia.
  - exists n, 0. split; [reflexivity|]. split; [lia|].
    split; [rewrite Z.pow_0_r; lia|].
    intros Hn. exfalso.
    assert (2 ^ 53 <= 2 ^ (d - 1)) by (apply Z.pow_le_mono_r; lia). lia.
  - exists (Pos.iter xO n p), (Zneg p). split; [reflexivity|].
    split; [lia|]. split; [rewrite iter_xO; reflexivity|].
    intros _. rewrite fexp_eq.
    assert (HD : Zpos (digits2_pos (Pos.iter xO n p)) = d + Zpos p).
    { change (Zpos (digits2_pos (Pos.iter xO n p)))
        with (Zdigits2 (Zpos (Pos.iter xO n p))).
      rewrite iter_xO, Zdigits2_mul_pow by lia. reflexivity. }
    rewrite HD. lia.
Qed.

Lemma float_of_int_exact (n : Z) :
  0 < n < 2 ^ 53 ->
  exists (mN : positive) (eN : Z),
    float_of_int n = S754_finite false mN eN
    /\ -52 <= eN <= 0 /\ Zpos mN = n * 2 ^ (- eN).
Proof.
  intros [H0 Hn]. destruct n as [|n|n]; try lia.
  destruct (float_of_int_unfold n) as (mz & ez & Heq & Hez & Hval & Hc).
  destruct (binary_round_aux_spec false mz ez (-1074) ltac:(lia) ltac:(lia))
    as (m3 & e3 & Hr & _ & _ & Hex & _).
  destruct (Hex (Hc Hn)) as [-> ->].
  exists mz, ez. rewrite Heq, Hr.
  destruct (Z.leb_spec ez 971); [|lia]. auto.
Qed.

Lemma float_of_int_cases (n : Z) :
  0 <= n ->
  float_of_int n = S754_zero false
  \/ float_of_int n = S754_infinity false
  \/ exists (mN : positive) (eN : Z),
       float_of_int n = S754_finite false mN eN /\ -52 <= eN.
Proof.
  intros Hn. destruct n as [|n|n]; try lia; [left; reflexivity|].
  destruct (float_of_int_unfold n) as (mz & ez & Heq & Hez & _ & _).
  destruct (binary_round_aux_spec false mz ez (-1074) ltac:(lia) ltac:(lia))
    as (m3 & e3 & Hr & Hm3 & He3 & _ & _).
  rewrite Heq, Hr. destruct m3 as [|p|p]; [left; reflexivity | | lia].
  destruct (e3 <=? 971); right; [right | left; reflexivity].
  exists p, e3. split; [reflexivity | lia].
Qed.

(** On an empty list the index is 0 for every finite [k]. *)
Lemma float_index_empty (k : spec_float) :
  float_index k 0
  = match k with
    | S754_zero _ | S754_finite _ _ _ => Some 0
    | _ => None
    end.
Proof. destruct k as [s|s| |s m e]; reflexivity. Qed.

Lemma int_of_round_opp (m : positive) (e : Z) :
  int_of_float (binary_round_aux 53 1024 true (Zpos m) e loc_Exact)
  = option_map Z.opp (int_of_float (binary_round_aux 53 1024 false (Zpos m) e loc_Exact)).
Proof.
  rewrite !binary_round_aux_unfold. cbv zeta.
  destruct (rne _ _ / _) as [|p|p]; [reflexivity | | reflexivity].
  destruct (_ <=? 971); reflexivity.
Qed.

Lemma int_of_round_nonneg (m : positive) (e i : Z) :
  int_of_float (binary_round_aux 53 1024 false (Zpos m) e loc_Exact) = Some i -> 0 <= i.
Proof.
  rewrite binary_round_aux_unfold. cbv zeta.
  destruct (rne _ _ / _) as [|p|p]; cbn [int_of_float]; [intros [= <-]; lia | | discriminate].
  destruct (_ <=? 971); cbn [int_of_float]; [|discriminate].
  intros [= <-].
  match goal with |- context [0 <=? ?x] => destruct (Z.leb_spec 0 x) end.
  - apply Z.mul_nonneg_nonneg; [lia | apply Z.pow_nonneg; lia].
  - apply Z.div_pos; [lia | apply pow2_pos; lia].
Qed.

(** The index of [-k] is the opposite of the index of [k]. *)
Lemma float_index_opp (k : spec_float) (n : nat) :
  float_index (SFopp k) n = option_map Z.opp (float_index k n).
Proof.
  unfold float_index.
  destruct (float_of_int_cases (Z.of_nat n) ltac:(lia)) as [-> | [-> | (mN & eN & -> & _)]];
    destruct k as [s|s| |s m e]; try (destruct s; reflexivity); try reflexivity.
  cbn [SFopp SFmul]. rewrite !Bool.xorb_false_r.
  destruct s; cbn [negb]; rewrite int_of_round_opp;
    destruct (int_of_float _); cbn [option_map]; try reflexivity.
  rewrite Z.opp_involutive. reflexivity.
Qed.

(** A float without sign bit gives an index that is not negative, one
    with the sign bit an index that is not positive. *)
Lemma float_index_sign (k : spec_float) (n : nat) (i : Z) :
  float_index k n = Some i ->
  match k with
  | S754_zero _ => i = 0
  | S754_finite false _ _ => 0 <= i
  | S754_finite true _ _ => i <= 0
  | _ => False
  end.
Proof.
  unfold float_index.
  destruct (float_of_int_cases (Z.of_nat n) ltac:(lia)) as [-> | [-> | (mN & eN & -> & _)]];
    destruct k as [s|s| |s m e]; cbn [SFmul int_of_float];
    try discriminate; try (intros [= <-]; try destruct s; lia).
  rewrite Bool.xorb_false_r. destruct s.
  - rewrite int_of_round_opp.
    destruct (int_of_float _) as [j|] eqn:E; [|discriminate].
    cbn [option_map]. intros [= <-]. apply int_of_round_nonneg in E. lia.
  - apply int_of_round_nonneg.
Qed.

(** Where some [k] gives an index, [0.0] gives index 0. *)
Lemma float_index_zero (k : spec_float) (n : nat) (i : Z) :
  float_index k n = Some i -> float_index (S754_zero false) n = Some 0.
Proof.
  unfold float_index.
  destruct (float_of_int_cases (Z.of_nat n) ltac:(lia)) as [-> | [-> | (mN & eN & -> & _)]];
    [reflexivity | | reflexivity].
  destruct k as [s|s| |s m e]; cbn [SFmul int_of_float]; discriminate.
Qed.

(** The order of two valid positive floats is the order of their values. *)
Lemma finite_leb_value (m1 m2 : positive) (e1 e2 : Z) :
  bounded 53 1024 m1 e1 = true -> bounded 53 1024 m2 e2 = true ->
  (e1 < e2 \/ (e1 = e2 /\ (m1 <= m2)%positive)) ->
  Zpos m1 * 2 ^ (e1 - Z.min e1 e2) <= Zpos m2 * 2 ^ (e2 - Z.min e1 e2).
Proof.
  unfold bounded, canonical_mantissa. rewrite !fexp_eq.
  intros H1 H2 Hle.
  apply andb_prop in H1 as [H1 _]. apply andb_prop in H2 as [H2 _].
  apply Z.eqb_eq in H1, H2.
  pose proof (digits2_pos_bounds m1) as [Hl1 Hu1].
  pose proof (digits2_pos_bounds m2) as [Hl2 Hu2].
  destruct Hle as [Hlt | [-> Hm]].
  - replace (Z.min e1 e2) with e1 by lia. rewrite Z.sub_diag, Z.pow_0_r.
    assert (Hd2 : Zpos (digits2_pos m2) = 53) by lia.
    assert (Hd1 : Zpos (digits2_pos m1) <= 53) by lia.
    rewrite Hd2 in Hl2. change (2 ^ (53 - 1)) with (2 ^ 52) in Hl2.
    assert (Zpos m1 < 2 ^ 53).
    { assert (2 ^ Zpos (digits2_pos m1) <= 2 ^ 53) by (apply Z.pow_le_mono_r; lia). lia. }
    assert (2 ^ 1 <= 2 ^ (e2 - e1)) by (apply Z.pow_le_mono_r; lia).
    change (2 ^ 53) with (2 ^ 52 * 2 ^ 1) in *. nia.
  - replace (Z.min e2 e2) with e2 by lia. rewrite Z.sub_diag, Z.pow_0_r. lia.
Qed.

Lemma SFleb_finite_pos (m1 m2 : positive) (e1 e2 : Z) :
  SFleb (S754_finite false m1 e1) (S754_finite false m2 e2) = true ->
  e1 < e2 \/ (e1 = e2 /\ (m1 <= m2)%positive).
Proof.
  unfold SFleb, SFcompare.
  destruct (Z.compare_spec e1 e2) as [->|H|H]; [|left; exact H | discriminate].
  change (Pos.compare_cont Eq m1 m2) with (Pos.compare m1 m2).
  destruct (Pos.compare_spec m1 m2); try discriminate; intros _; right; split; lia.
Qed.

Lemma SFleb_finite_neg (m1 m2 : positive) (e1 e2 : Z) :
  SFleb (S754_finite true m1 e1) (S754_finite true m2 e2) = true ->
  e2 < e1 \/ (e2 = e1 /\ (m2 <= m1)%positive).
Proof.
  unfold SFleb, SFcompare.
  destruct (Z.compare_spec e1 e2) as [->|H|H]; [|discriminate | left; exact H].
  change (Pos.compare_cont Eq m1 m2) with (Pos.compare m1 m2).
  destruct (Pos.compare_spec m1 m2); cbn [CompOpp]; try discriminate;
    intros _; right; split; lia.
Qed.

(** Rounding and truncating are monotone: a larger exact product gives
    an index at least as large. *)
Lemma round_index_mono (m1 m2 : positive) (e1 e2 i1 i2 : Z) :
  Zpos m1 * 2 ^ (e1 - Z.min e1 e2) <= Zpos m2 * 2 ^ (e2 - Z.min e1 e2) ->
  int_of_float (binary_round_aux 53 1024 false (Zpos m1) e1 loc_Exact) = Some i1 ->
  int_of_float (binary_round_aux 53 1024 false (Zpos m2) e2 loc_Exact) = Some i2 ->
  i1 <= i2.
Proof.
  intros Hle H1 H2.
  set (E0 := Z.min (-1074) (Z.min e1 e2)).
  destruct (round_index false m1 e1 E0 ltac:(lia) ltac:(lia)) as [[N1 _]|S1]; [congruence|].
  destruct (round_index false m2 e2 E0 ltac:(lia) ltac:(lia)) as [[N2 _]|S2]; [congruence|].
  rewrite H1 in S1. rewrite H2 in S2. injection S1 as ->. injection S2 as ->.
  apply Z.div_le_mono; [apply pow2_pos; lia|].
  apply Phi_mono; [lia | apply Z.mul_pos_pos; [lia | apply pow2_pos; lia] |].
  assert (Hs1 : 2 ^ (e1 - E0) = 2 ^ (e1 - Z.min e1 e2) * 2 ^ (Z.min e1 e2 - E0))
    by (rewrite <- pow2_split by lia; f_equal; lia).
  assert (Hs2 : 2 ^ (e2 - E0) = 2 ^ (e2 - Z.min e1 e2) * 2 ^ (Z.min e1 e2 - E0))
    by (rewrite <- pow2_split by lia; f_equal; lia).
  rewrite Hs1, Hs2, !Z.mul_assoc.
  apply Z.mul_le_mono_nonneg_r; [apply Z.lt_le_incl, pow2_pos; lia | exact Hle].
Qed.

Lemma scaled_product_le (m1 m2 mN : positive) (e1 e2 eN : Z) :
  Zpos m1 * 2 ^ (e1 - Z.min e1 e2) <= Zpos m2 * 2 ^ (e2 - Z.min e1 e2) ->
  Zpos (m1 * mN) * 2 ^ (e1 + eN - Z.min (e1 + eN) (e2 + eN))
  <= Zpos (m2 * mN) * 2 ^ (e2 + eN - Z.min (e1 + eN) (e2 + eN)).
Proof.
  intros H. rewrite !Pos2Z.inj_mul.
  replace (e1 + eN - Z.min (e1 + eN) (e2 + eN)) with (e1 - Z.min e1 e2) by lia.
  replace (e2 + eN - Z.min (e1 + eN) (e2 + eN)) with (e2 - Z.min e1 e2) by lia.
  nia.
Qed.

(** The index is monotone in [k]. *)
Lemma float_index_mono (k1 k2 : spec_float) (n : nat) (i1 i2 : Z) :
  valid_binary 53 1024 k1 = true -> valid_binary 53 1024 k2 = true ->
  SFleb k1 k2 = true ->
  float_index k1 n = Some i1 -> float_index k2 n = Some i2 ->
  i1 <= i2.
Proof.
  intros V1 V2 Hle H1 H2.
  pose proof (float_index_sign k1 n i1 H1) as S1.
  pose proof (float_index_sign k2 n i2 H2) as S2.
  destruct k1 as [s1|s1| |s1 m1 e1]; try contradiction;
    destruct k2 as [s2|s2| |s2 m2 e2]; try contradiction.
  - lia.
  - destruct s2; [discriminate | lia].
  - destruct s1; [lia | discriminate].
  - destruct s1, s2; try lia; try discriminate.
    + (* both negative *)
      apply SFleb_finite_neg in Hle.
      pose proof (float_index_opp (S754_finite false m1 e1) n) as O1.
      pose proof (float_index_opp (S754_finite false m2 e2) n) as O2.
      cbn [SFopp negb] in O1, O2. rewrite H1 in O1. rewrite H2 in O2.
      destruct (float_index (S754_finite false m1 e1) n) as [j1|] eqn:J1; [|discriminate].
      destruct (float_index (S754_finite false m2 e2) n) as [j2|] eqn:J2; [|discriminate].
      cbn [option_map] in O1, O2. injection O1 as ->. injection O2 as ->.
      enough (j2 <= j1) by lia.
      unfold float_index in J1, J2.
      destruct (float_of_int_cases (Z.of_nat n) ltac:(lia))
        as [E | [E | (mN & eN & E & _)]]; rewrite E in J1, J2;
        cbn [SFmul int_of_float xorb] in J1, J2; try discriminate;
        [injection J1 as <-; injection J2 as <-; lia|].
      apply (round_index_mono _ _ _ _ _ _
               (scaled_product_le _ _ mN _ _ eN (finite_leb_value _ _ _ _ V2 V1 Hle))
               J2 J1).
    + (* both positive *)
      apply SFleb_finite_pos in Hle.
      unfold float_index in H1, H2.
      destruct (float_of_int_cases (Z.of_nat n) ltac:(lia))
        as [E | [E | (mN & eN & E & _)]]; rewrite E in H1, H2;
        cbn [SFmul int_of_float xorb] in H1, H2; try discriminate;
        [injection H1 as <-; injection H2 as <-; lia|].
      apply (round_index_mono _ _ _ _ _ _
               (scaled_product_le _ _ mN _ _ eN (finite_leb_value _ _ _ _ V1 V2 Hle))
               H1 H2).
Qed.

Lemma trunc_scaled (a e E0 : Z) :
  E0 <= e -> E0 <= 0 ->
  (if 0 <=? e then a * 2 ^ e else a / 2 ^ (- e)) = a * 2 ^ (e - E0) / 2 ^ (- E0).
Proof.
  intros HE HE0. destruct (Z.leb_spec 0 e) as [H|H].
  - assert (Hp : 2 ^ (e - E0) = 2 ^ e * 2 ^ (- E0))
      by (rewrite <- pow2_split by lia; f_equal; lia).
    rewrite Hp, Z.mul_assoc, Z.div_mul by (apply Z.pow_nonzero; lia).
    reflexivity.
  - assert (Hp : 2 ^ (- E0) = 2 ^ (- e) * 2 ^ (e - E0))
      by (rewrite <- pow2_split by lia; f_equal; lia).
    rewrite Hp.
    rewrite Z.div_mul_cancel_r; [reflexivity | | ]; apply Z.pow_nonzero; lia.
Qed.

Lemma digits2_pos_mul (m1 m2 : positive) :
  Zpos (digits2_pos (m1 * m2)) <= Zpos (digits2_pos m1) + Zpos (digits2_pos m2).
Proof.
  pose proof (digits2_pos_bounds m1) as [_ H1].
  pose proof (digits2_pos_bounds m2) as [_ H2].
  pose proof (digits2_pos_bounds (m1 * m2)) as [H3 _].
  set (d1 := Zpos (digits2_pos m1)) in *. set (d2 := Zpos (digits2_pos m2)) in *.
  set (d := Zpos (digits2_pos (m1 * m2))) in *.
  destruct (Z.le_gt_cases d (d1 + d2)) as [H|H]; [exact H|]. exfalso.
  assert (2 ^ (d1 + d2) <= 2 ^ (d - 1)) by (apply Z.pow_le_mono_r; unfold d1, d2; lia).
  rewrite pow2_split in * by (unfold d1, d2; lia).
  rewrite Pos2Z.inj_mul in H3. nia.
Qed.

(** The index of a positive [k = mk * 2^ek] on a list of [n < 2^53]
    entries, from the exact product [mk * n * 2^ek] on the scale
    [2^E0]. *)
Lemma float_index_scaled (mk : positive) (ek E0 : Z) (n : nat) (i : Z) :
  0 < Z.of_nat n < 2 ^ 53 -> E0 <= ek - 52 -> E0 <= -1074 ->
  float_index (S754_finite false mk ek) n = Some i ->
  i = Phi (-1074 - E0) (Zpos mk * Z.of_nat n * 2 ^ (ek - E0)) / 2 ^ (- E0).
Proof.
  intros Hn HE HE0 Hi. unfold float_index in Hi.
  destruct (float_of_int_exact (Z.of_nat n) Hn) as (mN & eN & E & HeN & Hval).
  rewrite E in Hi. cbn [SFmul xorb] in Hi.
  destruct (round_index false (mk * mN) (ek + eN) E0 ltac:(lia) HE0) as [[N _]|S];
    [congruence|].
  rewrite Hi in S. injection S as ->. f_equal. f_equal.
  rewrite Pos2Z.inj_mul, Hval.
  assert (Hp : 2 ^ (ek - E0) = 2 ^ (- eN) * 2 ^ (ek + eN - E0))
    by (rewrite <- pow2_split by lia; f_equal; lia).
  rewrite Hp. ring.
Qed.

Lemma float_index_defined (mk : positive) (ek : Z) (n : nat) :
  0 < Z.of_nat n < 2 ^ 53 -> -1074 <= ek -> Zpos (digits2_pos mk) + ek <= 900 ->
  exists i, float_index (S754_finite false mk ek) n = Some i.
Proof.
  intros Hn Hek Hd. unfold float_index.
  destruct (float_of_int_exact (Z.of_nat n) Hn) as (mN & eN & E & HeN & Hval).
  rewrite E. cbn [SFmul xorb].
  destruct (round_index false (mk * mN) (ek + eN) (-1200) ltac:(lia) ltac:(lia))
    as [[_ Hov]|S]; [exfalso | eexists; exact S].
  rewrite fexp_eq in Hov.
  pose proof (digits2_pos_mul mk mN) as Hmul.
  assert (HdN : Zpos (digits2_pos mN) <= 105).
  { pose proof (digits2_pos_bounds mN) as [Hl _].
    set (dN := Zpos (digits2_pos mN)) in *.
    destruct (Z.le_gt_cases dN 105) as [H|H]; [exact H|]. exfalso.
    assert (2 ^ 105 <= 2 ^ (dN - 1)) by (apply Z.pow_le_mono_r; lia).
    assert (2 ^ (- eN) <= 2 ^ 52) by (apply Z.pow_le_mono_r; lia).
    change (2 ^ 105) with (2 ^ 53 * 2 ^ 52) in *. nia. }
  lia.
Qed.

(** [k = 1.0]: the index is the length. *)
Lemma float_index_one (n : nat) :
  Z.of_nat n < 2 ^ 53 ->
  float_index (S754_finite false 4503599627370496 (-52)) n = Some (Z.of_nat n).
Proof.
  intros Hn. destruct n as [|n]; [reflexivity|].
  assert (Hn' : 0 < Z.of_nat (S n) < 2 ^ 53) by lia.
  destruct (float_index_defined 4503599627370496 (-52) (S n) Hn'
              ltac:(lia) ltac:(vm_compute; discriminate)) as [i Hi].
  rewrite Hi. f_equal.
  rewrite (float_index_scaled 4503599627370496 (-52) (-1074) _ _ Hn'
             ltac:(lia) ltac:(lia) Hi).
  change (-1074 - -1074) with 0. change (- -1074) with 1074.
  change (-52 - -1074) with 1022.
  set (N := Z.of_nat (S n)) in *.
  assert (HV : 4503599627370496 * N * 2 ^ 1022 = N * 2 ^ 1074).
  { change 4503599627370496 with (2 ^ 52).
    replace (2 ^ 1074) with (2 ^ 52 * 2 ^ 1022) by (rewrite <- pow2_split by lia; reflexivity).
    ring. }
  rewrite HV, Phi_exact by lia.
  apply Z.div_mul. apply Z.pow_nonzero; lia.
Qed.

(** [k = 0.05], the double [7205759403792794 * 2^-57]: the index is
    [n // 20] for every list of fewer than [2^52] entries. *)
Lemma float_index_five_percent (n : nat) :
  Z.of_nat n < 2 ^ 52 ->
  float_index (S754_finite false 7205759403792794 (-57)) n = Some (Z.of_nat n / 20).
Proof.
  intros Hn. destruct n as [|n]; [reflexivity|].
  assert (Hn' : 0 < Z.of_nat (S n) < 2 ^ 53)
    by (change (2 ^ 53) with (2 * 2 ^ 52); lia).
  destruct (float_index_defined 7205759403792794 (-57) (S n) Hn'
              ltac:(lia) ltac:(vm_compute; discriminate)) as [i Hi].
  rewrite Hi. f_equal.
  rewrite (float_index_scaled 7205759403792794 (-57) (-1074) _ _ Hn'
             ltac:(lia) ltac:(lia) Hi).
  change (-1074 - -1074) with 0. change (- -1074) with 1074.
  change (-57 - -1074) with 1017.
  set (N := Z.of_nat (S n)) in *.
  set (a := N / 20).
  pose proof (Z.div_mod N 20 ltac:(lia)) as Hdm.
  pose proof (Z.mod_pos_bound N 20 ltac:(lia)) as Hmod. fold a in Hdm.
  assert (Ha : 0 <= a) by (apply Z.div_pos; lia).
  set (B := 2 ^ 1017).
  assert (HB : 0 < B) by (apply pow2_pos; lia).
  assert (H1074 : 2 ^ 1074 = 2 ^ 57 * B)
    by (unfold B; rewrite <- pow2_split by lia; reflexivity).
  assert (H1069 : 2 ^ 1069 = 2 ^ 52 * B)
    by (unfold B; rewrite <- pow2_split by lia; reflexivity).
  set (V := 7205759403792794 * N * B).
  assert (H52 : 2 ^ 52 = 4503599627370496) by reflexivity.
  assert (H57 : 2 ^ 57 = 144115188075855872) by reflexivity.
  assert (Hlow : a * 2 ^ 1074 <= Phi 0 V).
  { destruct (Z.eq_dec a 0) as [->|Hne].
    - rewrite Z.mul_0_l. apply Phi_nonneg; [lia | unfold V; nia].
    - rewrite <- (Phi_exact 0 a 1074) by (change (2 ^ 53) with (2 * 2 ^ 52); lia).
      apply Phi_mono; [lia | apply Z.mul_pos_pos; [lia | apply pow2_pos; lia] |].
      rewrite H1074. unfold V. rewrite Z.mul_assoc.
      apply Z.mul_le_mono_nonneg_r; [lia|]. rewrite H57. lia. }
  assert (Hup : Phi 0 V <= (32 * a + 31) * 2 ^ 1069).
  { rewrite <- (Phi_exact 0 (32 * a + 31) 1069)
      by (change (2 ^ 53) with (2 * 2 ^ 52); lia).
    apply Phi_mono; [lia | unfold V; nia |].
    rewrite H1069. unfold V. rewrite Z.mul_assoc.
    apply Z.mul_le_mono_nonneg_r; [lia|]. rewrite H52. lia. }
  fold B. fold V.
  assert (Hpos : 0 < 2 ^ 1074) by (apply pow2_pos; lia).
  assert (Hlo' : a <= Phi 0 V / 2 ^ 1074)
    by (apply Z.div_le_lower_bound; lia).
  assert (Hup' : Phi 0 V / 2 ^ 1074 < a + 1).
  { apply Z.div_lt_upper_bound; [exact Hpos|].
    rewrite H1074, H57. rewrite H1069, H52 in Hup. nia. }
  lia.
Qed.

(** The index against the exact product: rounding moves it up by at
    most one. *)
Lemma float_index_near_floor (mk : positive) (ek : Z) (n : nat) (i : Z) :
  0 < Z.of_nat n < 2 ^ 53 -> -1074 <= ek ->
  float_index (S754_finite false mk ek) n = Some i ->
  i + 1 < 2 ^ 53 ->
  (if 0 <=? ek then Zpos mk * Z.of_nat n * 2 ^ ek
   else Zpos mk * Z.of_nat n / 2 ^ (- ek)) <= i
  /\ i <= (if 0 <=? ek then Zpos mk * Z.of_nat n * 2 ^ ek
           else Zpos mk * Z.of_nat n / 2 ^ (- ek)) + 1.
Proof.
  intros Hn Hek Hi Hsmall.
  set (E0 := -1200).
  rewrite (trunc_scaled (Zpos mk * Z.of_nat n) ek E0) by (unfold E0; lia).
  pose proof (float_index_scaled mk ek E0 n i Hn ltac:(unfold E0; lia)
                ltac:(unfold E0; lia) Hi) as Hval.
  unfold E0 in *. change (-1074 - -1200) with 126 in Hval.
  change (- -1200) with 1200 in *.
  set (V := Zpos mk * Z.of_nat n * 2 ^ (ek - -1200)) in *.
  set (S := 2 ^ 1200) in *.
  assert (HS : 0 < S) by (apply pow2_pos; lia).
  assert (HV : 0 < V) by (unfold V; apply Z.mul_pos_pos; [lia | apply pow2_pos; lia]).
  set (a := V / S).
  pose proof (Z.div_mod V S ltac:(lia)) as Hdm. fold a in Hdm.
  pose proof (Z.mod_pos_bound V S HS) as Hmod.
  assert (Ha : 0 <= a) by (apply Z.div_pos; lia).
  assert (Hexact : forall w, 0 < w < 2 ^ 53 -> Phi 126 (w * S) = w * S)
    by (intros w Hw; apply Phi_exact; lia).
  assert (Halt : a < 2 ^ 53 - 1).
  { destruct (Z.lt_ge_cases a (2 ^ 53 - 1)) as [H|H]; [exact H|]. exfalso.
    assert (Hm : Phi 126 ((2 ^ 53 - 1) * S) <= Phi 126 V)
      by (apply Phi_mono; [lia | nia | nia]).
    rewrite Hexact in Hm by lia.
    assert (2 ^ 53 - 1 <= i) by (rewrite Hval; apply Z.div_le_lower_bound; lia).
    lia. }
  split.
  - destruct (Z.eq_dec a 0) as [E|NE].
    + rewrite E, Hval. apply Z.div_pos; [apply Phi_nonneg; lia | lia].
    + assert (Hm : Phi 126 (a * S) <= Phi 126 V)
        by (apply Phi_mono; [lia | nia | nia]).
      rewrite Hexact in Hm by lia.
      rewrite Hval. apply Z.div_le_lower_bound; lia.
  - assert (Hm : Phi 126 V <= Phi 126 ((a + 1) * S))
      by (apply Phi_mono; [lia | lia | nia]).
    rewrite Hexact in Hm by lia.
    rewrite Hval.
    assert (Phi 126 V / S <= (a + 1) * S / S) by (apply Z.div_le_mono; lia).
    rewrite Z.div_mul in H by lia. exact H.
Qed.

End Binary64.

(** ** Precision at k *)

Section PrecisionAtK.
Import Metrics.

Lemma Qle_bool_total (a b : Q) : Qle_bool a b = true \/ Qle_bool b a = true.
Proof.
  destruct (Qlt_le_dec a b) as [H|H].
  - left. apply Qle_bool_iff, Qlt_le_weak, H.
  - right. apply Qle_bool_iff, H.
Qed.

Lemma Qle_bool_trans (a b c : Q) :
  Qle_bool a b = true -> Qle_bool b c = true -> Qle_bool a c = true.
Proof.
  rewrite !Qle_bool_iff. apply Qle_trans.
Qed.

Lemma Qle_bool_refl (a : Q) : Qle_bool a a = true.
Proof. apply Qle_bool_iff, Qle_refl. Qed.

(** [np.sort(a)[::-1]] holds the entries of [a] ... *)
Lemma sorted_desc_perm (a : list Q) : Permutation (reversed (np_sort a)) a.
Proof.
  unfold reversed, np_sort.
  eapply Permutation_trans; [apply Permutation_sym, Permutation_rev|].
  apply sort_by_perm.
Qed.

(** ... in descending order. *)
Lemma sorted_desc_sorted (a : list Q) :
  StronglySorted (fun x y => (y <= x)%Q) (reversed (np_sort a)).
Proof.
  unfold reversed, np_sort.
  apply (StronglySorted_rev (fun x y => (x <= y)%Q)).
  eapply StronglySorted_ind with (P := StronglySorted (fun x y => (x <= y)%Q));
    [constructor | | apply (sort_by_sorted Qle_bool Qle_bool_total Qle_bool_trans)].
  intros x l _ IH Hx. constructor; [exact IH|].
  eapply List.Forall_impl; [|exact Hx].
  intros y Hy. apply Qle_bool_iff, Hy.
Qed.

Lemma sorted_desc_length (a : list Q) :
  length (reversed (np_sort a)) = length a.
Proof. apply Permutation_length, sorted_desc_perm. Qed.

Lemma py_getitem_in_range {A : Type} (l : list A) (i : Z) :
  0 <= i -> py_getitem l i = nth_error l (Z.to_nat i).
Proof.
  intros Hi. unfold py_getitem.
  destruct (Z.leb_spec 0 i); [reflexivity | lia].
Qed.

Lemma py_getitem_out_of_range {A : Type} (l : list A) (i : Z) :
  py_len l <= i -> py_getitem l i = None.
Proof.
  intros Hi. unfold py_getitem, py_len in *.
  destruct (Z.leb_spec 0 i); [|lia].
  apply nth_error_None. lia.
Qed.

(** On a non-negative number [int] is the floor. *)
Lemma py_int_floor (x : Q) : 0 <= Qfloor x -> py_int x = Qfloor x.
Proof.
  destruct x as [n d]. unfold py_int, Qfloor. simpl. intros H.
  apply Z.quot_div_nonneg; [|lia].
  destruct (Z.le_gt_cases 0 n) as [Hn|Hn]; [exact Hn|].
  exfalso.
  assert (n / Z.pos d < 0) by (apply Z.div_lt_upper_bound; lia).
  lia.
Qed.

Lemma y_pred_of_length (threshold : Q) (y_scores : list Q) :
  length (y_pred_of threshold y_scores) = length y_scores.
Proof. apply List.length_map. Qed.

Lemma y_pred_of_nth (threshold : Q) (y_scores : list Q) (i : nat) (s : Q) :
  nth_error y_scores i = Some s ->
  nth_error (y_pred_of threshold y_scores) i
  = Some (if Qle_bool threshold s then 1 else 0).
Proof.
  intros H. unfold y_pred_of. rewrite nth_error_map, H. reflexivity.
Qed.

Lemma positives_y_pred_of (threshold : Q) (y_scores : list Q) :
  positives (y_pred_of threshold y_scores)
  = py_len (List.filter (Qle_bool threshold) y_scores).
Proof.
  unfold positives, py_len, y_pred_of. f_equal.
  induction y_scores as [|s l IH]; simpl; [reflexivity|].
  destruct (Qle_bool threshold s); simpl; congruence.
Qed.

(** The entries at ranks [0..i] of the descending order are all at least
    the entry at rank [i]; so at least [i + 1] scores reach it. *)
Lemma positives_at_rank (y_scores : list Q) (i : nat) (threshold : Q) :
  nth_error (reversed (np_sort y_scores)) i = Some threshold ->
  Z.of_nat i + 1 <= positives (y_pred_of threshold y_scores).
Proof.
  intros Hi. rewrite positives_y_pred_of. unfold py_len.
  rewrite (filter_length_perm _ _ _ (Permutation_sym (sorted_desc_perm y_scores))).
  set (d := reversed (np_sort y_scores)) in *.
  assert (Hlen : (i < length d)%nat) by (apply nth_error_Some; congruence).
  pose proof (filter_length_firstn (Qle_bool threshold) (S i) d) as Hle.
  rewrite filter_all in Hle.
  - rewrite List.length_firstn in Hle. lia.
  - intros x Hx. apply In_nth_error in Hx as [j Hj].
    assert (Hj' : (j < S i)%nat).
    { assert (Hlt : (j < length (firstn (S i) d))%nat)
        by (apply nth_error_Some; congruence).
      rewrite List.length_firstn in Hlt. lia. }
    rewrite nth_error_firstn in Hj.
    destruct (Nat.ltb_spec j (S i)); [|lia].
    destruct (Nat.eq_dec j i) as [->|Hne].
    + rewrite Hi in Hj. injection Hj as <-. apply Qle_bool_refl.
    + apply Qle_bool_iff.
      apply (StronglySorted_nth_error _ d (sorted_desc_sorted y_scores) j i x threshold);
        [lia | exact Hj | exact Hi].
Qed.

Lemma y_pred_of_binary (threshold : Q) (y_scores : list Q) :
  Forall binary (y_pred_of threshold y_scores).
Proof.
  unfold y_pred_of. apply List.Forall_forall. intros t Ht.
  apply in_map_iff in Ht as [s [<- _]].
  destruct (Qle_bool threshold s); [right | left]; reflexivity.
Qed.

(** On binary vectors of equal length [precision_score] returns
    [tp / (tp + fp)]. *)
Lemma precision_score_binary (y_true y_pred : list Z) :
  length y_true = length y_pred ->
  Forall binary y_true -> Forall binary y_pred ->
  precision_score y_true y_pred
  = let tp := count_pairs (fun t p => (p =? 1) && (t =? 1)) y_true y_pred in
    let fp := count_pairs (fun t p => (p =? 1) && negb (t =? 1)) y_true y_pred in
    Some (if tp + fp =? 0 then 0%Q else Qred (tp # Z.to_pos (tp + fp))).
Proof.
  intros Hlen Ht Hp. unfold precision_score.
  rewrite Hlen, Nat.eqb_refl. simpl negb. cbv iota.
  set (present := unique_labels (y_true ++ y_pred)).
  assert (Hnd : List.NoDup present) by apply List.NoDup_nodup.
  assert (Hin : forall t, In t present -> binary t).
  { intros t Hin. apply nodup_In in Hin.
    apply in_app_or in Hin as [Hin|Hin];
      [rewrite List.Forall_forall in Ht | rewrite List.Forall_forall in Hp]; auto. }
  assert (Hle : (length present <= 2)%nat).
  { apply (List.NoDup_incl_length (l' := [0; 1])); [exact Hnd|].
    intros t Hin'. destruct (Hin t Hin') as [->| ->]; simpl; auto. }
  destruct (Nat.ltb_spec 2 (length present)); [lia|].
  destruct (Nat.eqb_spec (length present) 2) as [H2|H2]; [|reflexivity].
  destruct (existsb (Z.eqb 1) present) eqn:Hex; [reflexivity|].
  exfalso.
  assert (Hle1 : (length present <= 1)%nat).
  { apply (List.NoDup_incl_length (l' := [0])); [exact Hnd|].
    intros t Hin'. destruct (Hin t Hin') as [->| ->]; [simpl; auto|].
    assert (existsb (Z.eqb 1) present = true)
      by (apply existsb_exists; exists 1; split; [exact Hin' | reflexivity]).
    congruence. }
  lia.
Qed.

(** The exact product [k * n] against the floor the code would take of
    it without rounding. *)
Lemma float_value_floor (m : positive) (e n : Z) :
  Qfloor (float_value (S754_finite false m e) * inject_Z n)
  = if 0 <=? e then Zpos m * n * 2 ^ e else Zpos m * n / 2 ^ (- e).
Proof.
  unfold float_value. cbv zeta. destruct (Z.leb_spec 0 e) as [H|H].
  - rewrite <- inject_Z_mult, Qfloor_Z. ring.
  - unfold Qmult, Qfloor, inject_Z. cbn [Qnum Qden].
    rewrite Pos.mul_1_r, Z2Pos.id by (apply Z.pow_pos_nonneg; lia). reflexivity.
Qed.

Lemma valid_exponent (s : bool) (m : positive) (e : Z) :
  valid_binary 53 1024 (S754_finite s m e) = true -> -1074 <= e.
Proof.
  cbn [valid_binary]. unfold bounded, canonical_mantissa. rewrite fexp_eq.
  intros H. apply andb_prop in H as [H _]. apply Z.eqb_eq in H. lia.
Qed.

(** The index the code takes is the floor of the exact product, or one
    more when the rounding of the product reaches the next integer. *)
Lemma float_index_floor (k : spec_float) (n : nat) (idx : Z) :
  valid_binary 53 1024 k = true ->
  0 < Z.of_nat n < 2 ^ 53 ->
  float_index k n = Some idx ->
  0 <= idx -> idx + 1 < 2 ^ 53 ->
  Qfloor (float_value k * inject_Z (Z.of_nat n)) <= idx
  <= Qfloor (float_value k * inject_Z (Z.of_nat n)) + 1.
Proof.
  intros Hv Hn Hi H0 Hsmall.
  pose proof (float_index_sign k n idx Hi) as Hs.
  destruct k as [s|s| |s m e]; try contradiction.
  - subst idx. cbn [float_value].
    assert (E : Qfloor (0 * inject_Z (Z.of_nat n)) = 0)
      by (unfold Qfloor, Qmult, inject_Z; cbn [Qnum Qden]; reflexivity).
    rewrite E. lia.
  - pose proof (valid_exponent s m e Hv) as He.
    destruct s.
    + (* a negative [k] with an index that is not negative: index 0 *)
      assert (idx = 0) by lia. subst idx.
      pose proof (float_index_opp (S754_finite false m e) n) as Ho.
      cbn [SFopp negb] in Ho. rewrite Hi in Ho.
      destruct (float_index (S754_finite false m e) n) as [j|] eqn:Hj; [|discriminate].
      cbn [option_map] in Ho. assert (j = 0) by (injection Ho; lia). subst j.
      destruct (float_index_near_floor m e n 0 Hn He Hj ltac:(reflexivity)) as [Hlo Hhi].
      rewrite <- (float_value_floor m e (Z.of_nat n)) in Hlo, Hhi.
      set (v := (float_value (S754_finite false m e) * inject_Z (Z.of_nat n))%Q) in *.
      assert (Hvn : (0 <= v)%Q).
      { unfold v, float_value. cbv zeta.
        apply Qmult_le_0_compat; [|rewrite <- (Zle_Qle 0); lia].
        destruct (0 <=? e); [rewrite <- (Zle_Qle 0) | unfold Qle; cbn [Qnum Qden]; lia].
        apply Z.mul_nonneg_nonneg; [lia | apply Z.pow_nonneg; lia]. }
      assert (Hf0 : Qfloor v = 0).
      { assert (0 <= Qfloor v) by (rewrite <- (Qfloor_Z 0); apply Qfloor_resp_le, Hvn).
        lia. }
      assert (Hv1 : (v < 1)%Q).
      { pose proof (Qlt_floor v) as Hlt. rewrite Hf0 in Hlt. exact Hlt. }
      assert (Heq : (float_value (S754_finite true m e) * inject_Z (Z.of_nat n)
                     == - v)%Q).
      { unfold v, float_value. cbv zeta. ring. }
      rewrite (Qfloor_comp _ _ Heq).
      assert (Hup : Qfloor (- v) <= 0).
      { rewrite <- (Qfloor_Z 0). apply Qfloor_resp_le.
        apply (Qle_trans _ (Qopp 0)); [apply Qopp_le_compat, Hvn|].
        unfold Qle. simpl. lia. }
      assert (Hdown : -1 <= Qfloor (- v)).
      { rewrite <- (Qfloor_Z (-1)). apply Qfloor_resp_le.
        apply (Qle_trans _ (Qopp 1)); [unfold Qle; simpl; lia|].
        apply Qopp_le_compat, Qlt_le_weak, Hv1. }
      lia.
    + destruct (float_index_near_floor m e n idx Hn He Hi Hsmall) as [Hlo Hhi].
      rewrite <- (float_value_floor m e (Z.of_nat n)) in Hlo, Hhi. lia.
Qed.

(** C1.  For a non-empty score list of length [n] and a double [k]
    whose index [int(k*n)], computed in binary64, lies in [[0, n)],
    [precision_at_k] takes as threshold the entry at that rank (counted
    from 0) of the scores in descending order; its prediction vector has
    a 1 exactly at the entries whose score is at least the threshold, so
    every entry tied with the threshold is predicted positive and more
    entries than the index are; the result is [precision_score] of
    [y_true] against that vector, which is a value whenever [y_true] is a
    binary vector of length [n].  The index is [floor(k*n)] of the exact
    product or, when the rounding of the product reaches the next
    integer, [floor(k*n) + 1]; either way more than [k*n] entries are
    predicted positive. *)
Theorem precision_at_k_threshold_rule
        (y_true : list Z) (y_scores : list Q) (k : spec_float) (idx : Z) :
  y_scores <> [] ->
  float_index k (length y_scores) = Some idx ->
  0 <= idx < py_len y_scores ->
  exists threshold : Q,
    let rank := Z.to_nat idx in
    let descending := reversed (np_sort y_scores) in
    let y_pred := y_pred_of threshold y_scores in
    Permutation descending y_scores
    /\ StronglySorted (fun a b => (b <= a)%Q) descending
    /\ nth_error descending rank = Some threshold
    /\ length y_pred = length y_scores
    /\ (forall i s, nth_error y_scores i = Some s ->
          (nth_error y_pred i = Some 1 <-> (threshold <= s)%Q)
          /\ (nth_error y_pred i = Some 0 <-> ~ (threshold <= s)%Q))
    /\ (forall i s, nth_error y_scores i = Some s -> (s == threshold)%Q ->
          nth_error y_pred i = Some 1)
    /\ idx < positives y_pred
    /\ precision_at_k y_true y_scores k = precision_score y_true y_pred
    /\ (length y_true = length y_scores -> Forall binary y_true ->
          exists p, precision_at_k y_true y_scores k = Some p)
    /\ (valid_binary 53 1024 k = true -> py_len y_scores < 2 ^ 53 ->
        Qfloor (float_value k * inject_Z (py_len y_scores)) <= idx
        <= Qfloor (float_value k * inject_Z (py_len y_scores)) + 1
        /\ (float_value k * inject_Z (py_len y_scores)
            < inject_Z (positives y_pred))%Q).
Proof.
  intros Hne Hidx [H0 Hn].
  assert (Hlt : (Z.to_nat idx < length (reversed (np_sort y_scores)))%nat).
  { rewrite sorted_desc_length. unfold py_len in Hn. lia. }
  destruct (nth_error (reversed (np_sort y_scores)) (Z.to_nat idx))
    as [threshold|] eqn:Hth; [|apply nth_error_None in Hth; lia].
  assert (Hrun : precision_at_k y_true y_scores k
                 = precision_score y_true (y_pred_of threshold y_scores)).
  { unfold precision_at_k. rewrite Hidx, py_getitem_in_range by exact H0.
    rewrite Hth. reflexivity. }
  pose proof (positives_at_rank y_scores _ threshold Hth) as Hpos.
  rewrite Z2Nat.id in Hpos by exact H0.
  exists threshold. cbv zeta.
  split; [apply sorted_desc_perm|].
  split; [apply sorted_desc_sorted|].
  split; [exact Hth|].
  split; [apply y_pred_of_length|].
  split.
  { intros i s Hi. rewrite (y_pred_of_nth threshold _ _ _ Hi).
    rewrite <- Qle_bool_iff.
    destruct (Qle_bool threshold s); split; split; intros H;
      try reflexivity; try discriminate; congruence. }
  split.
  { intros i s Hi Heq. rewrite (y_pred_of_nth threshold _ _ _ Hi).
    assert (Hle : Qle_bool threshold s = true)
      by (apply Qle_bool_iff; rewrite Heq; apply Qle_refl).
    rewrite Hle. reflexivity. }
  split; [lia|].
  split; [exact Hrun|].
  split.
  { intros Hlen Hbin. rewrite Hrun.
    rewrite precision_score_binary;
      [eexists; reflexivity | rewrite y_pred_of_length; exact Hlen
       | exact Hbin | apply y_pred_of_binary]. }
  intros Hv Hsmall.
  assert (Hfloor : Qfloor (float_value k * inject_Z (py_len y_scores)) <= idx
                   <= Qfloor (float_value k * inject_Z (py_len y_scores)) + 1).
  { unfold py_len in *. apply float_index_floor; try assumption; lia. }
  split; [exact Hfloor|].
  eapply Qlt_le_trans; [apply Qlt_floor|].
  rewrite <- Zle_Qle. lia.
Qed.

Lemma precision_at_k_threshold_rule_witness :
  example_y_scores <> []
  /\ float_index double_0_3 (length example_y_scores) = Some 3
  /\ 0 <= 3 < py_len example_y_scores
  /\ exists threshold : Q,
    let rank := Z.to_nat 3 in
    let descending := reversed (np_sort example_y_scores) in
    let y_pred := y_pred_of threshold example_y_scores in
    Permutation descending example_y_scores
    /\ StronglySorted (fun a b => (b <= a)%Q) descending
    /\ nth_error descending rank = Some threshold
    /\ length y_pred = length example_y_scores
    /\ (forall i s, nth_error example_y_scores i = Some s ->
          (nth_error y_pred i = Some 1 <-> (threshold <= s)%Q)
          /\ (nth_error y_pred i = Some 0 <-> ~ (threshold <= s)%Q))
    /\ (forall i s, nth_error example_y_scores i = Some s -> (s == threshold)%Q ->
          nth_error y_pred i = Some 1)
    /\ 3 < positives y_pred
    /\ precision_at_k example_y_true example_y_scores double_0_3
       = precision_score example_y_true y_pred
    /\ (length example_y_true = length example_y_scores ->
        Forall binary example_y_true ->
        exists p, precision_at_k example_y_true example_y_scores double_0_3 = Some p)
    /\ (valid_binary 53 1024 double_0_3 = true ->
        py_len example_y_scores < 2 ^ 53 ->
        Qfloor (float_value double_0_3 * inject_Z (py_len example_y_scores)) <= 3
        <= Qfloor (float_value double_0_3 * inject_Z (py_len example_y_scores)) + 1
        /\ (float_value double_0_3 * inject_Z (py_len example_y_scores)
            < inject_Z (positives y_pred))%Q).
Proof.
  assert (H1 : example_y_scores <> []) by discriminate.
  assert (H2 : float_index double_0_3 (length example_y_scores) = Some 3)
    by (vm_compute; reflexivity).
  assert (H3 : 0 <= 3 < py_len example_y_scores)
    by (vm_compute; split; [discriminate | reflexivity]).
  split; [exact H1|]. split; [exact H2|]. split; [exact H3|].
  exact (precision_at_k_threshold_rule example_y_true example_y_scores double_0_3 3
           H1 H2 H3).
Defined.

(** C1, the claim as written.  The rank is not [floor(k*n)].  For the
    double 0.3 and the ten rows of the worked example the exact product
    is just below 3, its floor is 2, and the code indexes at 3: the
    threshold is 0.6 and the result 1/2, where rank 2 gives 0.7 and
    2/3.  For the literal 0.29 and a hundred rows [floor(0.29 * 100)] is
    29 and the code indexes at 28: the threshold is 0.72 and the result
    1, where rank 29 gives 0.71 and 29/30. *)
Theorem precision_at_k_rank_counterexample :
  Qfloor (float_value double_0_3 * inject_Z (py_len example_y_scores)) = 2
  /\ float_index double_0_3 (length example_y_scores) = Some 3
  /\ nth_error (reversed (np_sort example_y_scores)) 2 = Some (7#10)%Q
  /\ nth_error (reversed (np_sort example_y_scores)) 3 = Some (6#10)%Q
  /\ precision_score example_y_true (y_pred_of (7#10) example_y_scores) = Some (2#3)%Q
  /\ precision_at_k example_y_true example_y_scores double_0_3 = Some (1#2)%Q
  /\ Qfloor ((29#100) * inject_Z (py_len hundred_y_scores)) = 29
  /\ Qfloor (float_value double_0_29 * inject_Z (py_len hundred_y_scores)) = 28
  /\ float_index double_0_29 (length hundred_y_scores) = Some 28
  /\ nth_error (reversed (np_sort hundred_y_scores)) 29 = Some (71#100)%Q
  /\ nth_error (reversed (np_sort hundred_y_scores)) 28 = Some (72#100)%Q
  /\ precision_score hundred_y_true (y_pred_of (71#100) hundred_y_scores)
     = Some (29#30)%Q
  /\ precision_at_k hundred_y_true hundred_y_scores double_0_29 = Some 1%Q.
Proof.
  repeat split; vm_compute; reflexivity.
Qed.

(** C2.  On the worked example with [k = 0.3] the index is 3 (in
    binary64 arithmetic, as for the decimal product), the threshold is
    the fourth largest score 0.6, four entries are predicted positive
    (those scored .9, .8, .7 and .6, with true labels 1, 0, 1, 0) and the
    result is 1/2, not the 2/3 that the three highest scores alone give.
    By the measure of [plot_precision_recall_n] the threshold 0.6 stands
    for 40% of the population; 30% is the threshold 0.7, where the
    precision is 2/3. *)
Theorem precision_at_k_example_selects_four :
  float_index double_0_3 (length example_y_scores) = Some 3
  /\ py_int ((3#10) * inject_Z (py_len example_y_scores)) = 3
  /\ py_getitem (reversed (np_sort example_y_scores)) 3 = Some (6#10)%Q
  /\ y_pred_of (6#10) example_y_scores = [1; 1; 1; 1; 0; 0; 0; 0; 0; 0]
  /\ positives (y_pred_of (6#10) example_y_scores) = 4
  /\ precision_at_k example_y_true example_y_scores double_0_3 = Some (1#2)%Q
  /\ precision_at_k example_y_true example_y_scores double_0_3 <> Some (2#3)%Q
  /\ precision_score example_y_true [1; 1; 1; 0; 0; 0; 0; 0; 0; 0] = Some (2#3)%Q
  /\ pct_above_thresh example_y_scores (6#10) = Some (2#5)%Q
  /\ pct_above_thresh example_y_scores (7#10) = Some (3#10)%Q
  /\ precision_score example_y_true (y_pred_of (7#10) example_y_scores) = Some (2#3)%Q.
Proof.
  repeat split; try (vm_compute; reflexivity).
  vm_compute. discriminate.
Qed.

(** C10.  When [int(k*len(y_scores))] is not below [len(y_scores)] -- in
    particular for [k = 1.0] and every larger [k] (on a list of fewer
    than [2^53] entries, as every list is), and for every [k] on an empty
    list -- the indexing is out of bounds and [precision_at_k] returns no
    value.  Neither does it when [int] itself raises, on an infinite
    product or a NaN. *)
Theorem precision_at_k_index_error (y_true : list Z) (y_scores : list Q)
        (k : spec_float) :
  (forall idx, float_index k (length y_scores) = Some idx -> py_len y_scores <= idx)
  \/ (valid_binary 53 1024 k = true /\ SFleb double_1 k = true
      /\ py_len y_scores < 2 ^ 53)
  \/ y_scores = [] ->
  precision_at_k y_true y_scores k = None.
Proof.
  intros H.
  assert (Hge : forall idx, float_index k (length y_scores) = Some idx ->
                            py_len y_scores <= idx).
  { destruct H as [H|[[Hv [Hle Hn]]| ->]]; [exact H| |].
    - intros idx Hidx.
      apply (float_index_mono double_1 k (length y_scores) _ idx
               ltac:(reflexivity) Hv Hle);
        [apply float_index_one; exact Hn | exact Hidx].
    - intros idx. cbn [length]. rewrite float_index_empty.
      destruct k; try discriminate; intros [= <-]; unfold py_len; simpl; lia. }
  unfold precision_at_k.
  destruct (float_index k (length y_scores)) as [idx|] eqn:Hidx; [|reflexivity].
  rewrite py_getitem_out_of_range; [reflexivity|].
  unfold py_len in *. rewrite sorted_desc_length. apply Hge. reflexivity.
Qed.

Lemma precision_at_k_index_error_witness :
  ((forall idx, float_index double_1 (length example_y_scores) = Some idx ->
                py_len example_y_scores <= idx)
   \/ (valid_binary 53 1024 double_1 = true /\ SFleb double_1 double_1 = true
       /\ py_len example_y_scores < 2 ^ 53)
   \/ example_y_scores = [])
  /\ precision_at_k example_y_true example_y_scores double_1 = None.
Proof.
  assert (H : (forall idx, float_index double_1 (length example_y_scores) = Some idx ->
                           py_len example_y_scores <= idx)
              \/ (valid_binary 53 1024 double_1 = true /\ SFleb double_1 double_1 = true
                  /\ py_len example_y_scores < 2 ^ 53)
              \/ example_y_scores = [])
    by (right; left; repeat split; vm_compute; reflexivity).
  split; [exact H|].
  exact (precision_at_k_index_error example_y_true example_y_scores double_1 H).
Defined.

End PrecisionAtK.

(** ** Left joins *)

Section LeftJoinFacts.
Context {A B : Type} (on : A -> B -> bool).

Lemma left_join_In (l : list A) (r : list B) (a : A) (ob : option B) :
  In (a, ob) (left_join on l r) <->
  In a l /\ match ob with
            | None => List.filter (on a) r = []
            | Some b => In b r /\ on a b = true
            end.
Proof.
  unfold left_join. rewrite in_flat_map. split.
  - intros [a' [Ha' Hin]].
    destruct (List.filter (on a') r) as [|b0 bs] eqn:Hf.
    + destruct Hin as [Heq|[]]. injection Heq as <- <-. split; assumption.
    + apply in_map_iff in Hin as [b [Heq Hb]]. injection Heq as <- <-.
      split; [exact Ha'|].
      rewrite <- Hf in Hb. apply filter_In in Hb. exact Hb.
  - intros [Ha Hob]. exists a. split; [exact Ha|].
    destruct ob as [b|].
    + assert (Hb : In b (List.filter (on a) r)) by (apply filter_In; exact Hob).
      destruct (List.filter (on a) r) as [|b0 bs]; [destruct Hb|].
      apply in_map_iff. exists b. split; [reflexivity | exact Hb].
    + rewrite Hob. left. reflexivity.
Qed.

(** When no left row matches more than one right row, the join has
    exactly the left rows, in order. *)
Lemma left_join_fst (l : list A) (r : list B) :
  (forall a, In a l -> (length (List.filter (on a) r) <= 1)%nat) ->
  map fst (left_join on l r) = l.
Proof.
  unfold left_join. induction l as [|a l IH]; intros H.
  - reflexivity.
  - cbn [flat_map]. rewrite List.map_app.
    change (a :: l) with ([a] ++ l). f_equal.
    + pose proof (H a (or_introl eq_refl)) as Ha.
      destruct (List.filter (on a) r) as [|b [|b' bs]]; simpl in *;
        [reflexivity | reflexivity | lia].
    + apply IH. intros a' Ha'. apply H. right. exact Ha'.
Qed.

Lemma left_join_length_ge (l : list A) (r : list B) :
  (length l <= length (left_join on l r))%nat.
Proof.
  unfold left_join. induction l as [|a l IH]; [simpl; lia|].
  cbn [flat_map]. rewrite List.length_app.
  set (rest := flat_map _ l) in *.
  destruct (List.filter (on a) r) as [|b bs]; simpl; lia.
Qed.
End LeftJoinFacts.

(** ** Dates *)

Section CalendarFacts.
Import Calendar.

Lemma date_ltb_spec (a b : date) :
  date_ltb a b = true <->
  year a < year b
  \/ (year a = year b /\ (month a < month b \/ (month a = month b /\ day a < day b))).
Proof.
  unfold date_ltb.
  rewrite !Bool.orb_true_iff, !Bool.andb_true_iff, !Bool.orb_true_iff,
    !Bool.andb_true_iff, !Z.ltb_lt, !Z.eqb_eq.
  tauto.
Qed.

Lemma date_eqb_spec (a b : date) : date_eqb a b = true <-> a = b.
Proof.
  unfold date_eqb. rewrite !Bool.andb_true_iff, !Z.eqb_eq.
  destruct a, b; simpl. split.
  - intros [[-> ->] ->]. reflexivity.
  - intros H. injection H as -> -> ->. auto.
Qed.

Lemma date_leb_spec (a b : date) :
  date_leb a b = true <-> date_ltb a b = true \/ a = b.
Proof.
  unfold date_leb. rewrite Bool.orb_true_iff, date_eqb_spec. tauto.
Qed.

Lemma date_leb_refl (a : date) : date_leb a a = true.
Proof. apply date_leb_spec. right. reflexivity. Qed.

Lemma date_ltb_irrefl (a : date) : date_ltb a a = false.
Proof.
  destruct (date_ltb a a) eqn:H; [|reflexivity].
  apply date_ltb_spec in H. lia.
Qed.

Lemma date_ltb_trans (a b c : date) :
  date_ltb a b = true -> date_ltb b c = true -> date_ltb a c = true.
Proof. rewrite !date_ltb_spec. lia. Qed.

Lemma date_leb_trans (a b c : date) :
  date_leb a b = true -> date_leb b c = true -> date_leb a c = true.
Proof.
  rewrite !date_leb_spec.
  intros [H1| ->] [H2| ->]; auto.
  left. eapply date_ltb_trans; eassumption.
Qed.

Lemma date_leb_total (a b : date) : date_leb a b = true \/ date_leb b a = true.
Proof.
  rewrite !date_leb_spec, !date_ltb_spec.
  destruct a as [ya ma da], b as [yb mb db]; simpl.
  destruct (Z.lt_trichotomy ya yb) as [?|[?|?]]; [lia| |lia].
  destruct (Z.lt_trichotomy ma mb) as [?|[?|?]]; [lia| |lia].
  destruct (Z.lt_trichotomy da db) as [?|[?|?]]; [lia| |lia].
  subst. left. right. reflexivity.
Qed.

(** A date is below another exactly when the other is not at or below it. *)
Lemma date_ltb_not_leb (a b : date) : date_ltb a b = negb (date_leb b a).
Proof.
  destruct (date_ltb a b) eqn:Hlt, (date_leb b a) eqn:Hle; try reflexivity; exfalso.
  - apply date_ltb_spec in Hlt. apply date_leb_spec in Hle.
    destruct Hle as [Hle| ->]; [apply date_ltb_spec in Hle|]; lia.
  - destruct (date_leb_total a b) as [H|H]; [|congruence].
    apply date_leb_spec in H as [H| ->]; [congruence|].
    rewrite date_leb_refl in Hle. discriminate.
Qed.
End CalendarFacts.

(** ** The outcome table: [DISTINCT ON (recptno) .. ORDER BY recptno, start_date] *)

Section DistinctFacts.
Import Calendar Labels.

Lemma order_leb_spec (a b : spell) :
  order_leb a b = true <->
  recptno a < recptno b
  \/ (recptno a = recptno b /\ date_leb (start_date a) (start_date b) = true).
Proof.
  unfold order_leb.
  rewrite Bool.orb_true_iff, Bool.andb_true_iff, Z.ltb_lt, Z.eqb_eq. tauto.
Qed.

Lemma order_leb_total (a b : spell) : order_leb a b = true \/ order_leb b a = true.
Proof.
  rewrite !order_leb_spec.
  destruct (Z.lt_trichotomy (recptno a) (recptno b)) as [?|[?|?]]; [lia| |lia].
  destruct (date_leb_total (start_date a) (start_date b)); [left | right]; right; auto.
Qed.

Lemma order_leb_trans (a b c : spell) :
  order_leb a b = true -> order_leb b c = true -> order_leb a c = true.
Proof.
  rewrite !order_leb_spec.
  intros [H1|[H1 D1]] [H2|[H2 D2]]; try (left; lia).
  right. split; [lia|]. eapply date_leb_trans; eassumption.
Qed.

Lemma order_leb_recptno (a b : spell) : order_leb a b = true -> recptno a <= recptno b.
Proof. rewrite order_leb_spec. lia. Qed.

Lemma sort_by_order_leb_ordered (l : list spell) : ordered (sort_by order_leb l).
Proof. apply sort_by_sorted; [apply order_leb_total | apply order_leb_trans]. Qed.

Lemma ordered_inv (x : spell) (l : list spell) :
  ordered (x :: l) -> ordered l /\ forall y, In y l -> order_leb x y = true.
Proof.
  intros H. inversion H as [|? ? Hl Hx]; subst. split; [exact Hl|].
  apply List.Forall_forall. exact Hx.
Qed.

(** Every row kept after [prev] lies in the input and is beyond [prev]. *)
Lemma distinct_from_In (l : list spell) :
  forall prev z, In z (distinct_from prev l) -> In z l.
Proof.
  induction l as [|x l IH]; intros prev z Hz; simpl in *; [exact Hz|].
  destruct (recptno x =? prev).
  - right. eapply IH, Hz.
  - destruct Hz as [->|Hz]; [left; reflexivity | right; eapply IH, Hz].
Qed.

Lemma distinct_from_beyond (l : list spell) :
  ordered l ->
  forall prev, (forall y, In y l -> prev <= recptno y) ->
               forall z, In z (distinct_from prev l) -> prev < recptno z.
Proof.
  induction l as [|x l IH]; intros Hord prev Hge z Hz; simpl in *; [destruct Hz|].
  apply ordered_inv in Hord as [Hl Hx].
  assert (Hpx : prev <= recptno x) by (apply Hge; left; reflexivity).
  destruct (Z.eqb_spec (recptno x) prev) as [Heq|Hne].
  - apply (IH Hl prev); [intros y Hy; apply Hge; right; exact Hy | exact Hz].
  - destruct Hz as [<-|Hz]; [lia|].
    assert (recptno x < recptno z); [|lia].
    apply (IH Hl (recptno x)); [|exact Hz].
    intros y Hy. apply order_leb_recptno, Hx, Hy.
Qed.

(** The rows kept have pairwise different [recptno]. *)
Lemma distinct_from_NoDup (l : list spell) :
  ordered l ->
  forall prev, (forall y, In y l -> prev <= recptno y) ->
               NoDup (map recptno (distinct_from prev l)).
Proof.
  induction l as [|x l IH]; intros Hord prev Hge; simpl; [constructor|].
  pose proof Hord as Hord'.
  apply ordered_inv in Hord as [Hl Hx].
  assert (Hxl : forall y, In y l -> recptno x <= recptno y)
    by (intros y Hy; apply order_leb_recptno, Hx, Hy).
  destruct (recptno x =? prev).
  - apply IH; [exact Hl|]. intros y Hy. apply Hge. right. exact Hy.
  - simpl. constructor; [|apply IH; assumption].
    intros Hin. apply list_elem_of_In, in_map_iff in Hin as [z [Hz Hin]].
    pose proof (distinct_from_beyond l Hl (recptno x) Hxl z Hin). lia.
Qed.

Lemma distinct_on_recptno_NoDup (l : list spell) :
  ordered l -> NoDup (map recptno (distinct_on_recptno l)).
Proof.
  destruct l as [|x l]; intros Hord; simpl; [constructor|].
  apply ordered_inv in Hord as [Hl Hx].
  assert (Hxl : forall y, In y l -> recptno x <= recptno y)
    by (intros y Hy; apply order_leb_recptno, Hx, Hy).
  constructor; [|apply distinct_from_NoDup; assumption].
  intros Hin. apply list_elem_of_In, in_map_iff in Hin as [z [Hz Hin]].
  pose proof (distinct_from_beyond l Hl (recptno x) Hxl z Hin). lia.
Qed.

Lemma distinct_on_recptno_In (l : list spell) (z : spell) :
  In z (distinct_on_recptno l) -> In z l.
Proof.
  destruct l as [|x l]; simpl; [tauto|].
  intros [->|Hz]; [left; reflexivity | right; eapply distinct_from_In, Hz].
Qed.

(** No [recptno] is lost. *)
Lemma distinct_from_keys (l : list spell) :
  forall prev y, In y l -> recptno y <> prev ->
                 exists z, In z (distinct_from prev l) /\ recptno z = recptno y.
Proof.
  induction l as [|x l IH]; intros prev y Hy Hne; simpl in *; [destruct Hy|].
  destruct (Z.eqb_spec (recptno x) prev) as [Heq|Hxp].
  - destruct Hy as [->|Hy]; [congruence|]. apply IH; assumption.
  - destruct (Z.eq_dec (recptno y) (recptno x)) as [Hyx|Hyx].
    + exists x. split; [left; reflexivity | congruence].
    + destruct Hy as [->|Hy]; [congruence|].
      destruct (IH (recptno x) y Hy Hyx) as [z [Hz Hk]].
      exists z. split; [right; exact Hz | exact Hk].
Qed.

Lemma distinct_on_recptno_keys (l : list spell) (y : spell) :
  In y l -> exists z, In z (distinct_on_recptno l) /\ recptno z = recptno y.
Proof.
  destruct l as [|x l]; simpl; [tauto|]. intros Hy.
  destruct (Z.eq_dec (recptno y) (recptno x)) as [Hyx|Hyx].
  - exists x. split; [left; reflexivity | congruence].
  - destruct Hy as [->|Hy]; [congruence|].
    destruct (distinct_from_keys l (recptno x) y Hy Hyx) as [z [Hz Hk]].
    exists z. split; [right; exact Hz | exact Hk].
Qed.

(** A kept row comes first, in the order, among the rows of its
    [recptno]. *)
Lemma distinct_from_first (l : list spell) :
  ordered l ->
  forall prev, (forall y, In y l -> prev <= recptno y) ->
  forall z y, In z (distinct_from prev l) -> In y l -> recptno y = recptno z ->
              order_leb z y = true.
Proof.
  induction l as [|x l IH]; intros Hord prev Hge z y Hz Hy Hk; simpl in *;
    [destruct Hz|].
  pose proof Hord as Hord'.
  apply ordered_inv in Hord as [Hl Hx].
  assert (Hxl : forall y, In y l -> recptno x <= recptno y)
    by (intros y' Hy'; apply order_leb_recptno, Hx, Hy').
  assert (Hgel : forall y, In y l -> prev <= recptno y)
    by (intros y' Hy'; apply Hge; right; exact Hy').
  destruct (Z.eqb_spec (recptno x) prev) as [Heq|Hxp].
  - pose proof (distinct_from_beyond l Hl prev Hgel z Hz) as Hb.
    destruct Hy as [->|Hy]; [lia|].
    eapply IH; eassumption.
  - destruct Hz as [<-|Hz].
    + destruct Hy as [->|Hy]; [|apply Hx, Hy].
      apply order_leb_spec. right. split; [reflexivity | apply date_leb_refl].
    + pose proof (distinct_from_beyond l Hl (recptno x) Hxl z Hz) as Hb.
      destruct Hy as [->|Hy]; [lia|].
      eapply (IH Hl (recptno x)); eassumption.
Qed.

Lemma distinct_on_recptno_first (l : list spell) (z y : spell) :
  ordered l ->
  In z (distinct_on_recptno l) -> In y l -> recptno y = recptno z ->
  order_leb z y = true.
Proof.
  destruct l as [|x l]; intros Hord Hz Hy Hk; simpl in *; [destruct Hz|].
  apply ordered_inv in Hord as [Hl Hx].
  assert (Hxl : forall y, In y l -> recptno x <= recptno y)
    by (intros y' Hy'; apply order_leb_recptno, Hx, Hy').
  destruct Hz as [<-|Hz].
  - destruct Hy as [->|Hy]; [|apply Hx, Hy].
    apply order_leb_spec. right. split; [reflexivity | apply date_leb_refl].
  - pose proof (distinct_from_beyond l Hl (recptno x) Hxl z Hz) as Hb.
    destruct Hy as [->|Hy]; [lia|].
    eapply (distinct_from_first l Hl (recptno x)); eassumption.
Qed.
End DistinctFacts.

(** ** The label queries *)

Section LabelQueries.
Import Calendar Labels.

Variables (pred_date : date) (months_off months_back months_ahead : Z).
Variable spells : list spell.

Let cohort := select_cohort pred_date months_off months_back spells.
Let returned := select_cohort_returned pred_date months_ahead cohort spells.

Lemma is_tanf46_spec (s : spell) : is_tanf46 s = true <-> benefit_type s = "tanf46"%string.
Proof. unfold is_tanf46. apply String.eqb_eq. Qed.

Lemma cohort_where_spec (s : spell) :
  cohort_where pred_date months_off months_back s = true <->
  date_le (sub_months (sub_months pred_date months_off) months_back) (end_date s)
  /\ date_lt (end_date s) (sub_months pred_date months_off)
  /\ benefit_type s = "tanf46"%string.
Proof.
  unfold cohort_where, date_le, date_lt.
  rewrite !Bool.andb_true_iff, is_tanf46_spec. tauto.
Qed.

Lemma in_cohort_keys (k : Z) :
  existsb (Z.eqb k) (map c_recptno cohort) = true <->
  exists a, In a cohort /\ c_recptno a = k.
Proof.
  rewrite existsb_exists. split.
  - intros [k' [Hk' Heq]]. apply Z.eqb_eq in Heq. subst k'.
    apply in_map_iff in Hk' as [a [Ha Hin]]. exists a. auto.
  - intros [a [Ha Hk]]. exists k. split; [|apply Z.eqb_refl].
    apply in_map_iff. exists a. auto.
Qed.

Lemma returned_where_spec (s : spell) :
  returned_where pred_date months_ahead cohort s = true <->
  date_le pred_date (start_date s)
  /\ date_lt (start_date s) (add_months pred_date months_ahead)
  /\ benefit_type s = "tanf46"%string
  /\ exists a, In a cohort /\ c_recptno a = recptno s.
Proof.
  unfold returned_where, date_le, date_lt.
  rewrite !Bool.andb_true_iff, is_tanf46_spec, in_cohort_keys. tauto.
Qed.

(** The rows of the outcome table are qualifying spells ... *)
Lemma returned_In (r : cohort_row) :
  In r returned ->
  exists s, In s spells
            /\ returned_where pred_date months_ahead cohort s = true
            /\ row_of s = r.
Proof.
  unfold returned, select_cohort_returned. intros Hr.
  apply in_map_iff in Hr as [s [Hs Hin]].
  apply distinct_on_recptno_In in Hin.
  apply (Permutation_in _ (sort_by_perm order_leb _)) in Hin.
  apply filter_In in Hin as [Hin Hw].
  exists s. auto.
Qed.

(** ... one for each entity that has a qualifying spell ... *)
Lemma returned_complete (s : spell) :
  In s spells -> returned_where pred_date months_ahead cohort s = true ->
  exists r, In r returned /\ c_recptno r = recptno s.
Proof.
  intros Hs Hw. unfold returned, select_cohort_returned.
  assert (Hin : In s (sort_by order_leb
                        (List.filter (returned_where pred_date months_ahead cohort) spells))).
  { apply (Permutation_in _ (Permutation_sym (sort_by_perm order_leb _))).
    apply filter_In. auto. }
  apply distinct_on_recptno_keys in Hin as [z [Hz Hk]].
  exists (row_of z). split; [apply in_map; exact Hz | exact Hk].
Qed.

(** ... with no [recptno] twice ... *)
Lemma returned_NoDup : List.NoDup (map c_recptno returned).
Proof.
  unfold returned, select_cohort_returned.
  rewrite List.map_map. simpl.
  apply NoDup_ListNoDup, distinct_on_recptno_NoDup, sort_by_order_leb_ordered.
Qed.

(** ... and the earliest start date among the entity's qualifying spells. *)
Lemma returned_earliest (r : cohort_row) (s : spell) :
  In r returned -> In s spells ->
  returned_where pred_date months_ahead cohort s = true ->
  recptno s = c_recptno r ->
  date_le (c_start_date r) (start_date s).
Proof.
  unfold returned, select_cohort_returned. intros Hr Hs Hw Hk.
  apply in_map_iff in Hr as [z [<- Hz]]. simpl in *.
  assert (Hin : In s (sort_by order_leb
                        (List.filter (returned_where pred_date months_ahead cohort) spells))).
  { apply (Permutation_in _ (Permutation_sym (sort_by_perm order_leb _))).
    apply filter_In. auto. }
  pose proof (distinct_on_recptno_first _ z s (sort_by_order_leb_ordered _) Hz Hin Hk) as Hle.
  apply order_leb_spec in Hle as [Hlt|[_ Hle]]; [lia | exact Hle].
Qed.

Lemma returned_match_le1 (a : cohort_row) :
  (length (List.filter (fun b => (c_recptno a =? c_recptno b)%Z) returned) <= 1)%nat.
Proof.
  pose proof returned_NoDup as Hnd. revert Hnd.
  generalize returned as l. induction l as [|b l IH]; intros Hnd; simpl; [lia|].
  inversion Hnd as [|? ? Hnotin Hnd']; subst.
  destruct (Z.eqb_spec (c_recptno a) (c_recptno b)) as [Heq|Hne]; [|apply IH, Hnd'].
  simpl. rewrite filter_nil_key; [simpl; lia|].
  intros b' Hb'. apply Z.eqb_neq. intros Heq'. apply Hnotin.
  rewrite <- Heq, Heq'. apply in_map. exact Hb'.
Qed.

End LabelQueries.

Lemma filter_perm {A : Type} (p : A -> bool) (l l' : list A) :
  Permutation l l' -> Permutation (List.filter p l) (List.filter p l').
Proof.
  induction 1 as [|x l l' _ IH|x y l|l l' l'' _ IH1 _ IH2]; simpl.
  - apply perm_nil.
  - destruct (p x); [apply perm_skip|]; exact IH.
  - destruct (p x), (p y); try apply Permutation_refl. apply perm_swap.
  - eapply Permutation_trans; eassumption.
Qed.

(** ** The label table *)

Section LabelTable.
Import Calendar Labels.

Variables (pred_date : date) (months_off months_back months_ahead : Z).

Lemma has_return_spec (spells : list spell) (k : Z) :
  has_return pred_date months_ahead spells k = true <->
  exists s, In s spells /\ returned_in_window pred_date months_ahead k s.
Proof.
  unfold has_return, returned_in_window, date_le, date_lt.
  rewrite existsb_exists. split.
  - intros [s [Hs H]]. exists s. split; [exact Hs|].
    rewrite !Bool.andb_true_iff, is_tanf46_spec, Z.eqb_eq in H. tauto.
  - intros [s [Hs H]]. exists s. split; [exact Hs|].
    rewrite !Bool.andb_true_iff, is_tanf46_spec, Z.eqb_eq. tauto.
Qed.

(** A cohort row finds a partner in the outcome table exactly when its
    entity returned. *)
Lemma returned_match (spells : list spell) (a : cohort_row) :
  In a (select_cohort pred_date months_off months_back spells) ->
  match List.filter (fun b => c_recptno a =? c_recptno b)
          (select_cohort_returned pred_date months_ahead
             (select_cohort pred_date months_off months_back spells) spells) with
  | [] => has_return pred_date months_ahead spells (c_recptno a) = false
  | b :: rest =>
      rest = [] /\ has_return pred_date months_ahead spells (c_recptno a) = true
  end.
Proof.
  intros Ha.
  set (cohort := select_cohort pred_date months_off months_back spells) in *.
  set (returned := select_cohort_returned pred_date months_ahead cohort spells).
  pose proof (returned_match_le1 pred_date months_off months_back months_ahead spells a)
    as Hle.
  fold cohort in Hle. fold returned in Hle.
  destruct (List.filter (fun b => c_recptno a =? c_recptno b) returned)
    as [|b rest] eqn:Hf.
  - destruct (has_return pred_date months_ahead spells (c_recptno a)) eqn:Hr;
      [|reflexivity].
    exfalso. apply has_return_spec in Hr as [s [Hs [Hk [Ht [H1 H2]]]]].
    assert (Hw : returned_where pred_date months_ahead cohort s = true).
    { apply returned_where_spec. repeat split; try assumption.
      exists a. split; [exact Ha | congruence]. }
    destruct (returned_complete pred_date months_off months_back months_ahead
                spells s Hs Hw) as [r [Hr Hkr]].
    assert (Hin : In r (List.filter (fun b => c_recptno a =? c_recptno b) returned)).
    { apply filter_In. split; [exact Hr|]. apply Z.eqb_eq. congruence. }
    rewrite Hf in Hin. destruct Hin.
  - split; [destruct rest; [reflexivity | simpl in Hle; lia]|].
    assert (Hb : In b (List.filter (fun b => c_recptno a =? c_recptno b) returned))
      by (rewrite Hf; left; reflexivity).
    apply filter_In in Hb as [Hb Hk]. apply Z.eqb_eq in Hk.
    destruct (returned_In pred_date months_off months_back months_ahead spells b Hb)
      as [s [Hs [Hw Hrow]]].
    apply returned_where_spec in Hw as [H1 [H2 [Ht _]]].
    apply has_return_spec. exists s. split; [exact Hs|].
    repeat split; try assumption.
    rewrite Hk, <- Hrow. reflexivity.
Qed.

(** The three queries compute the table the specification words. *)
Lemma build_labels_spec (spells : list spell) :
  build_labels pred_date months_off months_back months_ahead spells
  = labels_spec pred_date months_off months_back months_ahead spells.
Proof.
  unfold build_labels, labels_spec, select_labels, join_returned, left_join.
  pose proof (returned_match spells) as Hm.
  set (cohort := select_cohort pred_date months_off months_back spells) in *.
  set (returned := select_cohort_returned pred_date months_ahead cohort spells) in *.
  assert (Hall : forall a, In a cohort -> In a cohort) by auto.
  revert Hm Hall. generalize cohort at 2 4 5 as l.
  induction l as [|a l IH]; intros Hm Hall; [reflexivity|].
  cbn [flat_map map]. rewrite List.map_app. 
  change (?x :: map ?f l) with ([x] ++ map f l). f_equal.
  - specialize (Hm a (Hall a (or_introl eq_refl))).
    destruct (List.filter (fun b => c_recptno a =? c_recptno b) returned)
      as [|b rest].
    + simpl. unfold label_of. simpl. rewrite Hm. reflexivity.
    + destruct Hm as [-> Hr]. simpl. unfold label_of. simpl. rewrite Hr. reflexivity.
  - apply IH; [exact Hm|]. intros a' Ha'. apply Hall. right. exact Ha'.
Qed.

End LabelTable.

(** ** Running [generate_labels] *)

Section GenerateLabels.
Import Calendar Labels.

Variables (preddate : string) (months_off months_back months_ahead : Z).
Variable schema : string.

Let key : string * string := (schema, labels_table (remove_dashes preddate)).

(** The database after the script has run. *)
Let rebuilt (d : date) (db : database) : database :=
  mkDb (ind_spells db)
       (<[key := build_labels d months_off months_back months_ahead (ind_spells db)]>
          (tables db)).

Lemma labels_sql_run (d : date) (db : database) :
  parse_date preddate = Some d ->
  labels_sql (remove_dashes preddate) preddate months_off months_back months_ahead
             schema db
  = Some (tt, rebuilt d db).
Proof.
  intros Hd.
  unfold labels_sql, bind, cast_date, scan_ind_spells, drop_table_if_exists,
    create_table_as.
  rewrite Hd. cbn [ind_spells tables].
  rewrite lookup_delete_eq, insert_delete_eq. reflexivity.
Qed.

Lemma labels_sql_fails (db : database) :
  parse_date preddate = None ->
  labels_sql (remove_dashes preddate) preddate months_off months_back months_ahead
             schema db
  = None.
Proof.
  intros Hd. unfold labels_sql, bind, cast_date. rewrite Hd. reflexivity.
Qed.

(** A call that runs the script returns the table the queries compute
    and stores it under the name derived from the prediction date. *)
Lemma generate_labels_builds (overwrite : bool) (d : date) (db : database) :
  parse_date preddate = Some d ->
  tables db !! key = None \/ overwrite = true ->
  generate_labels preddate months_off months_back months_ahead schema overwrite db
  = Some (build_labels d months_off months_back months_ahead (ind_spells db),
          rebuilt d db).
Proof.
  intros Hd Hrun.
  unfold generate_labels, bind at 1, pg_tables_rowcount. fold key.
  assert (Hcond : (match tables db !! key with Some _ => 1 | None => 0 end =? 0)
                  || overwrite = true).
  { destruct Hrun as [-> | ->]; [reflexivity | apply Bool.orb_true_r]. }
  rewrite Hcond. unfold bind. rewrite (labels_sql_run d db Hd).
  unfold read_sql, rebuilt. cbn [tables]. fold key.
  rewrite lookup_insert_eq. reflexivity.
Qed.

(** A call that finds the table and may not overwrite it changes
    nothing and returns the stored rows. *)
Lemma generate_labels_reuses (existing : list label_row) (db : database) :
  tables db !! key = Some existing ->
  generate_labels preddate months_off months_back months_ahead schema false db
  = Some (existing, db).
Proof.
  intros Hex.
  unfold generate_labels, bind, pg_tables_rowcount, ret, read_sql. fold key.
  rewrite Hex. cbn [Z.eqb orb]. rewrite Hex. reflexivity.
Qed.

(** A call that runs the script succeeds only on a prediction date that
    parses. *)
Lemma generate_labels_overwrite_inv (db db1 : database) (t1 : list label_row) :
  generate_labels preddate months_off months_back months_ahead schema true db
  = Some (t1, db1) ->
  exists d, parse_date preddate = Some d.
Proof.
  intros Hrun. destruct (parse_date preddate) as [d|] eqn:Hd; [eauto|].
  exfalso. revert Hrun.
  unfold generate_labels, bind at 1, pg_tables_rowcount.
  rewrite Bool.orb_true_r. unfold bind.
  rewrite (labels_sql_fails db Hd). discriminate.
Qed.

Lemma rebuilt_twice (d : date) (db : database) : rebuilt d (rebuilt d db) = rebuilt d db.
Proof.
  unfold rebuilt. cbn [ind_spells tables]. rewrite insert_insert_eq. reflexivity.
Qed.

End GenerateLabels.

(** ** Properties of the label builder *)

Section LabelClaims.
Import Calendar Labels.

Lemma labels_spec_In (d : date) (months_off months_back months_ahead : Z)
      (spells : list spell) (r : label_row) :
  In r (labels_spec d months_off months_back months_ahead spells) ->
  In (cohort_part r) (select_cohort d months_off months_back spells)
  /\ label r = (if has_return d months_ahead spells (l_recptno r) then 1 else 0).
Proof.
  unfold labels_spec. intros Hr.
  apply in_map_iff in Hr as [a [<- Ha]]. simpl.
  destruct a; simpl. auto.
Qed.

Lemma labels_spec_cohort (d : date) (months_off months_back months_ahead : Z)
      (spells : list spell) :
  map cohort_part (labels_spec d months_off months_back months_ahead spells)
  = select_cohort d months_off months_back spells.
Proof.
  unfold labels_spec. rewrite List.map_map.
  rewrite <- (List.map_id (select_cohort d months_off months_back spells)) at 2.
  apply map_ext. intros []. reflexivity.
Qed.

Lemma has_return_perm (d : date) (months_ahead : Z) (spells spells' : list spell) (k : Z) :
  Permutation spells spells' ->
  has_return d months_ahead spells k = has_return d months_ahead spells' k.
Proof.
  intros Hp. apply Bool.eq_iff_eq_true. rewrite !has_return_spec.
  split; intros [s [Hs H]]; exists s; (split; [|exact H]).
  - eapply Permutation_in; eassumption.
  - eapply Permutation_in; [apply Permutation_sym|]; eassumption.
Qed.

(** The rows of the label table do not depend on the order in which the
    spells are stored. *)
Lemma build_labels_perm (d : date) (months_off months_back months_ahead : Z)
      (spells spells' : list spell) :
  Permutation spells spells' ->
  Permutation (build_labels d months_off months_back months_ahead spells)
              (build_labels d months_off months_back months_ahead spells').
Proof.
  intros Hp. rewrite !build_labels_spec. unfold labels_spec.
  erewrite map_ext; [apply Permutation_map, Permutation_map, filter_perm, Hp|].
  intros a. simpl. rewrite (has_return_perm _ _ _ _ _ Hp). reflexivity.
Qed.

(** C8.  A spell of the category is in the cohort exactly when its end
    date [E] satisfies [(P - W1) - W2 <= E < P - W1]; the cohort has one
    row for each such spell, in storage order. *)
Theorem cohort_window_rule (pred_date : date) (months_off months_back : Z)
        (spells : list spell) (s : spell) :
  In s spells ->
  benefit_type s = "tanf46"%string ->
  let cohort := select_cohort pred_date months_off months_back spells in
  let in_window (x : spell) : Prop :=
    date_le (sub_months (sub_months pred_date months_off) months_back) (end_date x)
    /\ date_lt (end_date x) (sub_months pred_date months_off) in
  (In (row_of s) cohort <-> in_window s)
  /\ (forall r, In r cohort ->
        exists x, In x spells /\ benefit_type x = "tanf46"%string
                  /\ in_window x /\ r = row_of x)
  /\ Forall2 (fun x r => r = row_of x)
             (List.filter (cohort_where pred_date months_off months_back) spells)
             cohort
  /\ (forall x, cohort_where pred_date months_off months_back x = true <->
                in_window x /\ benefit_type x = "tanf46"%string).
Proof.
  intros Hs Ht. cbv zeta. unfold select_cohort.
  split; [|split; [|split]].
  - split.
    + intros Hin. apply in_map_iff in Hin as [x [Hrow Hx]].
      apply filter_In in Hx as [_ Hw].
      apply cohort_where_spec in Hw as [H1 [H2 _]].
      unfold row_of in Hrow. injection Hrow as _ _ He. rewrite <- He. auto.
    + intros [H1 H2]. apply in_map, filter_In. split; [exact Hs|].
      apply cohort_where_spec. auto.
  - intros r Hr. apply in_map_iff in Hr as [x [Hrow Hx]].
    apply filter_In in Hx as [Hx Hw].
    apply cohort_where_spec in Hw as [H1 [H2 H3]].
    exists x. auto.
  - generalize (List.filter (cohort_where pred_date months_off months_back) spells).
    intros l. induction l; simpl; constructor; auto.
  - intros x. rewrite cohort_where_spec. tauto.
Qed.

Lemma cohort_window_rule_witness :
  let s := tanf 3 (mkDate 2006 3 1) (mkDate 2006 12 5) in
  let cohort := select_cohort (mkDate 2008 1 1) 12 3 scenario_spells in
  let in_window (x : spell) : Prop :=
    date_le (sub_months (sub_months (mkDate 2008 1 1) 12) 3) (end_date x)
    /\ date_lt (end_date x) (sub_months (mkDate 2008 1 1) 12) in
  In s scenario_spells
  /\ benefit_type s = "tanf46"%string
  /\ (In (row_of s) cohort <-> in_window s)
  /\ (forall r, In r cohort ->
        exists x, In x scenario_spells /\ benefit_type x = "tanf46"%string
                  /\ in_window x /\ r = row_of x)
  /\ Forall2 (fun x r => r = row_of x)
             (List.filter (cohort_where (mkDate 2008 1 1) 12 3) scenario_spells)
             cohort
  /\ (forall x, cohort_where (mkDate 2008 1 1) 12 3 x = true <->
                in_window x /\ benefit_type x = "tanf46"%string).
Proof.
  cbv zeta.
  assert (H1 : In (tanf 3 (mkDate 2006 3 1) (mkDate 2006 12 5)) scenario_spells)
    by (simpl; tauto).
  assert (H2 : benefit_type (tanf 3 (mkDate 2006 3 1) (mkDate 2006 12 5))
               = "tanf46"%string) by reflexivity.
  split; [exact H1|]. split; [exact H2|].
  exact (cohort_window_rule (mkDate 2008 1 1) 12 3 scenario_spells _ H1 H2).
Defined.

(** No qualifying spell of an entity starts before its row of the
    outcome table. *)
Lemma cohort_returned_first_spell_aux
      (pred_date : date) (months_off months_back months_ahead : Z)
      (spells : list spell) (r : cohort_row) (s : spell) :
  In r (select_cohort_returned pred_date months_ahead
          (select_cohort pred_date months_off months_back spells) spells) ->
  In s spells ->
  returned_in_window pred_date months_ahead (c_recptno r) s ->
  date_le (c_start_date r) (start_date s).
Proof.
  intros Hr Hs [Hk [Ht [H1 H2]]].
  eapply returned_earliest; [exact Hr | exact Hs | | exact Hk].
  apply returned_where_spec. repeat split; try assumption.
  destruct (returned_In _ _ _ _ _ r Hr) as [s' [_ [Hw' Hrow']]].
  apply returned_where_spec in Hw' as [_ [_ [_ [a [Ha Hka]]]]].
  exists a. split; [exact Ha|]. rewrite Hka, Hk, <- Hrow'. reflexivity.
Qed.

(** C3.  When [generate_labels] builds the table it returns one label
    row for every cohort row, and the label of a row is 1 exactly when
    some spell of the category of the same entity starts in the forward
    window [[P, P + months_ahead)]; it is 0 otherwise. *)
Theorem generate_labels_label_rule
        (preddate : string) (d : date) (months_off months_back months_ahead : Z)
        (schema : string) (overwrite : bool) (db : database) :
  parse_date preddate = Some d ->
  tables db !! (schema, labels_table (remove_dashes preddate)) = None
  \/ overwrite = true ->
  exists (labels : list label_row) (db' : database),
    generate_labels preddate months_off months_back months_ahead schema overwrite db
    = Some (labels, db')
    /\ tables db' !! (schema, labels_table (remove_dashes preddate)) = Some labels
    /\ map cohort_part labels = select_cohort d months_off months_back (ind_spells db)
    /\ (let cohort := select_cohort d months_off months_back (ind_spells db) in
        let returned := select_cohort_returned d months_ahead cohort (ind_spells db) in
        labels = map label_of (join_returned cohort returned)
        /\ forall ab, (snd ab = None <-> label (label_of ab) = 0)
                      /\ (snd ab <> None <-> label (label_of ab) = 1))
    /\ forall r, In r labels ->
         let returned :=
           exists s, In s (ind_spells db)
                     /\ returned_in_window d months_ahead (l_recptno r) s in
         (label r = 1 <-> returned) /\ (label r = 0 <-> ~ returned).
Proof.
  intros Hd Hrun.
  eexists. eexists.
  split; [apply (generate_labels_builds _ _ _ _ _ _ d db Hd Hrun)|].
  split; [cbn [tables]; apply lookup_insert_eq|].
  split; [rewrite build_labels_spec; apply labels_spec_cohort|].
  split.
  { cbv zeta. split; [reflexivity|].
    intros [a [b|]]; simpl; repeat split; intros H;
      try reflexivity; try discriminate; congruence. }
  rewrite build_labels_spec.
  intros r Hr. cbv zeta.
  apply labels_spec_In in Hr as [_ Hl]. rewrite Hl.
  rewrite <- has_return_spec.
  destruct (has_return d months_ahead (ind_spells db) (l_recptno r));
    split; split; intros H; try reflexivity; try discriminate; congruence.
Qed.

Lemma generate_labels_label_rule_witness :
  parse_date "2008-01-01" = Some (mkDate 2008 1 1)
  /\ (tables scenario_db !! (myschema, labels_table (remove_dashes "2008-01-01")) = None
      \/ false = true)
  /\ exists (labels : list label_row) (db' : database),
    generate_labels "2008-01-01" 12 3 2 myschema false scenario_db = Some (labels, db')
    /\ tables db' !! (myschema, labels_table (remove_dashes "2008-01-01")) = Some labels
    /\ map cohort_part labels = select_cohort (mkDate 2008 1 1) 12 3 (ind_spells scenario_db)
    /\ (let cohort := select_cohort (mkDate 2008 1 1) 12 3 (ind_spells scenario_db) in
        let returned :=
          select_cohort_returned (mkDate 2008 1 1) 2 cohort (ind_spells scenario_db) in
        labels = map label_of (join_returned cohort returned)
        /\ forall ab, (snd ab = None <-> label (label_of ab) = 0)
                      /\ (snd ab <> None <-> label (label_of ab) = 1))
    /\ forall r, In r labels ->
         let returned :=
           exists s, In s (ind_spells scenario_db)
                     /\ returned_in_window (mkDate 2008 1 1) 2 (l_recptno r) s in
         (label r = 1 <-> returned) /\ (label r = 0 <-> ~ returned).
Proof.
  assert (H1 : parse_date "2008-01-01" = Some (mkDate 2008 1 1)) by reflexivity.
  assert (H2 : tables scenario_db !! (myschema, labels_table (remove_dashes "2008-01-01"))
               = None \/ false = true) by (left; reflexivity).
  split; [exact H1|]. split; [exact H2|].
  exact (generate_labels_label_rule "2008-01-01" (mkDate 2008 1 1) 12 3 2 myschema false
           scenario_db H1 H2).
Defined.

(** Rows with different keys: a key picks at most one row. *)
Lemma NoDup_map_unique {A B : Type} (f : A -> B) (l : list A) (x y : A) :
  List.NoDup (map f l) -> In x l -> In y l -> f x = f y -> x = y.
Proof.
  induction l as [|z l IH]; intros Hnd Hx Hy Hf; [destruct Hx|].
  cbn [map] in Hnd. inversion Hnd as [|? ? Hz Hnd']; subst.
  destruct Hx as [->|Hx], Hy as [->|Hy].
  - reflexivity.
  - exfalso. apply Hz. rewrite Hf. apply in_map, Hy.
  - exfalso. apply Hz. rewrite <- Hf. apply in_map, Hx.
  - apply IH; assumption.
Qed.

(** C4.  The outcome table [cohort_returned] has at most one row per
    [recptno]; each row is a qualifying spell of its entity, and no
    qualifying spell of that entity starts earlier.  Every entity of the
    cohort that has a qualifying spell in the forward window has a row:
    exactly one, and it starts no later than any of the entity's
    qualifying spells, so the spell that is retained is the earliest.
    In the scenario, entity 3 has forward spells starting on day 40 and
    on day 5 of a sixty-day window: the join pairs its single cohort row
    with the outcome row that starts on day 5 (2008-01-06), and the label
    table has exactly one row for it, labelled 1.  (The [start_date]
    column of the label row itself is that of the cohort spell.) *)
Theorem cohort_returned_first_spell
        (pred_date : date) (months_off months_back months_ahead : Z)
        (spells : list spell) :
  let cohort := select_cohort pred_date months_off months_back spells in
  let returned := select_cohort_returned pred_date months_ahead cohort spells in
  List.NoDup (map c_recptno returned)
  /\ (forall r, In r returned ->
        exists s, In s spells
                  /\ returned_in_window pred_date months_ahead (c_recptno r) s
                  /\ r = row_of s)
  /\ (forall r s, In r returned -> In s spells ->
        returned_in_window pred_date months_ahead (c_recptno r) s ->
        date_le (c_start_date r) (start_date s))
  /\ (forall a s, In a cohort -> In s spells ->
        returned_in_window pred_date months_ahead (c_recptno a) s ->
        exists r, In r returned
                  /\ c_recptno r = c_recptno a
                  /\ date_le (c_start_date r) (start_date s)
                  /\ forall r', In r' returned -> c_recptno r' = c_recptno a -> r' = r)
  /\ (let P := mkDate 2008 1 1 in
      let c := select_cohort P 12 3 scenario_spells in
      let b := select_cohort_returned P 2 c scenario_spells in
      add_months P 2 = mkDate 2008 3 1
      /\ List.filter (fun ab => c_recptno (fst ab) =? 3) (join_returned c b)
         = [(mkRow 3 (mkDate 2006 3 1) (mkDate 2006 12 5),
             Some (mkRow 3 (mkDate 2008 1 6) (mkDate 2008 1 31)))]
      /\ option_map (fun res => List.filter (fun r => l_recptno r =? 3) (fst res))
                    (generate_labels "2008-01-01" 12 3 2 myschema false scenario_db)
         = Some [mkLabel 3 (mkDate 2006 3 1) (mkDate 2006 12 5) 1]).
Proof.
  cbv zeta. split; [apply returned_NoDup|].
  split; [|split; [|split]].
  - intros r Hr.
    destruct (returned_In _ _ _ _ _ r Hr) as [s [Hs [Hw Hrow]]].
    apply returned_where_spec in Hw as [H1 [H2 [Ht _]]].
    exists s. split; [exact Hs|]. split; [|symmetry; exact Hrow].
    unfold returned_in_window. rewrite <- Hrow. simpl. auto.
  - intros r s. apply cohort_returned_first_spell_aux.
  - intros a s Ha Hs Hwin.
    assert (Hw : returned_where pred_date months_ahead
                   (select_cohort pred_date months_off months_back spells) s = true).
    { destruct Hwin as [Hk [Ht [H1 H2]]].
      apply returned_where_spec. repeat split; try assumption.
      exists a. split; [exact Ha | symmetry; exact Hk]. }
    destruct (returned_complete pred_date months_off months_back months_ahead spells
                s Hs Hw) as [r [Hr Hk]].
    assert (Hra : c_recptno r = c_recptno a) by (destruct Hwin as [Hs' _]; congruence).
    exists r. split; [exact Hr|]. split; [exact Hra|]. split.
    + apply (cohort_returned_first_spell_aux pred_date months_off months_back
               months_ahead spells r s Hr Hs).
      rewrite Hra. exact Hwin.
    + intros r' Hr' Hk'.
      apply (NoDup_map_unique c_recptno _ r' r
               (returned_NoDup pred_date months_off months_back months_ahead spells)
               Hr' Hr).
      congruence.
  - split; [reflexivity|]. split; [reflexivity|].
    rewrite (generate_labels_builds "2008-01-01" 12 3 2 myschema false (mkDate 2008 1 1)
               scenario_db eq_refl (or_introl eq_refl)).
    reflexivity.
Qed.

Lemma cohort_returned_first_spell_witness :
  let P := mkDate 2008 1 1 in
  let returned :=
    select_cohort_returned P 2 (select_cohort P 12 3 scenario_spells) scenario_spells in
  let r := mkRow 3 (mkDate 2008 1 6) (mkDate 2008 1 31) in
  let s := tanf 3 (mkDate 2008 2 10) (mkDate 2008 6 30) in
  In r returned /\ In s scenario_spells /\ returned_in_window P 2 (c_recptno r) s
  /\ date_le (c_start_date r) (start_date s).
Proof.
  cbv zeta.
  assert (H1 : In (mkRow 3 (mkDate 2008 1 6) (mkDate 2008 1 31))
                  (select_cohort_returned (mkDate 2008 1 1) 2
                     (select_cohort (mkDate 2008 1 1) 12 3 scenario_spells)
                     scenario_spells)) by (vm_compute; tauto).
  assert (H2 : In (tanf 3 (mkDate 2008 2 10) (mkDate 2008 6 30)) scenario_spells)
    by (simpl; tauto).
  assert (H3 : returned_in_window (mkDate 2008 1 1) 2 3
                 (tanf 3 (mkDate 2008 2 10) (mkDate 2008 6 30)))
    by (repeat split; reflexivity).
  split; [exact H1|]. split; [exact H2|]. split; [exact H3|].
  exact (proj1 (proj2 (proj2 (cohort_returned_first_spell (mkDate 2008 1 1) 12 3 2
                                scenario_spells))) _ _ H1 H2 H3).
Defined.

(** C5.  When the label table of the prediction date exists, a call
    with [overwrite=False] leaves the database as it is and returns the
    stored rows, whatever the window parameters of the call; a call with
    [overwrite=True] replaces the table by the one computed from the
    parameters of the call. *)
Theorem generate_labels_overwrite_flag
        (preddate : string) (months_off months_back months_ahead : Z)
        (schema : string) (db : database) (existing : list label_row) :
  tables db !! (schema, labels_table (remove_dashes preddate)) = Some existing ->
  generate_labels preddate months_off months_back months_ahead schema false db
  = Some (existing, db)
  /\ forall d, parse_date preddate = Some d ->
       let rebuilt := build_labels d months_off months_back months_ahead (ind_spells db) in
       generate_labels preddate months_off months_back months_ahead schema true db
       = Some (rebuilt,
               mkDb (ind_spells db)
                    (<[(schema, labels_table (remove_dashes preddate)) := rebuilt]>
                       (tables db))).
Proof.
  intros Hex. split.
  - apply generate_labels_reuses, Hex.
  - intros d Hd. cbv zeta.
    apply (generate_labels_builds _ _ _ _ _ true d db Hd). right. reflexivity.
Qed.

(** The table was built with a two-month horizon; the second call asks
    for a horizon of zero months, which would label every row 0. *)
Lemma generate_labels_overwrite_flag_witness :
  let P := mkDate 2008 1 1 in
  let key := (myschema, labels_table (remove_dashes "2008-01-01")) in
  let existing := build_labels P 12 3 2 scenario_spells in
  let db := mkDb scenario_spells (<[key := existing]> ∅) in
  tables db !! key = Some existing
  /\ generate_labels "2008-01-01" 6 1 0 myschema false db = Some (existing, db)
  /\ generate_labels "2008-01-01" 12 3 0 myschema true db
     = Some (build_labels P 12 3 0 scenario_spells,
             mkDb scenario_spells (<[key := build_labels P 12 3 0 scenario_spells]>
                                     (<[key := existing]> ∅)))
  /\ build_labels P 12 3 0 scenario_spells <> existing.
Proof.
  cbv zeta.
  assert (H : tables (mkDb scenario_spells
                        (<[(myschema, labels_table (remove_dashes "2008-01-01"))
                           := build_labels (mkDate 2008 1 1) 12 3 2 scenario_spells]> ∅))
              !! (myschema, labels_table (remove_dashes "2008-01-01"))
              = Some (build_labels (mkDate 2008 1 1) 12 3 2 scenario_spells))
    by (vm_compute; reflexivity).
  split; [exact H|].
  split; [exact (proj1 (generate_labels_overwrite_flag "2008-01-01" 6 1 0 myschema _ _ H))|].
  split; [exact (proj2 (generate_labels_overwrite_flag "2008-01-01" 12 3 0 myschema _ _ H)
                   (mkDate 2008 1 1) eq_refl)|].
  vm_compute. discriminate.
Defined.

(** C9.  A call with [overwrite=True] that succeeded, repeated with the
    same parameters on the database it left, returns the same rows and
    leaves the same database; the rows depend on the stored spells only,
    not on the label tables present before, and reordering the stored
    spells only reorders them. *)
Theorem generate_labels_deterministic
        (preddate : string) (months_off months_back months_ahead : Z)
        (schema : string) (db db1 : database) (t1 : list label_row) :
  generate_labels preddate months_off months_back months_ahead schema true db
  = Some (t1, db1) ->
  generate_labels preddate months_off months_back months_ahead schema true db1
  = Some (t1, db1)
  /\ (forall db', ind_spells db' = ind_spells db ->
        exists db1',
          generate_labels preddate months_off months_back months_ahead schema true db'
          = Some (t1, db1')
          /\ tables db1' !! (schema, labels_table (remove_dashes preddate)) = Some t1)
  /\ (forall db', Permutation (ind_spells db') (ind_spells db) ->
        exists t1' db1',
          generate_labels preddate months_off months_back months_ahead schema true db'
          = Some (t1', db1')
          /\ Permutation t1' t1).
Proof.
  intros Hrun.
  destruct (generate_labels_overwrite_inv _ _ _ _ _ _ _ _ Hrun) as [d Hd].
  assert (Hb : forall x, generate_labels preddate months_off months_back months_ahead
                           schema true x
                         = Some (build_labels d months_off months_back months_ahead
                                              (ind_spells x),
                                 mkDb (ind_spells x)
                                      (<[(schema, labels_table (remove_dashes preddate))
                                         := build_labels d months_off months_back
                                              months_ahead (ind_spells x)]> (tables x))))
    by (intros x; apply (generate_labels_builds _ _ _ _ _ true d x Hd); right; reflexivity).
  rewrite Hb in Hrun. injection Hrun as <- <-.
  split; [|split].
  - rewrite Hb. cbn [ind_spells tables]. rewrite insert_insert_eq. reflexivity.
  - intros db' Heq. eexists. rewrite Hb, Heq.
    split; [reflexivity|]. cbn [tables]. apply lookup_insert_eq.
  - intros db' Hp. eexists. eexists. rewrite Hb.
    split; [reflexivity|]. apply build_labels_perm, Hp.
Qed.

Lemma generate_labels_deterministic_witness :
  let t1 := build_labels (mkDate 2008 1 1) 12 3 2 scenario_spells in
  let db1 := mkDb scenario_spells
                  (<[(myschema, labels_table (remove_dashes "2008-01-01")) := t1]> ∅) in
  generate_labels "2008-01-01" 12 3 2 myschema true scenario_db = Some (t1, db1)
  /\ generate_labels "2008-01-01" 12 3 2 myschema true db1 = Some (t1, db1).
Proof.
  cbv zeta.
  assert (H : generate_labels "2008-01-01" 12 3 2 myschema true scenario_db
              = Some (build_labels (mkDate 2008 1 1) 12 3 2 scenario_spells,
                      mkDb scenario_spells
                           (<[(myschema, labels_table (remove_dashes "2008-01-01"))
                              := build_labels (mkDate 2008 1 1) 12 3 2 scenario_spells]>
                              ∅)))
    by (vm_compute; reflexivity).
  split; [exact H|].
  exact (proj1 (generate_labels_deterministic "2008-01-01" 12 3 2 myschema _ _ _ H)).
Defined.




End LabelClaims.

(** ** The matrix assembly *)

Lemma filter_split_length {A : Type} (p : A -> bool) (l : list A) :
  (length (List.filter p l) + length (List.filter (fun x => negb (p x)) l)
   = length l)%nat.
Proof.
  induction l as [|x l IH]; simpl; [reflexivity|].
  destruct (p x); simpl; lia.
Qed.

Section MatrixAssembly.
Import Matrix.

(** Whatever the join produced, every row is either kept or counted as
    dropped by exactly one of the two filters. *)
Lemma clean_counts (df : list matrix_row) :
  (length (clean df) + nrows_isnan df + nrows_out_of_range (drop_missing df)
   = length df)%nat.
Proof.
  unfold clean, keep_in_range, nrows_isnan, nrows_out_of_range.
  pose proof (filter_split_length keep (drop_missing df)) as H1.
  pose proof (filter_split_length isnull_any df) as H2.
  unfold drop_missing in *. lia.
Qed.

(** The join never loses a label row. *)
Lemma train_matrix_length_ge (labels : list label_row) (features : list feature_row) :
  (length labels <= length (train_matrix labels features))%nat.
Proof.
  unfold train_matrix. rewrite List.length_map. apply left_join_length_ge.
Qed.

Lemma select_row_label_columns (lf : label_row * option feature_row) :
  matrix_label_columns (select_row lf) = label_columns (fst lf).
Proof. destruct lf as [l [f|]]; reflexivity. Qed.

Lemma unique_match_le1 (features : list feature_row) (l : label_row) :
  unique_doc_numbers features ->
  (length (List.filter (on_doc_number l) features) <= 1)%nat.
Proof.
  unfold unique_doc_numbers, doc_numbers.
  induction features as [|f fs IH]; intros Hnd; simpl; [lia|].
  simpl in Hnd. apply List.NoDup_app_remove_l in Hnd as Hfs.
  destruct (on_doc_number l f) eqn:Hon; [|apply IH, Hfs].
  simpl. rewrite filter_nil_key; [simpl; lia|].
  intros f' Hf'. destruct (on_doc_number l f') eqn:Hon'; [|reflexivity].
  exfalso. unfold on_doc_number in Hon, Hon'.
  destruct (f_inmate_doc_number f) as [a|] eqn:Ha; [|discriminate].
  destruct (f_inmate_doc_number f') as [a'|] eqn:Ha'; [|discriminate].
  destruct (l_inmate_doc_number l) as [b|]; [|discriminate].
  apply Z.eqb_eq in Hon, Hon'. subst a a'.
  simpl in Hnd. inversion Hnd as [|? ? Hnotin _]; subst.
  apply Hnotin, in_flat_map. exists f'. split; [exact Hf'|].
  rewrite Ha'. left. reflexivity.
Qed.

(** C7, as stated, fails: a feature table with two rows for an inmate
    gives that inmate two matrix rows, and the counts no longer add up
    to the size of the label table. *)
Lemma assemble_counts_counterexample :
  let labels := [mkLabel (Some 101) (Some 1)] in
  let joined := train_matrix labels repeated_features in
  map inmate_doc_number joined = [Some 101; Some 101]
  /\ (length (clean joined) + nrows_isnan joined
      + nrows_out_of_range (drop_missing joined))%nat = 2%nat
  /\ length labels = 1%nat
  /\ (length (clean joined) + nrows_isnan joined
      + nrows_out_of_range (drop_missing joined) <> length labels)%nat.
Proof.
  cbv zeta. repeat split; try reflexivity.
  vm_compute. discriminate.
Qed.

(** C7, amended.  When no document number occurs in two feature rows,
    the left join yields exactly one matrix row per label row, in order
    and with the label columns unchanged, and the rows kept by the
    cleaning, the rows dropped for a missing value and the rows dropped
    for an [age_first_admit] outside [[14, 99]] add up to the size of
    the label table. *)
Theorem assemble_counts (labels : list label_row) (features : list feature_row) :
  unique_doc_numbers features ->
  let joined := train_matrix labels features in
  map matrix_label_columns joined = map label_columns labels
  /\ length joined = length labels
  /\ (length (clean joined) + nrows_isnan joined
      + nrows_out_of_range (drop_missing joined) = length labels)%nat
  /\ (forall r, In r (clean joined) ->
        isnull_any r = false
        /\ exists a, age_first_admit r = Some a /\ (14#1 <= a)%Q /\ (a <= 99#1)%Q).
Proof.
  intros Hu. cbv zeta.
  assert (Hcols : map matrix_label_columns (train_matrix labels features)
                  = map label_columns labels).
  { unfold train_matrix. rewrite List.map_map.
    rewrite (map_ext _ (fun lf => label_columns (fst lf)) select_row_label_columns).
    rewrite <- (List.map_map fst label_columns).
    rewrite left_join_fst; [reflexivity|].
    intros l _. apply unique_match_le1, Hu. }
  assert (Hlen : length (train_matrix labels features) = length labels).
  { rewrite <- (List.length_map matrix_label_columns), Hcols. apply List.length_map. }
  split; [exact Hcols|]. split; [exact Hlen|].
  split; [rewrite clean_counts; exact Hlen|].
  intros r Hr. unfold clean, keep_in_range, drop_missing in Hr.
  apply filter_In in Hr as [Hr Hk]. apply filter_In in Hr as [_ Hn].
  split; [destruct (isnull_any r); [discriminate | reflexivity]|].
  unfold keep in Hk. destruct (age_first_admit r) as [a|]; [|discriminate].
  apply Bool.andb_true_iff in Hk as [H1 H2].
  exists a. rewrite <- !Qle_bool_iff. auto.
Qed.

Lemma assemble_counts_witness :
  let joined := train_matrix example_labels example_features in
  unique_doc_numbers example_features
  /\ map matrix_label_columns joined = map label_columns example_labels
  /\ length joined = length example_labels
  /\ (length (clean joined) + nrows_isnan joined
      + nrows_out_of_range (drop_missing joined) = length example_labels)%nat
  /\ (forall r, In r (clean joined) ->
        isnull_any r = false
        /\ exists a, age_first_admit r = Some a /\ (14#1 <= a)%Q /\ (a <= 99#1)%Q).
Proof.
  cbv zeta.
  assert (H : unique_doc_numbers example_features).
  { unfold unique_doc_numbers. simpl.
    constructor; [simpl; intros [H|[]]; discriminate|].
    constructor; [simpl; tauto | constructor]. }
  split; [exact H|].
  exact (assemble_counts example_labels example_features H).
Defined.

Example assemble_example_counts :
  let joined := train_matrix example_labels example_features in
  length (clean joined) = 1%nat /\ nrows_isnan joined = 1%nat
  /\ nrows_out_of_range (drop_missing joined) = 1%nat.
Proof. vm_compute. auto. Qed.

End MatrixAssembly.

(* ================================================================== *)
(** * Part III: further properties of the code *)
(* ================================================================== *)

(** ** More on [precision_at_k] and its callers *)

Section PrecisionAtKMore.
Import Metrics.

Lemma precision_score_inv (y_true y_pred : list Z) (p : Q) :
  precision_score y_true y_pred = Some p ->
  length y_true = length y_pred
  /\ p = (let tp := count_pairs (fun t p => (p =? 1) && (t =? 1)) y_true y_pred in
          let fp := count_pairs (fun t p => (p =? 1) && negb (t =? 1)) y_true y_pred in
          if tp + fp =? 0 then 0%Q else Qred (tp # Z.to_pos (tp + fp))).
Proof.
  unfold precision_score. intros H.
  destruct (Nat.eqb_spec (length y_true) (length y_pred)) as [Hlen|]; [|discriminate].
  simpl in H.
  destruct (2 <? length (unique_labels (y_true ++ y_pred)))%nat; [discriminate|].
  destruct ((length (unique_labels (y_true ++ y_pred)) =? 2)%nat
            && negb (existsb (Z.eqb 1) (unique_labels (y_true ++ y_pred))));
    [discriminate|].
  injection H as <-. split; [exact Hlen | reflexivity].
Qed.

(** True and false positives together are the predicted positives. *)
Lemma count_pairs_positives (y_true y_pred : list Z) :
  length y_true = length y_pred ->
  count_pairs (fun t p => (p =? 1) && (t =? 1)) y_true y_pred
  + count_pairs (fun t p => (p =? 1) && negb (t =? 1)) y_true y_pred
  = positives y_pred.
Proof.
  unfold count_pairs, positives, py_len. revert y_pred.
  induction y_true as [|t yt IH]; intros [|p yp] Hlen; try discriminate; [reflexivity|].
  injection Hlen as Hlen. specialize (IH yp Hlen).
  cbn [combine List.filter fst snd].
  rewrite (Z.eqb_sym 1 p).
  destruct (p =? 1), (t =? 1); cbn [andb negb length]; lia.
Qed.

Lemma count_pairs_nonneg (f : Z -> Z -> bool) (y_true y_pred : list Z) :
  0 <= count_pairs f y_true y_pred.
Proof. unfold count_pairs, py_len. lia. Qed.

Lemma ratio_in_unit (a b : Z) : 0 <= a <= b -> 0 < b -> (0 <= a # Z.to_pos b <= 1)%Q.
Proof.
  intros Ha Hb. unfold Qle. simpl. rewrite Z2Pos.id by exact Hb. lia.
Qed.

Lemma py_getitem_In {A : Type} (l : list A) (i : Z) (x : A) :
  py_getitem l i = Some x -> In x l.
Proof.
  unfold py_getitem. intros H.
  destruct (0 <=? i); [eapply nth_error_In; exact H|].
  destruct (- py_len l <=? i); [eapply nth_error_In; exact H | discriminate].
Qed.

Lemma positives_of_member (threshold : Q) (y_scores : list Q) :
  In threshold y_scores -> 1 <= positives (y_pred_of threshold y_scores).
Proof.
  intros Hin. rewrite positives_y_pred_of. unfold py_len.
  assert (Hf : In threshold (List.filter (Qle_bool threshold) y_scores))
    by (apply filter_In; split; [exact Hin | apply Qle_bool_refl]).
  destruct (List.filter (Qle_bool threshold) y_scores); [destruct Hf | simpl; lia].
Qed.

(** What a returned value is made of: a threshold among the scores and
    the ratio of true positives to predicted positives. *)
Lemma precision_at_k_inv (y_true : list Z) (y_scores : list Q) (k : spec_float) (p : Q) :
  precision_at_k y_true y_scores k = Some p ->
  length y_true = length y_scores
  /\ exists threshold : Q,
       In threshold y_scores
       /\ 1 <= positives (y_pred_of threshold y_scores)
       /\ (p == count_pairs (fun t p => (p =? 1) && (t =? 1)) y_true
                            (y_pred_of threshold y_scores)
                # Z.to_pos (positives (y_pred_of threshold y_scores)))%Q
       /\ count_pairs (fun t p => (p =? 1) && (t =? 1)) y_true
                      (y_pred_of threshold y_scores)
          <= positives (y_pred_of threshold y_scores).
Proof.
  unfold precision_at_k. intros H.
  destruct (float_index k (length y_scores)) as [idx|]; [|discriminate].
  destruct (py_getitem (reversed (np_sort y_scores)) idx) as [thr|] eqn:Hg;
    [|discriminate].
  apply precision_score_inv in H as [Hlen Hp].
  rewrite y_pred_of_length in Hlen. split; [exact Hlen|].
  assert (Hin : In thr y_scores).
  { apply py_getitem_In in Hg.
    eapply Permutation_in; [apply sorted_desc_perm | exact Hg]. }
  exists thr. split; [exact Hin|].
  pose proof (positives_of_member thr y_scores Hin) as Hpos.
  split; [exact Hpos|].
  pose proof (count_pairs_positives y_true (y_pred_of thr y_scores)) as Hsum.
  rewrite y_pred_of_length in Hsum. specialize (Hsum Hlen).
  cbv zeta in Hp. rewrite Hsum in Hp.
  destruct (Z.eqb_spec (positives (y_pred_of thr y_scores)) 0) as [H0|_]; [lia|].
  split; [rewrite Hp; apply Qred_correct|].
  pose proof (count_pairs_nonneg (fun t p0 => (p0 =? 1) && negb (t =? 1)) y_true
                (y_pred_of thr y_scores)).
  lia.
Qed.

Lemma precision_at_k_in_unit (y_true : list Z) (y_scores : list Q) (k : spec_float) (p : Q) :
  precision_at_k y_true y_scores k = Some p -> (0 <= p <= 1)%Q.
Proof.
  intros H. apply precision_at_k_inv in H as [_ [thr [_ [Hpos [Heq Hle]]]]].
  rewrite Heq. apply ratio_in_unit; [|lia].
  pose proof (count_pairs_nonneg (fun t p0 => (p0 =? 1) && (t =? 1)) y_true
                (y_pred_of thr y_scores)).
  lia.
Qed.

(** With the index in range the threshold is the entry at that rank. *)
Lemma precision_at_k_at_rank (y_true : list Z) (y_scores : list Q) (k : spec_float)
      (idx : Z) :
  float_index k (length y_scores) = Some idx ->
  0 <= idx < py_len y_scores ->
  exists threshold : Q,
    nth_error (reversed (np_sort y_scores)) (Z.to_nat idx) = Some threshold
    /\ precision_at_k y_true y_scores k
       = precision_score y_true (y_pred_of threshold y_scores).
Proof.
  intros Hidx [H0 Hn].
  assert (Hlt : (Z.to_nat idx < length (reversed (np_sort y_scores)))%nat).
  { rewrite sorted_desc_length. unfold py_len in Hn. lia. }
  destruct (nth_error (reversed (np_sort y_scores)) (Z.to_nat idx))
    as [thr|] eqn:Hth; [|apply nth_error_None in Hth; lia].
  exists thr. split; [reflexivity|].
  unfold precision_at_k. rewrite Hidx, py_getitem_in_range by exact H0.
  rewrite Hth. reflexivity.
Qed.

(** X1.  Whenever [precision_at_k] returns a value, the two vectors have
    the same length, the threshold is one of the scores, at least one
    entry is predicted positive -- so the value is the ratio of true
    positives to predicted positives, never the fallback of an empty
    prediction -- and it lies between 0 and 1. *)
Theorem precision_at_k_returns (y_true : list Z) (y_scores : list Q) (k : spec_float) (p : Q) :
  precision_at_k y_true y_scores k = Some p ->
  length y_true = length y_scores
  /\ exists threshold : Q,
       In threshold y_scores
       /\ let y_pred := y_pred_of threshold y_scores in
          let tp := count_pairs (fun t p => (p =? 1) && (t =? 1)) y_true y_pred in
          1 <= positives y_pred
          /\ (p == tp # Z.to_pos (positives y_pred))%Q
          /\ (0 <= p <= 1)%Q.
Proof.
  intros H. pose proof (precision_at_k_in_unit _ _ _ _ H) as Hunit.
  apply precision_at_k_inv in H as [Hlen [thr [Hin [Hpos [Heq _]]]]].
  split; [exact Hlen|]. exists thr. split; [exact Hin|]. cbv zeta.
  split; [exact Hpos|]. split; [exact Heq | exact Hunit].
Qed.

Lemma precision_at_k_returns_witness :
  precision_at_k example_y_true example_y_scores double_0_3 = Some (1#2)%Q
  /\ length example_y_true = length example_y_scores
  /\ exists threshold : Q,
       In threshold example_y_scores
       /\ let y_pred := y_pred_of threshold example_y_scores in
          let tp := count_pairs (fun t p => (p =? 1) && (t =? 1)) example_y_true y_pred in
          1 <= positives y_pred
          /\ (1#2 == tp # Z.to_pos (positives y_pred))%Q
          /\ (0 <= 1#2 <= 1)%Q.
Proof.
  assert (H : precision_at_k example_y_true example_y_scores double_0_3 = Some (1#2)%Q)
    by (vm_compute; reflexivity).
  split; [exact H|].
  exact (precision_at_k_returns example_y_true example_y_scores double_0_3 (1#2) H).
Defined.

End PrecisionAtKMore.
Lemma filter_length_impl {A : Type} (p q : A -> bool) (l : list A) :
  (forall x, In x l -> p x = true -> q x = true) ->
  (length (List.filter p l) <= length (List.filter q l))%nat.
Proof.
  induction l as [|x l IH]; intros H; simpl; [lia|].
  assert (IH' : (length (List.filter p l) <= length (List.filter q l))%nat)
    by (apply IH; intros y Hy; apply H; right; exact Hy).
  destruct (p x) eqn:Hp.
  - rewrite (H x (or_introl eq_refl) Hp). simpl. lia.
  - destruct (q x); simpl; lia.
Qed.

Lemma filter_length_split {A : Type} (p : A -> bool) (n : nat) (l : list A) :
  length (List.filter p l)
  = (length (List.filter p (firstn n l)) + length (List.filter p (skipn n l)))%nat.
Proof.
  rewrite <- (firstn_skipn n l) at 1.
  rewrite List.filter_app, List.length_app. reflexivity.
Qed.

Section PrecisionAtKRanks.
Import Metrics.

(** The entries up to a rank of the descending order reach the entry at
    that rank. *)
Lemma ranks_before_reach (y_scores : list Q) (i : nat) (threshold : Q) :
  nth_error (reversed (np_sort y_scores)) i = Some threshold ->
  forall x, In x (firstn (S i) (reversed (np_sort y_scores))) ->
            Qle_bool threshold x = true.
Proof.
  intros Hi x Hx. set (d := reversed (np_sort y_scores)) in *.
  apply In_nth_error in Hx as [j Hj].
  assert (Hlt : (j < length (firstn (S i) d))%nat) by (apply nth_error_Some; congruence).
  rewrite List.length_firstn in Hlt.
  rewrite nth_error_firstn in Hj.
  destruct (Nat.ltb_spec j (S i)); [|lia].
  destruct (Nat.eq_dec j i) as [->|Hne].
  - rewrite Hi in Hj. injection Hj as <-. apply Qle_bool_refl.
  - apply Qle_bool_iff.
    apply (StronglySorted_nth_error _ d (sorted_desc_sorted y_scores) j i x threshold);
      [lia | exact Hj | exact Hi].
Qed.

(** The entries from a rank on are at most the entry at that rank. *)
Lemma ranks_after_below (y_scores : list Q) (i j : nat) (threshold x : Q) :
  nth_error (reversed (np_sort y_scores)) i = Some threshold ->
  nth_error (reversed (np_sort y_scores)) j = Some x ->
  (i <= j)%nat -> (x <= threshold)%Q.
Proof.
  intros Hi Hj Hij. destruct (Nat.eq_dec i j) as [->|Hne].
  - rewrite Hi in Hj. injection Hj as <-. apply Qle_refl.
  - apply (StronglySorted_nth_error _ _ (sorted_desc_sorted y_scores) i j threshold x);
      [lia | exact Hi | exact Hj].
Qed.

(** When no later entry reaches the entry at rank [i], exactly [i + 1]
    scores reach it. *)
Lemma positives_exactly (y_scores : list Q) (i : nat) (threshold : Q) :
  nth_error (reversed (np_sort y_scores)) i = Some threshold ->
  (forall j x, (i < j)%nat -> nth_error (reversed (np_sort y_scores)) j = Some x ->
               Qle_bool threshold x = false) ->
  positives (y_pred_of threshold y_scores) = Z.of_nat i + 1.
Proof.
  intros Hi Hafter. rewrite positives_y_pred_of. unfold py_len.
  rewrite (filter_length_perm _ _ _ (Permutation_sym (sorted_desc_perm y_scores))).
  set (d := reversed (np_sort y_scores)) in *.
  assert (Hlen : (i < length d)%nat) by (apply nth_error_Some; congruence).
  rewrite (filter_length_split _ (S i) d).
  pose proof (ranks_before_reach y_scores i threshold Hi) as Hall. fold d in Hall.
  rewrite (filter_all _ _ Hall).
  rewrite filter_nil_key.
  - rewrite List.length_firstn. cbn [length]. lia.
  - intros x Hx. apply In_nth_error in Hx as [j Hj].
    rewrite nth_error_skipn in Hj.
    apply (Hafter (S i + j)%nat x); [lia | exact Hj].
Qed.

(** X2.  When the scores are pairwise different as numbers and the
    index [int(k*n)] lies in [[0, n)], exactly [int(k*n) + 1] entries are
    predicted positive: one more than the [int(k*n)] highest. *)
Theorem precision_at_k_distinct_scores (y_true : list Z) (y_scores : list Q)
        (k : spec_float) (idx : Z) :
  List.NoDup (map Qred y_scores) ->
  float_index k (length y_scores) = Some idx ->
  0 <= idx < py_len y_scores ->
  exists threshold : Q,
    nth_error (reversed (np_sort y_scores)) (Z.to_nat idx) = Some threshold
    /\ precision_at_k y_true y_scores k
       = precision_score y_true (y_pred_of threshold y_scores)
    /\ positives (y_pred_of threshold y_scores) = idx + 1.
Proof.
  intros Hnd Hidx [H0 Hn].
  destruct (precision_at_k_at_rank y_true y_scores k idx Hidx (conj H0 Hn))
    as [thr [Hth Hrun]].
  set (d := reversed (np_sort y_scores)) in *.
  assert (Hlt : (Z.to_nat idx < length d)%nat)
    by (apply nth_error_Some; congruence).
  exists thr. split; [exact Hth|]. split; [exact Hrun|].
  rewrite (positives_exactly y_scores (Z.to_nat idx) thr Hth); [lia|].
  intros j y Hij Hj.
  destruct (Qle_bool thr y) eqn:Hle; [|reflexivity]. exfalso.
  apply Qle_bool_iff in Hle.
  pose proof (ranks_after_below y_scores _ j thr y Hth Hj ltac:(lia)) as Hge.
  assert (Heq : Qred y = Qred thr) by (apply Qred_complete, Qle_antisym; assumption).
  assert (Hnd' : List.NoDup (map Qred d)).
  { eapply Permutation_NoDup; [|exact Hnd].
    apply Permutation_map, Permutation_sym, sorted_desc_perm. }
  rewrite List.NoDup_nth_error in Hnd'.
  assert (Hij' : Z.to_nat idx = j).
  { apply Hnd'.
    - rewrite List.length_map. exact Hlt.
    - rewrite !nth_error_map. fold d in Hj. rewrite Hth, Hj. simpl. congruence. }
  lia.
Qed.

Lemma precision_at_k_distinct_scores_witness :
  List.NoDup (map Qred example_y_scores)
  /\ float_index double_0_3 (length example_y_scores) = Some 3
  /\ 0 <= 3 < py_len example_y_scores
  /\ exists threshold : Q,
    nth_error (reversed (np_sort example_y_scores)) (Z.to_nat 3) = Some threshold
    /\ precision_at_k example_y_true example_y_scores double_0_3
       = precision_score example_y_true (y_pred_of threshold example_y_scores)
    /\ positives (y_pred_of threshold example_y_scores) = 3 + 1.
Proof.
  assert (H1 : List.NoDup (map Qred example_y_scores)).
  { vm_compute. repeat (constructor; [simpl; intuition discriminate|]). constructor. }
  assert (H2 : float_index double_0_3 (length example_y_scores) = Some 3)
    by (vm_compute; reflexivity).
  assert (H3 : 0 <= 3 < py_len example_y_scores)
    by (vm_compute; split; [discriminate | reflexivity]).
  split; [exact H1|]. split; [exact H2|]. split; [exact H3|].
  exact (precision_at_k_distinct_scores example_y_true example_y_scores double_0_3 3
           H1 H2 H3).
Defined.

End PrecisionAtKRanks.

Section PrecisionAtKOrder.
Import Metrics.

(** X3.  A larger [k] never selects fewer entries: for doubles
    [k1 <= k2] with both ranks in range the threshold of [k2] is at most
    that of [k1], every entry predicted positive for [k1] is predicted
    positive for [k2], and the number of predicted positives does not
    decrease. *)
Theorem precision_at_k_more_k_more_positives
        (y_true : list Z) (y_scores : list Q) (k1 k2 : spec_float) (i1 i2 : Z) :
  valid_binary 53 1024 k1 = true -> valid_binary 53 1024 k2 = true ->
  SFleb k1 k2 = true ->
  float_index k1 (length y_scores) = Some i1 ->
  float_index k2 (length y_scores) = Some i2 ->
  0 <= i1 -> i2 < py_len y_scores ->
  exists t1 t2 : Q,
    precision_at_k y_true y_scores k1 = precision_score y_true (y_pred_of t1 y_scores)
    /\ precision_at_k y_true y_scores k2 = precision_score y_true (y_pred_of t2 y_scores)
    /\ (t2 <= t1)%Q
    /\ (forall i, nth_error (y_pred_of t1 y_scores) i = Some 1 ->
                  nth_error (y_pred_of t2 y_scores) i = Some 1)
    /\ positives (y_pred_of t1 y_scores) <= positives (y_pred_of t2 y_scores).
Proof.
  intros V1 V2 Hk Hi1 Hi2 H0 Hn.
  pose proof (float_index_mono k1 k2 (length y_scores) i1 i2 V1 V2 Hk Hi1 Hi2) as Hmono.
  destruct (precision_at_k_at_rank y_true y_scores k1 i1 Hi1 ltac:(lia)) as [t1 [Ht1 Hr1]].
  destruct (precision_at_k_at_rank y_true y_scores k2 i2 Hi2 ltac:(lia)) as [t2 [Ht2 Hr2]].
  exists t1, t2. split; [exact Hr1|]. split; [exact Hr2|].
  assert (Hle : (t2 <= t1)%Q)
    by (apply (ranks_after_below y_scores _ _ t1 t2 Ht1 Ht2); lia).
  split; [exact Hle|]. split.
  - intros i Hi. unfold y_pred_of in *. rewrite nth_error_map in *.
    destruct (nth_error y_scores i) as [s|]; [|discriminate]. simpl in *.
    destruct (Qle_bool t1 s) eqn:H1; [|discriminate].
    assert (H2 : Qle_bool t2 s = true).
    { apply Qle_bool_iff. apply Qle_bool_iff in H1. eapply Qle_trans; eassumption. }
    rewrite H2. reflexivity.
  - rewrite !positives_y_pred_of. unfold py_len.
    apply inj_le, filter_length_impl. intros s _ H1.
    apply Qle_bool_iff. apply Qle_bool_iff in H1. eapply Qle_trans; eassumption.
Qed.

Lemma precision_at_k_more_k_more_positives_witness :
  valid_binary 53 1024 double_0_1 = true
  /\ valid_binary 53 1024 double_0_3 = true
  /\ SFleb double_0_1 double_0_3 = true
  /\ float_index double_0_1 (length example_y_scores) = Some 1
  /\ float_index double_0_3 (length example_y_scores) = Some 3
  /\ 0 <= 1
  /\ 3 < py_len example_y_scores
  /\ exists t1 t2 : Q,
    precision_at_k example_y_true example_y_scores double_0_1
    = precision_score example_y_true (y_pred_of t1 example_y_scores)
    /\ precision_at_k example_y_true example_y_scores double_0_3
       = precision_score example_y_true (y_pred_of t2 example_y_scores)
    /\ (t2 <= t1)%Q
    /\ (forall i, nth_error (y_pred_of t1 example_y_scores) i = Some 1 ->
                  nth_error (y_pred_of t2 example_y_scores) i = Some 1)
    /\ positives (y_pred_of t1 example_y_scores)
       <= positives (y_pred_of t2 example_y_scores).
Proof.
  assert (V1 : valid_binary 53 1024 double_0_1 = true) by reflexivity.
  assert (V2 : valid_binary 53 1024 double_0_3 = true) by reflexivity.
  assert (Hk : SFleb double_0_1 double_0_3 = true) by reflexivity.
  assert (H1 : float_index double_0_1 (length example_y_scores) = Some 1)
    by (vm_compute; reflexivity).
  assert (H2 : float_index double_0_3 (length example_y_scores) = Some 3)
    by (vm_compute; reflexivity).
  assert (H3 : 0 <= 1) by lia.
  assert (H4 : 3 < py_len example_y_scores) by (vm_compute; reflexivity).
  split; [exact V1|]. split; [exact V2|]. split; [exact Hk|].
  split; [exact H1|]. split; [exact H2|]. split; [exact H3|]. split; [exact H4|].
  exact (precision_at_k_more_k_more_positives example_y_true example_y_scores
           double_0_1 double_0_3 1 3 V1 V2 Hk H1 H2 H3 H4).
Defined.

(** X4.  A negative [k] is not rejected.  Its index is the opposite of
    the index of [-k], so it is never positive.  [int] truncates towards
    zero, so a product that rounds to a double in [(-1, 0)] gives index 0
    and the result of [k = 0.0]; an index in [[-n, -1]] counts from the
    end of the descending order, so the threshold is the entry at rank
    [n + int(k*n)]; only an index below [-n] fails. *)
Theorem precision_at_k_negative_k (y_true : list Z) (y_scores : list Q)
        (k : spec_float) (idx : Z) :
  SFltb k (S754_zero false) = true ->
  float_index k (length y_scores) = Some idx ->
  let n := py_len y_scores in
  idx <= 0
  /\ float_index (SFopp k) (length y_scores) = Some (- idx)
  /\ (idx = 0 ->
      precision_at_k y_true y_scores k
      = precision_at_k y_true y_scores (S754_zero false))
  /\ (- n <= idx < 0 ->
      exists threshold : Q,
        nth_error (reversed (np_sort y_scores)) (Z.to_nat (n + idx)) = Some threshold
        /\ precision_at_k y_true y_scores k
           = precision_score y_true (y_pred_of threshold y_scores))
  /\ (idx < - n -> precision_at_k y_true y_scores k = None).
Proof.
  intros Hk Hidx. cbv zeta.
  assert (Hl : py_len (reversed (np_sort y_scores)) = py_len y_scores)
    by (unfold py_len; rewrite sorted_desc_length; reflexivity).
  assert (Hn : 0 <= py_len y_scores) by (unfold py_len; lia).
  split; [|split; [|split; [|split]]].
  - pose proof (float_index_sign k _ idx Hidx) as Hs.
    destruct k as [s|s| |s m e]; try contradiction; [discriminate|].
    destruct s; [exact Hs | discriminate].
  - rewrite float_index_opp, Hidx. reflexivity.
  - intros H0. unfold precision_at_k.
    rewrite Hidx, (float_index_zero k _ idx Hidx), H0. reflexivity.
  - intros [Hlo Hhi].
    assert (Hget : py_getitem (reversed (np_sort y_scores)) idx
                   = nth_error (reversed (np_sort y_scores))
                               (Z.to_nat (py_len y_scores + idx))).
    { unfold py_getitem. destruct (Z.leb_spec 0 idx); [lia|].
      rewrite Hl. destruct (Z.leb_spec (- py_len y_scores) idx); [reflexivity | lia]. }
    assert (Hlt : (Z.to_nat (py_len y_scores + idx)
                   < length (reversed (np_sort y_scores)))%nat).
    { rewrite sorted_desc_length. unfold py_len in *. lia. }
    destruct (nth_error (reversed (np_sort y_scores))
                        (Z.to_nat (py_len y_scores + idx))) as [thr|] eqn:Hth;
      [|apply nth_error_None in Hth; lia].
    exists thr. split; [reflexivity|].
    unfold precision_at_k. rewrite Hidx, Hget. reflexivity.
  - intros Hlo. unfold precision_at_k, py_getitem. rewrite Hidx, Hl.
    destruct (Z.leb_spec 0 idx); [lia|].
    destruct (Z.leb_spec (- py_len y_scores) idx); [lia | reflexivity].
Qed.

Lemma precision_at_k_negative_k_witness :
  SFltb (SFopp double_0_1) (S754_zero false) = true
  /\ float_index (SFopp double_0_1) (length example_y_scores) = Some (-1)
  /\ float_index double_0_1 (length example_y_scores) = Some 1
  /\ exists threshold : Q,
       nth_error (reversed (np_sort example_y_scores))
                 (Z.to_nat (py_len example_y_scores + -1))
       = Some threshold
       /\ precision_at_k example_y_true example_y_scores (SFopp double_0_1)
          = precision_score example_y_true (y_pred_of threshold example_y_scores).
Proof.
  assert (H1 : SFltb (SFopp double_0_1) (S754_zero false) = true) by reflexivity.
  assert (H2 : float_index (SFopp double_0_1) (length example_y_scores) = Some (-1))
    by (vm_compute; reflexivity).
  split; [exact H1|]. split; [exact H2|].
  split; [vm_compute; reflexivity|].
  apply (proj1 (proj2 (proj2 (proj2 (precision_at_k_negative_k example_y_true
                                       example_y_scores (SFopp double_0_1) (-1) H1 H2))))).
  vm_compute. split; [discriminate | reflexivity].
Defined.

(** The double nearest to [-1/3] on three rows: the exact product lies
    in [(-1, 0)], the rounded product is [-1.0] and the index is [-1],
    the last rank.  The double [-0.3] on ten rows: the exact product is
    above [-3], the index is [-3]. *)
Example negative_third_rounds_to_minus_one :
  let k := S754_finite true 6004799503160661 (-54) in
  (-1 < float_value k * inject_Z 3 < 0)%Q
  /\ float_index k 3 = Some (-1)
  /\ (-3 < float_value (SFopp double_0_3) * inject_Z 10)%Q
  /\ float_index (SFopp double_0_3) 10 = Some (-3).
Proof. cbv zeta. repeat split; vm_compute; reflexivity. Qed.

End PrecisionAtKOrder.

Section Baseline.
Import Metrics.

Lemma calc_threshold_binary (x y : Q) : binary (calc_threshold x y).
Proof. unfold calc_threshold. destruct (py_lt x y); [left | right]; reflexivity. Qed.

(** [calc_threshold] answers 1 exactly for a score at or above the cut. *)
Lemma calc_threshold_spec (x y : Q) : calc_threshold x y = 1 <-> (y <= x)%Q.
Proof.
  unfold calc_threshold, py_lt. rewrite <- Qle_bool_iff.
  destruct (Qle_bool y x); simpl; split; intros H; try reflexivity; discriminate.
Qed.

Lemma predicted_binary (y_scores : list Q) : Forall binary (predicted y_scores).
Proof.
  unfold predicted. apply List.Forall_forall. intros t Ht.
  apply in_map_iff in Ht as [s [<- _]]. apply calc_threshold_binary.
Qed.

Lemma Qle_bool_1_inject (b : Z) : binary b -> Qle_bool 1 (inject_Z b) = (1 =? b).
Proof. intros [-> | ->]; reflexivity. Qed.

Lemma positives_inject (preds : list Z) :
  Forall binary preds ->
  positives preds = py_len (List.filter (Qle_bool 1) (map inject_Z preds)).
Proof.
  unfold positives, py_len. intros H. f_equal.
  induction H as [|b l Hb _ IH]; [reflexivity|].
  cbn [map List.filter]. rewrite (Qle_bool_1_inject b Hb).
  destruct (1 =? b); cbn [length]; congruence.
Qed.

(** With threshold 1 the prediction vector is the 0/1 vector itself ... *)
Lemma y_pred_of_one (preds : list Z) :
  Forall binary preds -> y_pred_of 1 (map inject_Z preds) = preds.
Proof.
  unfold y_pred_of. induction 1 as [|b l Hb _ IH]; simpl; [reflexivity|].
  rewrite IH. destruct Hb as [-> | ->]; reflexivity.
Qed.

(** ... and with threshold 0 it is all ones. *)
Lemma y_pred_of_zero (preds : list Z) :
  Forall binary preds -> y_pred_of 0 (map inject_Z preds) = repeat 1 (length preds).
Proof.
  unfold y_pred_of. induction 1 as [|b l Hb _ IH]; simpl; [reflexivity|].
  rewrite IH. destruct Hb as [-> | ->]; reflexivity.
Qed.

Lemma y_pred_of_Qeq (t t' : Q) (y_scores : list Q) :
  (t == t')%Q -> y_pred_of t y_scores = y_pred_of t' y_scores.
Proof.
  intros Heq. unfold y_pred_of. apply map_ext. intros s.
  assert (H : Qle_bool t s = Qle_bool t' s).
  { apply Bool.eq_iff_eq_true. rewrite !Qle_bool_iff, Heq. tauto. }
  rewrite H. reflexivity.
Qed.

(** On a 0/1 score vector the threshold is 1 while the rank is below the
    number of ones, and 0 from there on. *)
Lemma precision_at_k_binary_scores (y_true preds : list Z) (k : spec_float) (idx : Z) :
  Forall binary preds ->
  float_index k (length preds) = Some idx ->
  0 <= idx < py_len preds ->
  (idx < positives preds ->
   precision_at_k y_true (map inject_Z preds) k = precision_score y_true preds)
  /\ (positives preds <= idx ->
      precision_at_k y_true (map inject_Z preds) k
      = precision_score y_true (repeat 1 (length preds))).
Proof.
  intros Hbin Hidx [H0 Hn].
  set (scores := map inject_Z preds).
  assert (Hlen : length scores = length preds)
    by (unfold scores; rewrite List.length_map; reflexivity).
  set (d := reversed (np_sort scores)).
  assert (Hlt : (Z.to_nat idx < length d)%nat).
  { unfold d. rewrite sorted_desc_length, Hlen. unfold py_len in *. lia. }
  destruct (nth_error d (Z.to_nat idx)) as [thr|] eqn:Hth;
    [|apply nth_error_None in Hth; lia].
  assert (Hrun : precision_at_k y_true scores k
                 = precision_score y_true (y_pred_of thr scores)).
  { unfold precision_at_k. rewrite Hlen, Hidx.
    rewrite py_getitem_in_range by exact H0. fold d. rewrite Hth. reflexivity. }
  assert (Hin : In thr scores).
  { eapply Permutation_in; [apply sorted_desc_perm|].
    eapply nth_error_In. exact Hth. }
  apply in_map_iff in Hin as [b [Hb Hinb]].
  assert (Hbb : binary b) by (rewrite List.Forall_forall in Hbin; auto).
  pose proof (positives_at_rank scores _ thr Hth) as Hge.
  rewrite Z2Nat.id in Hge by exact H0.
  assert (Hcount : positives preds
                   = Z.of_nat (length (List.filter (Qle_bool 1) d))).
  { rewrite (positives_inject preds Hbin). unfold py_len. f_equal.
    apply filter_length_perm, Permutation_sym, sorted_desc_perm. }
  destruct Hbb as [-> | ->]; subst thr.
  - (* the threshold is 0: no 1 stands at this rank or after it *)
    assert (Hfew : positives preds <= idx).
    { rewrite Hcount, (filter_length_split _ (Z.to_nat idx) d).
      rewrite (filter_nil_key (Qle_bool 1) (skipn (Z.to_nat idx) d)).
      - pose proof (List.filter_length_le (Qle_bool 1) (firstn (Z.to_nat idx) d)) as Hf.
        rewrite List.length_firstn in Hf. simpl. lia.
      - intros x Hx. apply In_nth_error in Hx as [j Hj].
        rewrite nth_error_skipn in Hj.
        pose proof (ranks_after_below scores _ _ _ x Hth Hj ltac:(lia)) as Hle.
        destruct (Qle_bool 1 x) eqn:H1; [|reflexivity].
        apply Qle_bool_iff in H1. exfalso.
        assert (H10 : (1 <= inject_Z 0)%Q) by (eapply Qle_trans; eassumption).
        vm_compute in H10. apply H10. reflexivity. }
    split; [lia|]. intros _. rewrite Hrun.
    change (inject_Z 0) with 0%Q. unfold scores.
    rewrite (y_pred_of_zero preds Hbin). reflexivity.
  - (* the threshold is 1 *)
    change (inject_Z 1) with 1%Q in *. unfold scores in Hge.
    rewrite (y_pred_of_one preds Hbin) in Hge.
    split; [|lia]. intros _. rewrite Hrun. unfold scores.
    rewrite (y_pred_of_one preds Hbin). reflexivity.
Qed.

(** X5.  The random baseline hands [precision_at_k] a vector of zeros and
    ones as scores.  On fewer than [2^52] rows the index of [k = 0.05]
    is [len // 20]: when more than [len // 20] rows are predicted 1, the
    threshold is 1 and the "precision at 5%" is the plain precision of the
    whole prediction vector; otherwise the threshold is 0, every row is
    selected, and the result is the precision of predicting 1 everywhere. *)
Theorem random_p_at_5_is_plain_precision (expected : list Z) (random_score : list Q) :
  random_score <> [] ->
  py_len random_score < 2 ^ 52 ->
  let random_predicted := predicted random_score in
  let cut := py_len random_score / 20 in
  (cut < positives random_predicted ->
   random_p_at_5 expected random_score = precision_score expected random_predicted)
  /\ (positives random_predicted <= cut ->
      random_p_at_5 expected random_score
      = precision_score expected (repeat 1 (length random_score))).
Proof.
  intros Hne Hsmall. cbv zeta. unfold random_p_at_5.
  assert (Hlen : length (predicted random_score) = length random_score)
    by (unfold predicted; rewrite List.length_map; reflexivity).
  assert (Hn : 0 < py_len random_score)
    by (unfold py_len; destruct random_score; [congruence | simpl; lia]).
  assert (Hidx : float_index double_0_05 (length (predicted random_score))
                 = Some (py_len random_score / 20)).
  { rewrite Hlen. apply float_index_five_percent. exact Hsmall. }
  assert (Hcut : 0 <= py_len random_score / 20 < py_len (predicted random_score)).
  { unfold py_len in *. rewrite Hlen.
    split; [apply Z.div_pos; lia | apply Z.div_lt_upper_bound; lia]. }
  pose proof (precision_at_k_binary_scores expected (predicted random_score)
                double_0_05 _ (predicted_binary random_score) Hidx Hcut) as H.
  rewrite Hlen in H. exact H.
Qed.

Lemma random_p_at_5_is_plain_precision_witness :
  let random_score := [7#10; 2#10; 9#10; 1#10]%Q in
  let expected := [1; 0; 0; 1] in
  random_score <> []
  /\ py_len random_score < 2 ^ 52
  /\ py_len random_score / 20 < positives (predicted random_score)
  /\ random_p_at_5 expected random_score
     = precision_score expected (predicted random_score).
Proof.
  cbv zeta.
  assert (H1 : [7#10; 2#10; 9#10; 1#10]%Q <> []) by discriminate.
  assert (H0 : py_len [7#10; 2#10; 9#10; 1#10]%Q < 2 ^ 52) by (vm_compute; reflexivity).
  assert (H2 : py_len [7#10; 2#10; 9#10; 1#10]%Q / 20
               < positives (predicted [7#10; 2#10; 9#10; 1#10]%Q))
    by (vm_compute; reflexivity).
  split; [exact H1|]. split; [exact H0|]. split; [exact H2|].
  exact (proj1 (random_p_at_5_is_plain_precision [1; 0; 0; 1]
                  [7#10; 2#10; 9#10; 1#10]%Q H1 H0) H2).
Defined.

End Baseline.

Section PopulationShare.
Import Metrics.

Lemma num_above_thresh_range (y_score : list Q) (value : Q) :
  0 <= num_above_thresh y_score value <= py_len y_score.
Proof.
  unfold num_above_thresh, py_len.
  pose proof (List.filter_length_le (Qle_bool value) y_score). lia.
Qed.

(** A higher threshold is reached by fewer scores. *)
Lemma num_above_thresh_antitone (y_score : list Q) (v w : Q) :
  (v <= w)%Q -> num_above_thresh y_score w <= num_above_thresh y_score v.
Proof.
  intros Hvw. unfold num_above_thresh, py_len.
  apply inj_le, filter_length_impl. intros s _ H.
  apply Qle_bool_iff. apply Qle_bool_iff in H. eapply Qle_trans; eassumption.
Qed.

Lemma pct_above_thresh_value (y_score : list Q) (value : Q) :
  y_score <> [] ->
  pct_above_thresh y_score value
  = Some (Qred (num_above_thresh y_score value # Z.to_pos (py_len y_score))).
Proof.
  intros Hne. unfold pct_above_thresh.
  destruct (Z.eqb_spec (py_len y_score) 0) as [H0|_]; [|reflexivity].
  destruct y_score; [congruence | unfold py_len in H0; simpl in H0; lia].
Qed.

Lemma pct_above_per_thresh_map (y_score pr_thresholds : list Q) :
  y_score <> [] ->
  pct_above_per_thresh y_score pr_thresholds
  = Some (map (fun value =>
                 Qred (num_above_thresh y_score value # Z.to_pos (py_len y_score)))
              pr_thresholds).
Proof.
  intros Hne. induction pr_thresholds as [|v l IH]; simpl; [reflexivity|].
  rewrite (pct_above_thresh_value y_score v Hne), IH. reflexivity.
Qed.

Lemma share_le (a b : Z) (n : positive) : a <= b -> (Qred (a # n) <= Qred (b # n))%Q.
Proof.
  intros H. rewrite !Qred_correct. unfold Qle. simpl.
  apply Z.mul_le_mono_nonneg_r; lia.
Qed.

(** X6.  For a non-empty score vector the loop of
    [plot_precision_recall_n] yields one share per threshold, each
    between 0 and 1 and equal to the number of scores at or above the
    threshold over the number of scores; along ascending thresholds the
    shares do not increase. *)
Theorem pct_above_per_thresh_decreasing (y_score pr_thresholds : list Q) :
  y_score <> [] ->
  StronglySorted Qle pr_thresholds ->
  exists pcts : list Q,
    pct_above_per_thresh y_score pr_thresholds = Some pcts
    /\ length pcts = length pr_thresholds
    /\ StronglySorted (fun a b => (b <= a)%Q) pcts
    /\ Forall (fun pct => (0 <= pct <= 1)%Q) pcts
    /\ (forall i value pct,
          nth_error pr_thresholds i = Some value -> nth_error pcts i = Some pct ->
          (pct == positives (y_pred_of value y_score) # Z.to_pos (py_len y_score))%Q).
Proof.
  intros Hne Hs.
  assert (Hn : 0 < py_len y_score)
    by (unfold py_len; destruct y_score; [congruence | simpl; lia]).
  eexists. split; [apply pct_above_per_thresh_map, Hne|].
  split; [apply List.length_map|]. split; [|split].
  - induction Hs as [|v l Hl IH Hv]; simpl; constructor; [exact IH|].
    apply List.Forall_forall. intros q Hq.
    apply in_map_iff in Hq as [w [<- Hw]].
    rewrite List.Forall_forall in Hv.
    apply share_le, num_above_thresh_antitone, Hv, Hw.
  - apply List.Forall_forall. intros q Hq.
    apply in_map_iff in Hq as [w [<- _]].
    rewrite Qred_correct. apply ratio_in_unit; [|exact Hn].
    apply num_above_thresh_range.
  - intros i value pct Hv Hp.
    rewrite nth_error_map, Hv in Hp. injection Hp as <-.
    rewrite Qred_correct, positives_y_pred_of. reflexivity.
Qed.

Lemma pct_above_per_thresh_decreasing_witness :
  example_y_scores <> []
  /\ StronglySorted Qle [5#10; 6#10; 7#10]%Q
  /\ exists pcts : list Q,
    pct_above_per_thresh example_y_scores [5#10; 6#10; 7#10]%Q = Some pcts
    /\ length pcts = 3%nat
    /\ StronglySorted (fun a b => (b <= a)%Q) pcts
    /\ Forall (fun pct => (0 <= pct <= 1)%Q) pcts
    /\ (forall i value pct,
          nth_error [5#10; 6#10; 7#10]%Q i = Some value -> nth_error pcts i = Some pct ->
          (pct == positives (y_pred_of value example_y_scores)
                  # Z.to_pos (py_len example_y_scores))%Q).
Proof.
  assert (H1 : example_y_scores <> []) by discriminate.
  assert (H2 : StronglySorted Qle [5#10; 6#10; 7#10]%Q).
  { repeat (constructor; [|repeat (constructor; [vm_compute; discriminate|]); constructor]).
    constructor. }
  split; [exact H1|]. split; [exact H2|].
  exact (pct_above_per_thresh_decreasing example_y_scores [5#10; 6#10; 7#10]%Q H1 H2).
Defined.

Example pct_above_per_thresh_empty_scores :
  pct_above_per_thresh [] [5#10]%Q = None /\ pct_above_per_thresh [] [] = Some [].
Proof. split; reflexivity. Qed.

End PopulationShare.

(** ** Rankings *)

Lemma nth_error_ext {A : Type} (l l' : list A) :
  (forall i, nth_error l i = nth_error l' i) -> l = l'.
Proof.
  revert l'. induction l as [|x l IH]; intros [|y l'] H.
  - reflexivity.
  - specialize (H 0%nat). discriminate.
  - specialize (H 0%nat). discriminate.
  - pose proof (H 0%nat) as H0. injection H0 as ->. f_equal.
    apply IH. intros i. exact (H (S i)).
Qed.

Lemma StronglySorted_map {A B : Type} (R : B -> B -> Prop) (f : A -> B) (l : list A) :
  StronglySorted (fun x y => R (f x) (f y)) l -> StronglySorted R (map f l).
Proof.
  induction 1 as [|x l Hl IH Hx]; simpl; constructor; [exact IH|].
  apply List.Forall_forall. intros y Hy. apply in_map_iff in Hy as [z [<- Hz]].
  rewrite List.Forall_forall in Hx. apply Hx, Hz.
Qed.

Section RankingFacts.
Import Metrics Ranking.

Lemma sequence_opt_map_seq {A : Type} (g : nat -> option A) (h : nat -> A) (n : nat) :
  forall s, (forall f, (s <= f < s + n)%nat -> g f = Some (h f)) ->
            sequence_opt (map g (seq s n)) = Some (map h (seq s n)).
Proof.
  induction n as [|n IH]; intros s H; simpl; [reflexivity|].
  rewrite (H s) by lia. rewrite (IH (S s)) by (intros f Hf; apply H; lia).
  reflexivity.
Qed.

Lemma sequence_opt_all {A : Type} (l : list A) : sequence_opt (map Some l) = Some l.
Proof. induction l as [|x l IH]; simpl; [|rewrite IH]; reflexivity. Qed.

Lemma enumerate_from_In {A : Type} (a : list A) :
  forall s i x, In (i, x) (combine (seq s (length a)) a) ->
                (s <= i)%nat /\ nth_error a (i - s) = Some x.
Proof.
  induction a as [|y a IH]; intros s i x Hin; simpl in Hin; [destruct Hin|].
  destruct Hin as [Heq|Hin].
  - injection Heq as <- <-. rewrite Nat.sub_diag. split; [lia | reflexivity].
  - apply IH in Hin as [Hs Hn]. split; [lia|].
    replace (i - s)%nat with (S (i - S s)) by lia. exact Hn.
Qed.

Lemma enumerate_In {A : Type} (a : list A) (i : nat) (x : A) :
  In (i, x) (enumerate a) -> nth_error a i = Some x.
Proof.
  intros H. apply enumerate_from_In in H as [_ H].
  rewrite Nat.sub_0_r in H. exact H.
Qed.

Lemma enumerate_from_fst {A : Type} (a : list A) :
  forall s, map fst (combine (seq s (length a)) a) = seq s (length a).
Proof. induction a as [|y a IH]; intros s; simpl; [|rewrite IH]; reflexivity. Qed.

Lemma enumerate_from_snd {A : Type} (a : list A) :
  forall s, map snd (combine (seq s (length a)) a) = a.
Proof. induction a as [|y a IH]; intros s; simpl; [|rewrite IH]; reflexivity. Qed.

Lemma value_leb_total (x y : nat * Q) : value_leb x y = true \/ value_leb y x = true.
Proof. apply Qle_bool_total. Qed.

Lemma value_leb_trans (x y z : nat * Q) :
  value_leb x y = true -> value_leb y z = true -> value_leb x z = true.
Proof. apply Qle_bool_trans. Qed.

(** [np.argsort(a)[::-1]] lists the positions of [a] by descending entry:
    it is the first column of a rearrangement of the (position, entry)
    pairs whose entries descend. *)
Lemma ranked (a : list Q) :
  exists rp : list (nat * Q),
    reversed (argsort a) = map fst rp
    /\ Permutation rp (enumerate a)
    /\ StronglySorted (fun x y => (snd y <= snd x)%Q) rp.
Proof.
  exists (rev (sort_by value_leb (enumerate a))). split; [|split].
  - unfold reversed, argsort. symmetry. apply List.map_rev.
  - eapply Permutation_trans; [apply Permutation_sym, Permutation_rev|].
    apply sort_by_perm.
  - apply (StronglySorted_rev (fun x y => (snd x <= snd y)%Q)).
    pose proof (sort_by_sorted value_leb value_leb_total value_leb_trans (enumerate a))
      as Hs.
    induction Hs as [|x l _ IH Hx]; constructor; [exact IH|].
    eapply List.Forall_impl; [|exact Hx].
    intros y Hy. apply Qle_bool_iff, Hy.
Qed.

Lemma ranked_length (a : list Q) (rp : list (nat * Q)) :
  Permutation rp (enumerate a) -> length rp = length a.
Proof.
  intros Hp. rewrite (Permutation_length Hp). unfold enumerate.
  rewrite <- (List.length_map snd), enumerate_from_snd. reflexivity.
Qed.

Lemma ranked_lookup (a : list Q) (rp : list (nat * Q)) (p : nat * Q) :
  Permutation rp (enumerate a) -> In p rp -> nth_error a (fst p) = Some (snd p).
Proof.
  intros Hp Hin. apply enumerate_In.
  destruct p as [i x]. eapply Permutation_in; eassumption.
Qed.

Lemma ranked_values_perm (a : list Q) (rp : list (nat * Q)) :
  Permutation rp (enumerate a) -> Permutation (map snd rp) a.
Proof.
  intros Hp. eapply Permutation_trans; [apply Permutation_map, Hp|].
  unfold enumerate. rewrite enumerate_from_snd. apply Permutation_refl.
Qed.

Lemma ranked_positions_perm (a : list Q) (rp : list (nat * Q)) :
  Permutation rp (enumerate a) -> Permutation (map fst rp) (seq 0 (length a)).
Proof.
  intros Hp. eapply Permutation_trans; [apply Permutation_map, Hp|].
  unfold enumerate. rewrite enumerate_from_fst. apply Permutation_refl.
Qed.

End RankingFacts.

Lemma map_nth_seq {A B : Type} (g : A -> B) (l : list A) (d : A) :
  map (fun f => g (nth f l d)) (seq 0 (length l)) = map g l.
Proof.
  apply nth_error_ext. intros i.
  rewrite !nth_error_map, nth_error_seq.
  destruct (Nat.ltb_spec i (length l)) as [Hlt|Hge]; simpl.
  - rewrite (nth_error_nth' l d Hlt). reflexivity.
  - apply nth_error_None in Hge. rewrite Hge. reflexivity.
Qed.

Lemma StronglySorted_app_inv {A : Type} (R : A -> A -> Prop) (l1 l2 : list A) :
  StronglySorted R (l1 ++ l2) ->
  forall x y, In x l1 -> In y l2 -> R x y.
Proof.
  induction l1 as [|z l1 IH]; intros Hs x y Hx Hy; [destruct Hx|].
  simpl in Hs. inversion Hs as [|? ? Hl Hz]; subst.
  destruct Hx as [->|Hx].
  - rewrite List.Forall_forall in Hz. apply Hz, in_or_app. right. exact Hy.
  - eapply IH; eassumption.
Qed.

Lemma StronglySorted_Qeq (l l' : list Q) :
  Forall2 Qeq l l' ->
  StronglySorted (fun a b => (b <= a)%Q) l -> StronglySorted (fun a b => (b <= a)%Q) l'.
Proof.
  induction 1 as [|x y l l' Hxy Hl IH]; intros Hs; [constructor|].
  inversion Hs as [|? ? Hs' Hx]; subst. constructor; [apply IH, Hs'|].
  clear IH Hs Hs'. induction Hl as [|a b l l' Hab _ IH]; [constructor|].
  inversion Hx as [|? ? Ha Hx']; subst.
  constructor; [rewrite <- Hab, <- Hxy; exact Ha | apply IH, Hx'].
Qed.

Section FeatureRanking.
Import Metrics Ranking.

(** X7.  The feature ranking prints, on line [f], the number [f + 1], the
    [f]-th feature name in the original order and the [f]-th largest
    importance: the names are not reordered with the importances.  So the
    value on a line is the importance of the feature named there, on
    every line, only if the importances were in descending order to
    begin with. *)
Theorem feature_ranking_names_by_position
        (sel_features : list string) (importances : list Q) :
  length importances = length sel_features ->
  exists lines : list (Z * string * Q),
    feature_ranking sel_features importances = Some lines
    /\ map (fun l => fst (fst l)) lines
       = map (fun f => Z.of_nat f + 1) (seq 0 (length sel_features))
    /\ map (fun l => snd (fst l)) lines = sel_features
    /\ Permutation (map snd lines) importances
    /\ StronglySorted (fun a b => (b <= a)%Q) (map snd lines)
    /\ (Forall2 Qeq (map snd lines) importances ->
        StronglySorted (fun a b => (b <= a)%Q) importances).
Proof.
  intros Hlen.
  destruct (ranked importances) as [rp [Hidx [Hperm Hsorted]]].
  pose proof (ranked_length importances rp Hperm) as Hrp.
  set (h := fun f : nat => (Z.of_nat f + 1, nth f sel_features ""%string,
                            snd (nth f rp (0%nat, 0%Q)))).
  assert (Hlines : feature_ranking sel_features importances
                   = Some (map h (seq 0 (length sel_features)))).
  { unfold feature_ranking. apply sequence_opt_map_seq. intros f [_ Hf].
    simpl in Hf. unfold ranking_line.
    rewrite (nth_error_nth' sel_features ""%string Hf).
    rewrite Hidx, nth_error_map.
    assert (Hf' : (f < length rp)%nat) by lia.
    rewrite (nth_error_nth' rp (0%nat, 0%Q) Hf'). simpl.
    rewrite (ranked_lookup importances rp _ Hperm (nth_In rp (0%nat, 0%Q) Hf')).
    reflexivity. }
  assert (Hvals : map snd (map h (seq 0 (length sel_features))) = map snd rp).
  { rewrite List.map_map. unfold h. simpl.
    rewrite <- Hlen, <- Hrp. apply (map_nth_seq snd rp). }
  exists (map h (seq 0 (length sel_features))).
  split; [exact Hlines|]. split; [|split; [|split; [|split]]].
  - rewrite List.map_map. reflexivity.
  - rewrite List.map_map. unfold h. simpl.
    etransitivity; [apply (map_nth_seq (fun x => x) sel_features ""%string)|].
    apply List.map_id.
  - rewrite Hvals. apply ranked_values_perm, Hperm.
  - rewrite Hvals. apply StronglySorted_map, Hsorted.
  - intros Heq. apply (StronglySorted_Qeq _ _ Heq).
    rewrite Hvals. apply StronglySorted_map, Hsorted.
Qed.

Lemma feature_ranking_names_by_position_witness :
  let sel_features := ["num_admits"; "length_longest_sentence"; "age_first_admit"; "age"]%string in
  let importances := [1#10; 6#10; 1#20; 1#4]%Q in
  length importances = length sel_features
  /\ feature_ranking sel_features importances
     = Some [(1, "num_admits"%string, (6#10)%Q);
             (2, "length_longest_sentence"%string, (1#4)%Q);
             (3, "age_first_admit"%string, (1#10)%Q); (4, "age"%string, (1#20)%Q)]
  /\ exists lines : list (Z * string * Q),
    feature_ranking sel_features importances = Some lines
    /\ map (fun l => snd (fst l)) lines = sel_features
    /\ StronglySorted (fun a b => (b <= a)%Q) (map snd lines).
Proof.
  cbv zeta.
  assert (H : length [1#10; 6#10; 1#20; 1#4]%Q
              = length ["num_admits"; "length_longest_sentence"; "age_first_admit";
                        "age"]%string) by reflexivity.
  split; [exact H|]. split; [vm_compute; reflexivity|].
  destruct (feature_ranking_names_by_position _ _ H)
    as [lines [H1 [_ [H3 [_ [H5 _]]]]]].
  exists lines. split; [exact H1|]. split; [exact H3 | exact H5].
Defined.

End FeatureRanking.

Section Keywords.
Import Metrics Ranking.

Lemma sequence_opt_lookups {A B : Type} (g : A -> option B) (l : list A) :
  (forall i, In i l -> exists x, g i = Some x) ->
  exists xs, sequence_opt (map g l) = Some xs /\ map Some xs = map g l.
Proof.
  induction l as [|i l IH]; intros H; simpl.
  - exists []. split; reflexivity.
  - destruct (H i (or_introl eq_refl)) as [x Hx].
    destruct IH as [xs [Hs Hm]]; [intros j Hj; apply H; right; exact Hj|].
    exists (x :: xs). rewrite Hx, Hs. simpl. rewrite Hm. split; reflexivity.
Qed.

Lemma In_firstn_to_In {A : Type} (n : nat) (l : list A) (x : A) :
  In x (firstn n l) -> In x l.
Proof.
  intros H. rewrite <- (firstn_skipn n l). apply in_or_app. left. exact H.
Qed.

Lemma In_skipn_to_In {A : Type} (n : nat) (l : list A) (x : A) :
  In x (skipn n l) -> In x l.
Proof.
  intros H. rewrite <- (firstn_skipn n l). apply in_or_app. right. exact H.
Qed.

Lemma NoDup_firstn {A : Type} (n : nat) (l : list A) :
  List.NoDup l -> List.NoDup (firstn n l).
Proof.
  intros H. rewrite <- (firstn_skipn n l) in H.
  eapply List.NoDup_app_remove_r. exact H.
Qed.

(** X8.  The keywords of a topic are the feature names at the positions
    of its [top] largest weights, the largest first: the positions are
    distinct, no position left out holds a larger weight than one that is
    listed, a position listed earlier holds a weight at least as large as
    one listed later, and with a name for every weight the lookup cannot
    fail. *)
Theorem keyword_list_top_weights (top : nat) (features : list string) (topic : list Q) :
  length features = length topic ->
  exists ws : list string,
    keyword_list top features topic = Some ws
    /\ keywords top features topic = Some (String.concat ", " ws)
    /\ length ws = Nat.min top (length topic)
    /\ map Some ws = map (nth_error features) (word_idx top topic)
    /\ List.NoDup (word_idx top topic)
    /\ (forall i, In i (word_idx top topic) -> (i < length topic)%nat)
    /\ (forall i j wi wj,
          In i (word_idx top topic) -> ~ In j (word_idx top topic) ->
          nth_error topic i = Some wi -> nth_error topic j = Some wj ->
          (wj <= wi)%Q)
    /\ (forall a b i j wi wj,
          (a < b)%nat ->
          nth_error (word_idx top topic) a = Some i ->
          nth_error (word_idx top topic) b = Some j ->
          nth_error topic i = Some wi -> nth_error topic j = Some wj ->
          (wj <= wi)%Q).
Proof.
  intros Hlen.
  destruct (ranked topic) as [rp [Hidx [Hperm Hsorted]]].
  pose proof (ranked_length topic rp Hperm) as Hrp.
  pose proof (ranked_positions_perm topic rp Hperm) as Hpos.
  assert (Hw : word_idx top topic = map fst (firstn top rp)).
  { unfold word_idx. rewrite Hidx. apply firstn_map. }
  assert (Hrange : forall i, In i (word_idx top topic) -> (i < length topic)%nat).
  { intros i Hi. rewrite Hw in Hi. apply in_map_iff in Hi as [p [<- Hp]].
    assert (Hin : In (fst p) (seq 0 (length topic))).
    { eapply Permutation_in; [exact Hpos|].
      apply in_map. eapply (In_firstn_to_In top). exact Hp. }
    apply in_seq in Hin. lia. }
  destruct (sequence_opt_lookups (nth_error features) (word_idx top topic)) as [ws [Hs Hm]].
  { intros i Hi. apply Hrange in Hi. rewrite <- Hlen in Hi.
    destruct (nth_error features i) eqn:E; [eauto|].
    apply nth_error_None in E. lia. }
  exists ws. split; [exact Hs|].
  split; [unfold keywords, keyword_list in *; rewrite Hs; reflexivity|].
  split.
  { assert (Hl : length (map Some ws) = length (map (nth_error features)
                                                     (word_idx top topic)))
      by (rewrite Hm; reflexivity).
    rewrite !List.length_map in Hl. rewrite Hl, Hw, List.length_map, List.length_firstn.
    lia. }
  split; [exact Hm|]. split.
  { unfold word_idx. rewrite Hidx. apply NoDup_firstn.
    eapply Permutation_NoDup; [apply Permutation_sym, Hpos | apply seq_NoDup]. }
  split; [exact Hrange|].
  split; cycle 1.
  { (* the order of the listing *)
    intros a b i j wi wj Hab Ha Hb Hwi Hwj.
    rewrite Hw, nth_error_map in Ha, Hb.
    destruct (nth_error (firstn top rp) a) as [p|] eqn:Hp; [|discriminate].
    destruct (nth_error (firstn top rp) b) as [q|] eqn:Hq; [|discriminate].
    cbn [option_map] in Ha, Hb. injection Ha as Hpi. injection Hb as Hqj.
    assert (Hpin : In p rp) by (eapply In_firstn_to_In, nth_error_In; exact Hp).
    assert (Hqin : In q rp) by (eapply In_firstn_to_In, nth_error_In; exact Hq).
    rewrite nth_error_firstn in Hp, Hq.
    destruct (Nat.ltb_spec a top); [|discriminate].
    destruct (Nat.ltb_spec b top); [|discriminate].
    pose proof (StronglySorted_nth_error _ rp Hsorted a b p q Hab Hp Hq) as Hle.
    pose proof (ranked_lookup topic rp p Hperm Hpin) as Hpv.
    pose proof (ranked_lookup topic rp q Hperm Hqin) as Hqv.
    rewrite Hpi, Hwi in Hpv. rewrite Hqj, Hwj in Hqv.
    injection Hpv as ->. injection Hqv as ->. exact Hle. }
  intros i j wi wj Hi Hj Hwi Hwj.
  rewrite Hw in Hi, Hj. apply in_map_iff in Hi as [p [Hpi Hp]].
  assert (Hjn : (j < length topic)%nat) by (apply nth_error_Some; congruence).
  assert (Hjin : In j (map fst rp)).
  { eapply Permutation_in; [apply Permutation_sym, Hpos|]. apply in_seq. lia. }
  apply in_map_iff in Hjin as [q [Hqj Hq]].
  rewrite <- (firstn_skipn top rp) in Hq. apply in_app_or in Hq as [Hq|Hq].
  { exfalso. apply Hj. apply in_map_iff. exists q. auto. }
  rewrite <- (firstn_skipn top rp) in Hsorted.
  pose proof (StronglySorted_app_inv _ _ _ Hsorted p q Hp Hq) as Hle.
  assert (Hpv : nth_error topic (fst p) = Some (snd p)).
  { apply (ranked_lookup topic rp p Hperm). eapply In_firstn_to_In. exact Hp. }
  assert (Hqv : nth_error topic (fst q) = Some (snd q)).
  { apply (ranked_lookup topic rp q Hperm). eapply In_skipn_to_In. exact Hq. }
  rewrite Hpi, Hwi in Hpv. rewrite Hqj, Hwj in Hqv.
  injection Hpv as ->. injection Hqv as ->. exact Hle.
Qed.

Lemma keyword_list_top_weights_witness :
  let features := ["cell"; "method"; "signal"; "layer"]%string in
  let topic := [3#10; 9#10; 1#10; 5#10]%Q in
  length features = length topic
  /\ keywords 2 features topic = Some "method, layer"%string
  /\ exists ws : list string,
       keyword_list 2 features topic = Some ws
       /\ length ws = Nat.min 2 (length topic)
       /\ List.NoDup (word_idx 2 topic).
Proof.
  cbv zeta.
  assert (H : length ["cell"; "method"; "signal"; "layer"]%string
              = length [3#10; 9#10; 1#10; 5#10]%Q) by reflexivity.
  split; [exact H|]. split; [vm_compute; reflexivity|].
  destruct (keyword_list_top_weights 2 _ _ H) as [ws [H1 [_ [H3 [_ [H5 _]]]]]].
  exists ws. split; [exact H1|]. split; [exact H3 | exact H5].
Defined.

End Keywords.

Section ModelLoop.
Import Metrics.

Lemma py_lt_spec (x y : Q) : py_lt x y = true <-> (x < y)%Q.
Proof.
  unfold py_lt. rewrite Bool.negb_true_iff. split.
  - intros H. apply Qnot_le_lt. intros Hle. apply Qle_bool_iff in Hle. congruence.
  - intros H. destruct (Qle_bool y x) eqn:E; [|reflexivity].
    apply Qle_bool_iff in E. exfalso. apply (Qlt_not_le _ _ H E).
Qed.

Lemma max_p_at_k_from_spec (expected : list Z) (y_score_per_clf : list (list Q)) :
  forall start m,
    max_p_at_k_from start expected y_score_per_clf = Some m ->
    (start <= m)%Q
    /\ (forall y_score, In y_score y_score_per_clf ->
          exists p, precision_at_k expected y_score double_0_05 = Some p /\ (p <= m)%Q)
    /\ (m = start
        \/ exists y_score, In y_score y_score_per_clf
                           /\ precision_at_k expected y_score double_0_05 = Some m).
Proof.
  induction y_score_per_clf as [|y l IH]; intros start m H; simpl in H.
  - injection H as <-. split; [apply Qle_refl|]. split; [intros ? []|]. left. reflexivity.
  - destruct (precision_at_k expected y double_0_05) as [p|] eqn:Hp; [|discriminate].
    apply IH in H as [Hle [Hall Hatt]].
    destruct (py_lt start p) eqn:Hlt.
    + apply py_lt_spec in Hlt. split; [|split].
      * apply Qlt_le_weak. eapply Qlt_le_trans; eassumption.
      * intros y' [<-|Hy']; [exists p; auto | apply Hall, Hy'].
      * right. destruct Hatt as [->|[y' [Hy' Hm]]].
        -- exists y. split; [left; reflexivity | exact Hp].
        -- exists y'. split; [right; exact Hy' | exact Hm].
    + assert (Hge : (p <= start)%Q).
      { apply Qnot_lt_le. intros Hc. apply py_lt_spec in Hc. congruence. }
      split; [exact Hle|]. split.
      * intros y' [<-|Hy']; [|apply Hall, Hy'].
        exists p. split; [exact Hp | eapply Qle_trans; eassumption].
      * destruct Hatt as [->|[y' [Hy' Hm]]]; [left; reflexivity|].
        right. exists y'. split; [right; exact Hy' | exact Hm].
Qed.

(** X9.  When the model comparison loop runs to its end, every
    classifier's precision at 5% was computed and [max_p_at_k] is the
    largest of them (or the initial 0 when there is no classifier): it
    bounds each of them, it is attained by one of them, and it lies
    between 0 and 1. *)
Theorem max_p_at_k_is_maximum (expected : list Z) (y_score_per_clf : list (list Q))
        (m : Q) :
  max_p_at_k expected y_score_per_clf = Some m ->
  (forall y_score, In y_score y_score_per_clf ->
     exists p, precision_at_k expected y_score double_0_05 = Some p /\ (p <= m)%Q)
  /\ ((y_score_per_clf = [] /\ m = 0%Q)
      \/ exists y_score, In y_score y_score_per_clf
                         /\ exists p, precision_at_k expected y_score double_0_05 = Some p
                                      /\ (p == m)%Q)
  /\ (0 <= m <= 1)%Q.
Proof.
  unfold max_p_at_k. intros H.
  destruct (max_p_at_k_from_spec expected y_score_per_clf 0 m H) as [H0 [Hall Hatt]].
  split; [exact Hall|].
  assert (Hsome : y_score_per_clf <> [] ->
                  exists y_score, In y_score y_score_per_clf
                    /\ exists p, precision_at_k expected y_score double_0_05 = Some p
                                 /\ (p == m)%Q).
  { intros Hne. destruct Hatt as [->|[y [Hy Hm]]].
    - destruct y_score_per_clf as [|y l]; [congruence|].
      destruct (Hall y (or_introl eq_refl)) as [p [Hp Hle]].
      exists y. split; [left; reflexivity|]. exists p. split; [exact Hp|].
      apply Qle_antisym; [exact Hle|].
      exact (proj1 (precision_at_k_in_unit _ _ _ _ Hp)).
    - exists y. split; [exact Hy|]. exists m. split; [exact Hm | reflexivity]. }
  split.
  - destruct y_score_per_clf as [|y l].
    + left. split; [reflexivity|]. simpl in H. injection H as <-. reflexivity.
    + right. apply Hsome. discriminate.
  - split; [exact H0|].
    destruct Hatt as [->|[y [Hy Hm]]]; [discriminate|].
    exact (proj2 (precision_at_k_in_unit _ _ _ _ Hm)).
Qed.

Lemma max_p_at_k_is_maximum_witness :
  let scores1 := example_y_scores in
  let scores2 := [1#10; 2#10; 3#10; 4#10; 5#10; 6#10; 7#10; 8#10; 9#10; 95#100]%Q in
  max_p_at_k example_y_true [scores1; scores2] = Some 1%Q
  /\ (forall y_score, In y_score [scores1; scores2] ->
        exists p, precision_at_k example_y_true y_score double_0_05 = Some p /\ (p <= 1)%Q).
Proof.
  cbv zeta.
  assert (H : max_p_at_k example_y_true
                [example_y_scores;
                 [1#10; 2#10; 3#10; 4#10; 5#10; 6#10; 7#10; 8#10; 9#10; 95#100]%Q]
              = Some 1%Q) by (vm_compute; reflexivity).
  split; [exact H|].
  exact (proj1 (max_p_at_k_is_maximum _ _ _ H)).
Defined.

End ModelLoop.

(** ** More on the label builder *)

Section CalendarMonths.
Import Calendar.

Lemma days_in_month_range (y m : Z) : 28 <= days_in_month y m <= 31.
Proof.
  unfold days_in_month.
  destruct (m =? 2); [destruct (is_leap y); lia|].
  destruct ((m =? 4) || (m =? 6) || (m =? 9) || (m =? 11)); lia.
Qed.

Lemma valid_date_spec (d : date) :
  valid_date d = true <->
  1 <= month d <= 12 /\ 1 <= day d <= days_in_month (year d) (month d).
Proof.
  unfold valid_date. rewrite !Bool.andb_true_iff, !Z.leb_le. tauto.
Qed.

(** Moving a date of the calendar by months gives a date of the calendar. *)
Lemma add_months_valid (d : date) (n : Z) :
  valid_date d = true -> valid_date (add_months d n) = true.
Proof.
  rewrite !valid_date_spec. intros [Hm Hd]. unfold add_months. simpl.
  set (idx := year d * 12 + (month d - 1) + n).
  pose proof (Z.mod_pos_bound idx 12 ltac:(lia)) as Hr.
  pose proof (days_in_month_range (idx / 12) (idx mod 12 + 1)) as Hdim.
  split; lia.
Qed.

(** Moving forward never gives an earlier date, moving backward never a
    later one. *)
Lemma add_months_forward (d : date) (n : Z) :
  valid_date d = true -> 0 <= n -> date_leb d (add_months d n) = true.
Proof.
  rewrite valid_date_spec. intros [Hm Hd] Hn.
  apply date_leb_spec. unfold add_months.
  set (idx := year d * 12 + (month d - 1) + n).
  pose proof (Z.div_mod idx 12 ltac:(lia)) as Hdiv.
  pose proof (Z.mod_pos_bound idx 12 ltac:(lia)) as Hr.
  destruct (Z.eq_dec n 0) as [->|Hpos].
  - right. assert (Hy : idx / 12 = year d) by (unfold idx in *; lia).
    assert (Hmo : idx mod 12 + 1 = month d) by (unfold idx in *; lia).
    rewrite Hy, Hmo, Z.min_l by lia. destruct d; reflexivity.
  - left. apply date_ltb_spec. simpl. unfold idx in *.
    destruct (Z.lt_trichotomy (year d) ((year d * 12 + (month d - 1) + n) / 12))
      as [?|[?|?]]; lia.
Qed.

Lemma add_months_backward (d : date) (n : Z) :
  valid_date d = true -> n <= 0 -> date_leb (add_months d n) d = true.
Proof.
  rewrite valid_date_spec. intros [Hm Hd] Hn.
  apply date_leb_spec. unfold add_months.
  set (idx := year d * 12 + (month d - 1) + n).
  pose proof (Z.div_mod idx 12 ltac:(lia)) as Hdiv.
  pose proof (Z.mod_pos_bound idx 12 ltac:(lia)) as Hr.
  destruct (Z.eq_dec n 0) as [->|Hneg].
  - right. assert (Hy : idx / 12 = year d) by (unfold idx in *; lia).
    assert (Hmo : idx mod 12 + 1 = month d) by (unfold idx in *; lia).
    rewrite Hy, Hmo, Z.min_l by lia. destruct d; reflexivity.
  - left. apply date_ltb_spec. simpl. unfold idx in *.
    destruct (Z.lt_trichotomy (year d) ((year d * 12 + (month d - 1) + n) / 12))
      as [?|[?|?]]; lia.
Qed.

Lemma parse_date_valid (s : string) (d : date) :
  parse_date s = Some d -> valid_date d = true.
Proof.
  unfold parse_date. intros H.
  destruct (fields EmptyString s) as [|y [|m [|dd [|? ?]]]]; try discriminate.
  destruct (field_number y) as [y'|]; [|discriminate].
  destruct (field_number m) as [m'|]; [|discriminate].
  destruct (field_number dd) as [d'|]; [|discriminate].
  destruct (valid_date (mkDate y' m' d')) eqn:Hv; [|discriminate].
  injection H as <-. exact Hv.
Qed.

Lemma date_lt_le_trans (a b c : date) :
  date_ltb a b = true -> date_leb b c = true -> date_ltb a c = true.
Proof.
  intros H1 H2. apply date_leb_spec in H2 as [H2| <-]; [|exact H1].
  eapply date_ltb_trans; eassumption.
Qed.

Lemma date_le_lt_trans (a b c : date) :
  date_leb a b = true -> date_ltb b c = true -> date_ltb a c = true.
Proof.
  intros H1 H2. apply date_leb_spec in H1 as [H1| ->]; [|exact H2].
  eapply date_ltb_trans; eassumption.
Qed.

End CalendarMonths.

Section LabelRuns.
Import Calendar Labels.

(** A successful call either reused the stored table or ran the script on
    a prediction date that parses. *)
Lemma generate_labels_cases
      (preddate : string) (months_off months_back months_ahead : Z)
      (schema : string) (overwrite : bool) (db db' : database) (t : list label_row) :
  generate_labels preddate months_off months_back months_ahead schema overwrite db
  = Some (t, db') ->
  (overwrite = false
   /\ tables db !! (schema, labels_table (remove_dashes preddate)) = Some t
   /\ db' = db)
  \/ (exists d, parse_date preddate = Some d
                /\ (tables db !! (schema, labels_table (remove_dashes preddate)) = None
                    \/ overwrite = true)
                /\ t = build_labels d months_off months_back months_ahead (ind_spells db)
                /\ db' = mkDb (ind_spells db)
                              (<[(schema, labels_table (remove_dashes preddate)) := t]>
                                 (tables db))).
Proof.
  intros Hrun.
  destruct (tables db !! (schema, labels_table (remove_dashes preddate)))
    as [existing|] eqn:Hex; [destruct overwrite|].
  - right. destruct (generate_labels_overwrite_inv _ _ _ _ _ _ _ _ Hrun) as [d Hd].
    rewrite (generate_labels_builds _ _ _ _ _ true d db Hd (or_intror eq_refl)) in Hrun.
    injection Hrun as <- <-. exists d. auto.
  - left. rewrite (generate_labels_reuses _ _ _ _ _ existing db Hex) in Hrun.
    injection Hrun as <- <-. auto.
  - right. destruct (parse_date preddate) as [d|] eqn:Hd.
    + rewrite (generate_labels_builds _ _ _ _ _ overwrite d db Hd (or_introl Hex)) in Hrun.
      injection Hrun as <- <-. exists d. auto.
    + exfalso. revert Hrun.
      unfold generate_labels, bind, pg_tables_rowcount. cbv zeta.
      try rewrite Hex. cbn [Z.eqb orb].
      rewrite (labels_sql_fails _ _ _ _ _ db Hd). discriminate.
Qed.

(** The table a successful call leaves under its own name holds the rows
    it returned. *)
Lemma generate_labels_stores
      (preddate : string) (months_off months_back months_ahead : Z)
      (schema : string) (overwrite : bool) (db db' : database) (t : list label_row) :
  generate_labels preddate months_off months_back months_ahead schema overwrite db
  = Some (t, db') ->
  tables db' !! (schema, labels_table (remove_dashes preddate)) = Some t.
Proof.
  intros Hrun.
  destruct (generate_labels_cases _ _ _ _ _ _ _ _ _ Hrun)
    as [[_ [Hex ->]] | [d [_ [_ [_ ->]]]]]; [exact Hex|].
  cbn [tables]. apply lookup_insert_eq.
Qed.

(** Tables of other names are as they were. *)
Lemma generate_labels_other_tables
      (preddate : string) (months_off months_back months_ahead : Z)
      (schema : string) (overwrite : bool) (db db' : database) (t : list label_row)
      (other : string * string) :
  generate_labels preddate months_off months_back months_ahead schema overwrite db
  = Some (t, db') ->
  other <> (schema, labels_table (remove_dashes preddate)) ->
  tables db' !! other = tables db !! other.
Proof.
  intros Hrun Hne.
  destruct (generate_labels_cases _ _ _ _ _ _ _ _ _ Hrun)
    as [[_ [_ ->]] | [d [_ [_ [_ ->]]]]]; [reflexivity|].
  cbn [tables]. apply lookup_insert_ne. congruence.
Qed.

(** X10.  A successful call of [generate_labels] returns exactly the rows
    stored under [labels_<suffix>] in the schema when it ends, leaves the
    spells table as it was, and touches no other table. *)
Theorem generate_labels_frame
        (preddate : string) (months_off months_back months_ahead : Z)
        (schema : string) (overwrite : bool) (db db' : database) (t : list label_row) :
  generate_labels preddate months_off months_back months_ahead schema overwrite db
  = Some (t, db') ->
  ind_spells db' = ind_spells db
  /\ tables db' !! (schema, labels_table (remove_dashes preddate)) = Some t
  /\ forall other : string * string,
       other <> (schema, labels_table (remove_dashes preddate)) ->
       tables db' !! other = tables db !! other.
Proof.
  intros Hrun. split; [|split].
  - destruct (generate_labels_cases _ _ _ _ _ _ _ _ _ Hrun)
      as [[_ [_ ->]] | [d [_ [_ [_ ->]]]]]; reflexivity.
  - eapply generate_labels_stores; exact Hrun.
  - intros other Hne. eapply generate_labels_other_tables; eassumption.
Qed.

Lemma generate_labels_frame_witness :
  let t := build_labels (mkDate 2008 1 1) 12 3 2 scenario_spells in
  let db' := mkDb scenario_spells
                  (<[(myschema, labels_table (remove_dashes "2008-01-01")) := t]> ∅) in
  generate_labels "2008-01-01" 12 3 2 myschema false scenario_db = Some (t, db')
  /\ ind_spells db' = ind_spells scenario_db
  /\ tables db' !! (myschema, labels_table (remove_dashes "2008-01-01")) = Some t
  /\ forall other : string * string,
       other <> (myschema, labels_table (remove_dashes "2008-01-01")) ->
       tables db' !! other = tables scenario_db !! other.
Proof.
  cbv zeta.
  assert (H : generate_labels "2008-01-01" 12 3 2 myschema false scenario_db
              = Some (build_labels (mkDate 2008 1 1) 12 3 2 scenario_spells,
                      mkDb scenario_spells
                           (<[(myschema, labels_table (remove_dashes "2008-01-01"))
                              := build_labels (mkDate 2008 1 1) 12 3 2 scenario_spells]>
                              ∅)))
    by (vm_compute; reflexivity).
  split; [exact H|].
  exact (generate_labels_frame "2008-01-01" 12 3 2 myschema false _ _ _ H).
Defined.

Lemma is_digit_not_dash (c : ascii) : is_digit c = true -> Ascii.eqb c "-"%char = false.
Proof.
  unfold is_digit, digit_of. intros H.
  destruct (Ascii.eqb_spec c "-"%char) as [->|]; [|reflexivity].
  vm_compute in H. discriminate.
Qed.

Lemma iso_padded_shape (s : string) :
  iso_padded s = true ->
  exists y1 y2 y3 y4 m1 m2 e1 e2 : ascii,
    s = String y1 (String y2 (String y3 (String y4 (String "-" (String m1 (String m2
          (String "-" (String e1 (String e2 EmptyString)))))))))
    /\ remove_dashes s
       = String y1 (String y2 (String y3 (String y4 (String m1 (String m2
           (String e1 (String e2 EmptyString))))))).
Proof.
  intros H.
  destruct s as [|y1 [|y2 [|y3 [|y4 [|d1 [|m1 [|m2 [|d2 [|e1 [|e2 [|? ?]]]]]]]]]]];
    try discriminate.
  unfold iso_padded in H. rewrite !Bool.andb_true_iff in H.
  destruct H as [[[[[[[[[Hy1 Hy2] Hy3] Hy4] Hd1] Hm1] Hm2] Hd2] He1] He2].
  unfold is_dash in Hd1, Hd2. apply Ascii.eqb_eq in Hd1, Hd2. subst d1 d2.
  exists y1, y2, y3, y4, m1, m2, e1, e2. split; [reflexivity|].
  cbn [remove_dashes].
  repeat (rewrite Ascii.eqb_refl || rewrite is_digit_not_dash by assumption).
  reflexivity.
Qed.

(** Two padded prediction dates with the same table suffix are the same
    string. *)
Lemma remove_dashes_iso_padded_inj (s1 s2 : string) :
  iso_padded s1 = true -> iso_padded s2 = true ->
  remove_dashes s1 = remove_dashes s2 -> s1 = s2.
Proof.
  intros H1 H2 Heq.
  destruct (iso_padded_shape s1 H1) as (a1 & a2 & a3 & a4 & a5 & a6 & a7 & a8 & -> & R1).
  destruct (iso_padded_shape s2 H2) as (b1 & b2 & b3 & b4 & b5 & b6 & b7 & b8 & -> & R2).
  rewrite R1, R2 in Heq. injection Heq as -> -> -> -> -> -> -> ->. reflexivity.
Qed.

(** X11.  Label tables of different prediction dates do not interfere:
    after a call for a date written ['YYYY-MM-DD'], a call for another
    such date, whatever its parameters and its [overwrite] flag, leaves
    the first table in place, and a later call for the first date with
    [overwrite=False] returns the rows of the first call. *)
Theorem generate_labels_dates_independent
        (preddate1 preddate2 : string)
        (off1 back1 ahead1 off2 back2 ahead2 off3 back3 ahead3 : Z)
        (schema : string) (overwrite1 overwrite2 : bool)
        (db0 db1 db2 : database) (t1 t2 : list label_row) :
  iso_padded preddate1 = true -> iso_padded preddate2 = true ->
  preddate1 <> preddate2 ->
  generate_labels preddate1 off1 back1 ahead1 schema overwrite1 db0 = Some (t1, db1) ->
  generate_labels preddate2 off2 back2 ahead2 schema overwrite2 db1 = Some (t2, db2) ->
  generate_labels preddate1 off3 back3 ahead3 schema false db2 = Some (t1, db2).
Proof.
  intros Hp1 Hp2 Hne Hrun1 Hrun2.
  apply generate_labels_reuses.
  rewrite (generate_labels_other_tables _ _ _ _ _ _ _ _ _ _ Hrun2);
    [exact (generate_labels_stores _ _ _ _ _ _ _ _ _ Hrun1)|].
  intros Heq. injection Heq as Heq. apply Hne.
  apply remove_dashes_iso_padded_inj; [exact Hp1 | exact Hp2|].
  exact Heq.
Qed.

End LabelRuns.

Section LabelRunsMore.
Import Calendar Labels.

Lemma generate_labels_dates_independent_witness :
  iso_padded "2008-01-01" = true /\ iso_padded "2009-01-01" = true
  /\ "2008-01-01"%string <> "2009-01-01"%string
  /\ exists (t1 t2 : list label_row) (db1 db2 : database),
       generate_labels "2008-01-01" 12 3 2 myschema false scenario_db = Some (t1, db1)
       /\ generate_labels "2009-01-01" 12 3 24 myschema true db1 = Some (t2, db2)
       /\ generate_labels "2008-01-01" 6 1 0 myschema false db2 = Some (t1, db2).
Proof.
  assert (H1 : iso_padded "2008-01-01" = true) by reflexivity.
  assert (H2 : iso_padded "2009-01-01" = true) by reflexivity.
  assert (H3 : "2008-01-01"%string <> "2009-01-01"%string) by discriminate.
  split; [exact H1|]. split; [exact H2|]. split; [exact H3|].
  eexists. eexists. eexists. eexists.
  assert (Hr1 : forall db, tables db = ∅ ->
            generate_labels "2008-01-01" 12 3 2 myschema false db
            = Some (build_labels (mkDate 2008 1 1) 12 3 2 (ind_spells db),
                    mkDb (ind_spells db)
                         (<[(myschema, labels_table (remove_dashes "2008-01-01"))
                            := build_labels (mkDate 2008 1 1) 12 3 2 (ind_spells db)]>
                            (tables db)))).
  { intros db Hdb. apply (generate_labels_builds "2008-01-01" 12 3 2 myschema false
                            (mkDate 2008 1 1) db eq_refl).
    left. rewrite Hdb. reflexivity. }
  pose proof (Hr1 scenario_db eq_refl) as Hrun1.
  pose proof (generate_labels_builds "2009-01-01" 12 3 24 myschema true
                (mkDate 2009 1 1) _ eq_refl (or_intror eq_refl)
              : generate_labels "2009-01-01" 12 3 24 myschema true
                  (mkDb (ind_spells scenario_db)
                        (<[(myschema, labels_table (remove_dashes "2008-01-01"))
                           := build_labels (mkDate 2008 1 1) 12 3 2
                                (ind_spells scenario_db)]> (tables scenario_db)))
                = _) as Hrun2.
  split; [exact Hrun1|]. split; [exact Hrun2|].
  exact (generate_labels_dates_independent "2008-01-01" "2009-01-01"
           12 3 2 12 3 24 6 1 0 myschema false true _ _ _ _ _ H1 H2 H3 Hrun1 Hrun2).
Defined.

(** X12.  Empty windows are not errors.  When the call builds the table,
    a cohort width [months_back <= 0] gives an empty label table, and a
    horizon [months_ahead <= 0] gives the label 0 on every row. *)
Theorem generate_labels_empty_windows
        (preddate : string) (d : date) (months_off months_back months_ahead : Z)
        (schema : string) (overwrite : bool) (db : database) :
  parse_date preddate = Some d ->
  tables db !! (schema, labels_table (remove_dashes preddate)) = None
  \/ overwrite = true ->
  exists (labels : list label_row) (db' : database),
    generate_labels preddate months_off months_back months_ahead schema overwrite db
    = Some (labels, db')
    /\ (months_back <= 0 -> labels = [])
    /\ (months_ahead <= 0 -> Forall (fun r => label r = 0) labels).
Proof.
  intros Hd Hrun.
  pose proof (parse_date_valid _ _ Hd) as Hv.
  eexists. eexists.
  split; [apply (generate_labels_builds _ _ _ _ _ _ d db Hd Hrun)|].
  rewrite build_labels_spec. unfold labels_spec. split.
  - intros Hback.
    assert (Hc : select_cohort d months_off months_back (ind_spells db) = []).
    { unfold select_cohort. rewrite filter_nil_key; [reflexivity|].
      intros s _. destruct (cohort_where d months_off months_back s) eqn:Hw;
        [|reflexivity].
      exfalso. apply cohort_where_spec in Hw as [H1 [H2 _]].
      unfold date_le, date_lt in *.
      pose proof (add_months_valid d (- months_off) Hv) as Hv'.
      fold (sub_months d months_off) in Hv'.
      pose proof (add_months_forward (sub_months d months_off) (- months_back) Hv'
                    ltac:(lia)) as Hf.
      fold (sub_months (sub_months d months_off) months_back) in Hf.
      pose proof (date_le_lt_trans _ _ _ (date_leb_trans _ _ _ Hf H1) H2) as Hbad.
      rewrite date_ltb_irrefl in Hbad. discriminate. }
    rewrite Hc. reflexivity.
  - intros Hahead. apply List.Forall_forall. intros r Hr.
    apply in_map_iff in Hr as [a [<- _]]. simpl.
    destruct (has_return d months_ahead (ind_spells db) (c_recptno a)) eqn:Hret;
      [|reflexivity].
    exfalso. apply has_return_spec in Hret as [s [_ [_ [_ [H1 H2]]]]].
    unfold date_le, date_lt in *.
    pose proof (add_months_backward d months_ahead Hv Hahead) as Hb.
    pose proof (date_le_lt_trans _ _ _ H1 (date_lt_le_trans _ _ _ H2 Hb)) as Hbad.
    rewrite date_ltb_irrefl in Hbad. discriminate.
Qed.

Lemma generate_labels_empty_windows_witness :
  parse_date "2008-01-01" = Some (mkDate 2008 1 1)
  /\ (tables scenario_db !! (myschema, labels_table (remove_dashes "2008-01-01")) = None
      \/ false = true)
  /\ exists (labels : list label_row) (db' : database),
    generate_labels "2008-01-01" 12 0 24 myschema false scenario_db = Some (labels, db')
    /\ (0 <= 0 -> labels = [])
    /\ (24 <= 0 -> Forall (fun r => label r = 0) labels).
Proof.
  assert (H1 : parse_date "2008-01-01" = Some (mkDate 2008 1 1)) by reflexivity.
  assert (H2 : tables scenario_db !! (myschema, labels_table (remove_dashes "2008-01-01"))
               = None \/ false = true) by (left; reflexivity).
  split; [exact H1|]. split; [exact H2|].
  exact (generate_labels_empty_windows "2008-01-01" (mkDate 2008 1 1) 12 0 24 myschema
           false scenario_db H1 H2).
Defined.

(** X13.  With [months_off >= 0] the labels look forward only: the spell
    of every label row ended before the prediction date, and a label 1
    comes with a spell of the same entity and category that starts on or
    after the prediction date, hence after the row's spell ended. *)
Theorem generate_labels_looks_forward
        (preddate : string) (d : date) (months_off months_back months_ahead : Z)
        (schema : string) (overwrite : bool) (db : database) :
  parse_date preddate = Some d ->
  0 <= months_off ->
  tables db !! (schema, labels_table (remove_dashes preddate)) = None
  \/ overwrite = true ->
  exists (labels : list label_row) (db' : database),
    generate_labels preddate months_off months_back months_ahead schema overwrite db
    = Some (labels, db')
    /\ forall r, In r labels ->
         date_lt (l_end_date r) d
         /\ (label r = 1 ->
             exists s, In s (ind_spells db)
                       /\ recptno s = l_recptno r
                       /\ benefit_type s = "tanf46"%string
                       /\ date_le d (start_date s)
                       /\ date_lt (l_end_date r) (start_date s)).
Proof.
  intros Hd Hoff Hrun.
  pose proof (parse_date_valid _ _ Hd) as Hv.
  eexists. eexists.
  split; [apply (generate_labels_builds _ _ _ _ _ _ d db Hd Hrun)|].
  rewrite build_labels_spec. intros r Hr.
  assert (Hend : date_lt (l_end_date r) d).
  { apply labels_spec_In in Hr as [Hc _].
    unfold select_cohort in Hc. apply in_map_iff in Hc as [s [Hrow Hs]].
    apply filter_In in Hs as [_ Hw]. apply cohort_where_spec in Hw as [_ [H2 _]].
    assert (He : l_end_date r = end_date s)
      by (destruct r; unfold cohort_part, row_of in Hrow; simpl in *; congruence).
    rewrite He. unfold date_lt in *.
    eapply date_lt_le_trans; [exact H2|].
    apply add_months_backward; [exact Hv | lia]. }
  split; [exact Hend|]. intros Hl.
  apply labels_spec_In in Hr as [_ Hlab]. rewrite Hl in Hlab.
  destruct (has_return d months_ahead (ind_spells db) (l_recptno r)) eqn:Hret;
    [|discriminate].
  apply has_return_spec in Hret as [s [Hs [Hk [Ht [H1 H2]]]]].
  exists s. repeat split; try assumption.
  unfold date_le, date_lt in *. eapply date_lt_le_trans; eassumption.
Qed.

Lemma generate_labels_looks_forward_witness :
  parse_date "2008-01-01" = Some (mkDate 2008 1 1)
  /\ 0 <= 12
  /\ (tables scenario_db !! (myschema, labels_table (remove_dashes "2008-01-01")) = None
      \/ false = true)
  /\ exists (labels : list label_row) (db' : database),
    generate_labels "2008-01-01" 12 3 2 myschema false scenario_db = Some (labels, db')
    /\ forall r, In r labels ->
         date_lt (l_end_date r) (mkDate 2008 1 1)
         /\ (label r = 1 ->
             exists s, In s (ind_spells scenario_db)
                       /\ recptno s = l_recptno r
                       /\ benefit_type s = "tanf46"%string
                       /\ date_le (mkDate 2008 1 1) (start_date s)
                       /\ date_lt (l_end_date r) (start_date s)).
Proof.
  assert (H1 : parse_date "2008-01-01" = Some (mkDate 2008 1 1)) by reflexivity.
  assert (H0 : 0 <= 12) by lia.
  assert (H2 : tables scenario_db !! (myschema, labels_table (remove_dashes "2008-01-01"))
               = None \/ false = true) by (left; reflexivity).
  split; [exact H1|]. split; [exact H0|]. split; [exact H2|].
  exact (generate_labels_looks_forward "2008-01-01" (mkDate 2008 1 1) 12 3 2 myschema
           false scenario_db H1 H0 H2).
Defined.

(** Written without padding, two different dates can share a table name:
    11 January and 1 November 2008. *)
Example unpadded_dates_share_a_table :
  parse_date "2008-1-11" = Some (mkDate 2008 1 11)
  /\ parse_date "2008-11-1" = Some (mkDate 2008 11 1)
  /\ labels_table (remove_dashes "2008-1-11") = labels_table (remove_dashes "2008-11-1").
Proof. repeat split. Qed.

End LabelRunsMore.

(** ** More on the matrix assembly *)

Section MatrixMore.
Import Matrix.

Lemma select_row_unmatched_isnull (l : label_row) : isnull_any (select_row (l, None)) = true.
Proof.
  unfold isnull_any, select_row. simpl.
  destruct (is_none (l_inmate_doc_number l)), (is_none (l_recidivism l)); reflexivity.
Qed.

(** X14.  The rows that survive the cleaning are exactly the rows of
    matched pairs: a row is in the cleaned matrix if and only if it joins
    a label row with a feature row of the same document number, has no
    missing value and an [age_first_admit] in [[14, 99]].  A labelled
    inmate without a feature row never reaches the model. *)
Theorem clean_train_matrix_rows
        (labels : list label_row) (features : list feature_row) (r : matrix_row) :
  In r (clean (train_matrix labels features)) <->
  exists l f,
    In l labels /\ In f features /\ on_doc_number l f = true
    /\ r = select_row (l, Some f)
    /\ isnull_any r = false
    /\ exists a, age_first_admit r = Some a /\ (14#1 <= a)%Q /\ (a <= 99#1)%Q.
Proof.
  unfold clean, keep_in_range, drop_missing, train_matrix. split.
  - intros Hr. apply filter_In in Hr as [Hr Hk]. apply filter_In in Hr as [Hr Hn].
    apply Bool.negb_true_iff in Hn.
    apply in_map_iff in Hr as [[l ob] [Hsel Hin]].
    apply left_join_In in Hin as [Hl Hob].
    destruct ob as [f|].
    + destruct Hob as [Hf Hon]. exists l, f.
      repeat split; try assumption; [symmetry; exact Hsel|].
      unfold keep in Hk. destruct (age_first_admit r) as [a|]; [|discriminate].
      apply Bool.andb_true_iff in Hk as [H1 H2].
      exists a. rewrite <- !Qle_bool_iff. auto.
    + rewrite <- Hsel, select_row_unmatched_isnull in Hn. discriminate.
  - intros (l & f & Hl & Hf & Hon & Hsel & Hn & a & Ha & H1 & H2).
    apply filter_In. split.
    + apply filter_In. split; [|rewrite Hn; reflexivity].
      apply in_map_iff. exists (l, Some f). split; [symmetry; exact Hsel|].
      apply left_join_In. auto.
    + unfold keep. rewrite Ha. apply Bool.andb_true_iff.
      rewrite !Qle_bool_iff. auto.
Qed.

Lemma clean_train_matrix_rows_witness :
  let r := mkMatrix (Some 101) (Some 1) (Some (2#1)%Q) (Some (365#1)%Q)
                    (Some (21#1)%Q) (Some (40#1)%Q) in
  In r (clean (train_matrix example_labels example_features))
  /\ exists l f,
    In l example_labels /\ In f example_features /\ on_doc_number l f = true
    /\ r = select_row (l, Some f)
    /\ isnull_any r = false
    /\ exists a, age_first_admit r = Some a /\ (14#1 <= a)%Q /\ (a <= 99#1)%Q.
Proof.
  cbv zeta.
  assert (H : In (mkMatrix (Some 101) (Some 1) (Some (2#1)%Q) (Some (365#1)%Q)
                           (Some (21#1)%Q) (Some (40#1)%Q))
                 (clean (train_matrix example_labels example_features)))
    by (vm_compute; tauto).
  split; [exact H|].
  exact (proj1 (clean_train_matrix_rows example_labels example_features _) H).
Defined.

(** X15.  The share of rows with missing values is computed by a
    division by the number of rows of the matrix: on the matrix of an
    empty label table the cell raises, whatever the features; on any
    other it yields a number between 0 and 1, the rows with a missing
    value over all rows. *)
Theorem nan_share_train_matrix (labels : list label_row) (features : list feature_row) :
  let joined := train_matrix labels features in
  (labels = [] -> nan_share joined = None)
  /\ (labels <> [] ->
      exists share : Q,
        nan_share joined = Some share
        /\ (share == Z.of_nat (nrows_isnan joined)
                     # Z.to_pos (Z.of_nat (length joined)))%Q
        /\ (0 <= share <= 1)%Q).
Proof.
  cbv zeta. split.
  - intros ->. reflexivity.
  - intros Hne.
    pose proof (train_matrix_length_ge labels features) as Hge.
    assert (Hpos : (0 < length (train_matrix labels features))%nat)
      by (destruct labels; [congruence | simpl in Hge; lia]).
    unfold nan_share.
    destruct (Z.eqb_spec (Z.of_nat (length (train_matrix labels features))) 0); [lia|].
    eexists. split; [reflexivity|].
    split; [rewrite Qred_correct; reflexivity|].
    rewrite Qred_correct. apply ratio_in_unit; [|lia].
    unfold nrows_isnan.
    pose proof (List.filter_length_le isnull_any (train_matrix labels features)). lia.
Qed.

Lemma nan_share_train_matrix_witness :
  example_labels <> []
  /\ nan_share (train_matrix [] example_features) = None
  /\ exists share : Q,
       nan_share (train_matrix example_labels example_features) = Some share
       /\ (share == Z.of_nat (nrows_isnan (train_matrix example_labels example_features))
                    # Z.to_pos (Z.of_nat (length (train_matrix example_labels
                                                                example_features))))%Q
       /\ (0 <= share <= 1)%Q.
Proof.
  assert (H : example_labels <> []) by discriminate.
  split; [exact H|].
  split; [exact (proj1 (nan_share_train_matrix [] example_features) eq_refl)|].
  exact (proj2 (nan_share_train_matrix example_labels example_features) H).
Defined.

End MatrixMore.

(** ** Tokenizing *)

Section Tokenizing.
Import Text.

Lemma space_not_punctuation : is_punctuation 32 = false.
Proof. reflexivity. Qed.

Lemma translate_char_not_punctuation (c : Z) : is_punctuation (translate_char c) = false.
Proof.
  unfold translate_char. destruct (is_punctuation c) eqn:H; [reflexivity | exact H].
Qed.

Lemma translate_char_space (c : Z) : is_space (translate_char c) = is_separator c.
Proof.
  unfold translate_char, is_separator.
  destruct (is_punctuation c); [rewrite Bool.orb_true_r | rewrite Bool.orb_false_r];
    reflexivity.
Qed.

Lemma translate_clean (w : pystr) :
  Forall (fun c => is_punctuation c = false) w -> translate w = w.
Proof.
  unfold translate. induction 1 as [|c w Hc _ IH]; simpl; [reflexivity|].
  unfold translate_char at 1. rewrite Hc, IH. reflexivity.
Qed.

(** A separator ends the word being read and starts afresh. *)
Lemma split_from_sep (a b : pystr) (c : Z) :
  is_space c = true ->
  forall cur, split_from cur (a ++ c :: b) = split_from cur a ++ split_from [] b.
Proof.
  intros Hc. induction a as [|x a IH]; intros cur; simpl.
  - rewrite Hc. destruct cur; reflexivity.
  - destruct (is_space x).
    + destruct cur; rewrite IH; reflexivity.
    + apply IH.
Qed.

(** A run without whitespace is one word. *)
Lemma split_from_word (w : pystr) :
  Forall (fun c => is_space c = false) w ->
  forall cur, cur ++ w <> [] -> split_from cur w = [rev cur ++ w].
Proof.
  induction 1 as [|c w Hc _ IH]; intros cur Hne; simpl.
  - rewrite List.app_nil_r in *. destruct cur; [congruence | reflexivity].
  - rewrite Hc, IH by discriminate. simpl. rewrite <- List.app_assoc. reflexivity.
Qed.

Lemma split_from_words (s : pystr) :
  forall cur, Forall (fun c => is_space c = false) cur ->
    Forall (fun w => w <> [] /\ Forall (fun c => is_space c = false) w
                     /\ forall c, In c w -> In c cur \/ In c s)
           (split_from cur s).
Proof.
  induction s as [|c s IH]; intros cur Hcur; simpl.
  - destruct cur as [|x cur]; constructor; [|constructor].
    split; [intros H; apply (f_equal (@length Z)) in H;
            rewrite List.length_rev in H; discriminate|].
    split; [apply List.Forall_rev, Hcur|].
    intros y Hy. left. apply in_rev. exact Hy.
  - destruct (is_space c) eqn:Hc.
    + assert (Hrest : Forall (fun w => w <> [] /\ Forall (fun c => is_space c = false) w
                                       /\ forall y, In y w -> In y cur \/ In y (c :: s))
                             (split_from [] s)).
      { eapply List.Forall_impl; [|apply (IH [] (List.Forall_nil _))].
        intros w (H1 & H2 & H3). repeat split; try assumption.
        intros y Hy. destruct (H3 y Hy) as [[]|Hin]. right. right. exact Hin. }
      destruct cur as [|x cur]; [exact Hrest|].
      constructor; [|exact Hrest].
      split; [intros H; apply (f_equal (@length Z)) in H;
              rewrite List.length_rev in H; discriminate|].
      split; [apply List.Forall_rev, Hcur|].
      intros y Hy. left. apply in_rev. exact Hy.
    + eapply List.Forall_impl; [|apply (IH (c :: cur)); constructor; assumption].
      intros w (H1 & H2 & H3). repeat split; try assumption.
      intros y Hy.
      destruct (H3 y Hy) as [[->|Hin]|Hin];
        [right; left; reflexivity | left; exact Hin | right; right; exact Hin].
Qed.

Lemma split_from_nil (s : pystr) :
  forall cur, split_from cur s = [] <-> cur = [] /\ Forall (fun c => is_space c = true) s.
Proof.
  induction s as [|c s IH]; intros cur; simpl.
  - destruct cur as [|x cur].
    + split; [intros _; split; [reflexivity | constructor] | reflexivity].
    + split; [discriminate | intros [H _]; discriminate].
  - destruct (is_space c) eqn:Hc.
    + destruct cur.
      * rewrite IH. split; intros [H1 H2]; split; auto.
        inversion H2; assumption.
      * split; [discriminate | intros [H _]; discriminate].
    + rewrite IH. split; [intros [H _]; discriminate|].
      intros [_ H]. inversion H; congruence.
Qed.

Section WithStemmer.
Variable stem : pystr -> pystr.

(** X16.  Every string [tokenize] hands to the stemmer is non-empty and
    holds neither whitespace nor punctuation, and each of its characters
    is a character of the text. *)
Theorem tokenize_words_clean (text : pystr) :
  exists words : list pystr,
    tokenize stem text = map stem words
    /\ Forall (fun w => w <> []
                        /\ Forall (fun c => is_space c = false
                                            /\ is_punctuation c = false) w
                        /\ forall c, In c w -> In c text) words.
Proof.
  exists (split (translate text)). split; [reflexivity|].
  unfold split.
  eapply List.Forall_impl; [|apply (split_from_words (translate text) [] (List.Forall_nil _))].
  intros w (H1 & H2 & H3). split; [exact H1|].
  assert (Hin : forall c, In c w -> exists x, In x text /\ c = translate_char x).
  { intros c Hc. destruct (H3 c Hc) as [[]|Hc'].
    unfold translate in Hc'. apply in_map_iff in Hc' as [x [Hx Hin]]. eauto. }
  split.
  - apply List.Forall_forall. intros c Hc.
    rewrite List.Forall_forall in H2. split; [apply H2, Hc|].
    destruct (Hin c Hc) as [x [_ ->]]. apply translate_char_not_punctuation.
  - intros c Hc. destruct (Hin c Hc) as [x [Hx ->]].
    unfold translate_char. destruct (is_punctuation x) eqn:Hp; [|exact Hx].
    exfalso. rewrite List.Forall_forall in H2. specialize (H2 _ Hc).
    unfold translate_char in H2. rewrite Hp in H2. discriminate.
Qed.

Lemma tokenize_sep_aux (a b : pystr) (c : Z) :
  is_separator c = true ->
  tokenize stem (a ++ c :: b) = tokenize stem a ++ tokenize stem b.
Proof.
  intros Hc. unfold tokenize, split, translate.
  rewrite List.map_app. simpl.
  rewrite split_from_sep by (rewrite translate_char_space; exact Hc).
  apply List.map_app.
Qed.

(** X17.  Whitespace and punctuation only separate: the tokens of a text
    cut at such a character are the tokens of the part before it followed
    by the tokens of the part after it. *)
Theorem tokenize_separator (a b : pystr) (c : Z) :
  is_separator c = true ->
  tokenize stem (a ++ c :: b) = tokenize stem a ++ tokenize stem b.
Proof. apply tokenize_sep_aux. Qed.

(** X18.  [tokenize] returns no token exactly on a text made of
    whitespace and punctuation only; so [tokenize(s)[0]] raises on such
    an entry, and the list of stop words is built only if every entry has
    another character. *)
Theorem tokenize_empty (text : pystr) (stop : list pystr) :
  (tokenize stem text = [] <-> Forall (fun c => is_separator c = true) text)
  /\ (first_token stem text = None <-> Forall (fun c => is_separator c = true) text)
  /\ (stopword_tokens stem stop = None <->
      exists s, In s stop /\ Forall (fun c => is_separator c = true) s).
Proof.
  assert (Htok : forall t, tokenize stem t = []
                           <-> Forall (fun c => is_separator c = true) t).
  { intros t. unfold tokenize, split.
    split.
    - intros H. apply List.map_eq_nil in H. apply split_from_nil in H as [_ H].
      unfold translate in H. rewrite List.Forall_map in H.
      eapply List.Forall_impl; [|exact H].
      intros c Hc. cbv beta in Hc. rewrite translate_char_space in Hc. exact Hc.
    - intros H.
      assert (Hs : split_from [] (translate t) = []).
      { apply split_from_nil. split; [reflexivity|].
        unfold translate. rewrite List.Forall_map.
        eapply List.Forall_impl; [|exact H].
        intros c Hc. cbv beta. rewrite translate_char_space. exact Hc. }
      rewrite Hs. reflexivity. }
  assert (Hfirst : forall t, first_token stem t = None
                             <-> Forall (fun c => is_separator c = true) t).
  { intros t. rewrite <- Htok. unfold first_token.
    destruct (tokenize stem t); split; intros H; try reflexivity; discriminate. }
  split; [apply Htok|]. split; [apply Hfirst|].
  induction stop as [|s rest IH]; simpl.
  - split; [discriminate | intros [s [[] _]]].
  - destruct (first_token stem s) as [t|] eqn:Hs.
    + destruct (stopword_tokens stem rest) as [ts|].
      * split; [discriminate|].
        intros [s' [[<-|Hin] Hall]].
        -- apply Hfirst in Hall. congruence.
        -- assert (Hex : exists s0, In s0 rest
                           /\ Forall (fun c => is_separator c = true) s0) by eauto.
           apply IH in Hex. discriminate.
      * split; [|reflexivity]. intros _.
        destruct (proj1 IH eq_refl) as [s' [Hin Hall]]. exists s'. auto.
    + split; [|reflexivity]. intros _. exists s. split; [left; reflexivity|].
      apply Hfirst, Hs.
Qed.

(** X19.  Of a stop word, only the part before its first separator is
    kept: for a plain word [w], [tokenize(w + c + rest)[0]] is the stem of
    [w], whatever follows the separator [c] -- of ["don't"], the stem of
    ["don"]. *)
Theorem first_token_prefix (w rest : pystr) (c : Z) :
  w <> [] ->
  Forall (fun x => is_separator x = false) w ->
  is_separator c = true ->
  tokenize stem (w ++ c :: rest) = stem w :: tokenize stem rest
  /\ first_token stem (w ++ c :: rest) = Some (stem w)
  /\ first_token stem w = Some (stem w).
Proof.
  intros Hne Hw Hc.
  assert (Hpunct : Forall (fun x => is_punctuation x = false) w).
  { eapply List.Forall_impl; [|exact Hw]. intros x Hx. unfold is_separator in Hx.
    apply Bool.orb_false_iff in Hx. tauto. }
  assert (Hspace : Forall (fun x => is_space x = false) w).
  { eapply List.Forall_impl; [|exact Hw]. intros x Hx. unfold is_separator in Hx.
    apply Bool.orb_false_iff in Hx. tauto. }
  assert (Hword : tokenize stem w = [stem w]).
  { unfold tokenize, split. rewrite (translate_clean w Hpunct).
    rewrite (split_from_word w Hspace []) by exact Hne. reflexivity. }
  assert (Htok : tokenize stem (w ++ c :: rest) = stem w :: tokenize stem rest)
    by (rewrite (tokenize_sep_aux w rest c Hc), Hword; reflexivity).
  split; [exact Htok|]. unfold first_token. rewrite Htok, Hword. split; reflexivity.
Qed.

End WithStemmer.

Lemma tokenize_separator_witness :
  is_separator 39 = true
  /\ tokenize (fun w => w) (of_string "don" ++ 39 :: of_string "t")
     = tokenize (fun w => w) (of_string "don") ++ tokenize (fun w => w) (of_string "t").
Proof.
  assert (H : is_separator 39 = true) by reflexivity.
  split; [exact H|].
  exact (tokenize_separator (fun w => w) (of_string "don") (of_string "t") 39 H).
Defined.

Lemma first_token_prefix_witness :
  of_string "don" <> []
  /\ Forall (fun x => is_separator x = false) (of_string "don")
  /\ is_separator 39 = true
  /\ tokenize (fun w => w) (of_string "don" ++ 39 :: of_string "t")
     = of_string "don" :: tokenize (fun w => w) (of_string "t")
  /\ first_token (fun w => w) (of_string "don" ++ 39 :: of_string "t")
     = Some (of_string "don")
  /\ first_token (fun w => w) (of_string "don") = Some (of_string "don").
Proof.
  assert (H1 : of_string "don" <> []) by discriminate.
  assert (H2 : Forall (fun x => is_separator x = false) (of_string "don"))
    by (repeat constructor).
  assert (H3 : is_separator 39 = true) by reflexivity.
  split; [exact H1|]. split; [exact H2|]. split; [exact H3|].
  exact (first_token_prefix (fun w => w) (of_string "don") (of_string "t") 39 H1 H2 H3).
Defined.

Example stopword_tokens_example :
  stopword_tokens (fun w => w) [of_string "don't"; of_string "the"]
  = Some [of_string "don"; of_string "the"]
  /\ stopword_tokens (fun w => w) [of_string "the"; of_string "--"] = None.
Proof. split; reflexivity. Qed.

End Tokenizing.

(** ** The queries of the SQL introduction *)

Lemma remove_dups_length_le {A : Type} `{EqDecision A} (l : list A) :
  (length (remove_dups l) <= length l)%nat.
Proof.
  induction l as [|x l IH]; simpl; [lia|].
  destruct (decide_rel elem_of x l); simpl; lia.
Qed.

Lemma remove_dups_length_eq {A : Type} `{EqDecision A} (l : list A) :
  length (remove_dups l) = length l <-> List.NoDup l.
Proof.
  induction l as [|x l IH]; simpl.
  - split; [constructor | reflexivity].
  - pose proof (remove_dups_length_le l) as Hle.
    destruct (decide_rel elem_of x l) as [Hin|Hnin]; simpl.
    + split; [lia|]. intros Hnd. inversion Hnd as [|? ? Hx _]; subst.
      exfalso. apply Hx. apply list_elem_of_In. exact Hin.
    + split.
      * intros Hlen. constructor; [|apply IH; lia].
        intros Hx. apply Hnin. apply list_elem_of_In. exact Hx.
      * intros Hnd. inversion Hnd; subst. f_equal. apply IH. assumption.
Qed.

Lemma remove_dups_In {A : Type} `{EqDecision A} (l : list A) (x : A) :
  In x (remove_dups l) <-> In x l.
Proof. rewrite <- !list_elem_of_In. apply elem_of_remove_dups. Qed.


Section Counting.
Import Databases.

Lemma non_null_length_le {A B : Type} (col : A -> option B) (rows : list A) :
  (length (non_null col rows) <= length rows)%nat.
Proof.
  unfold non_null. induction rows as [|r rows IH]; simpl; [lia|].
  destruct (col r); simpl; lia.
Qed.

Lemma non_null_length_eq {A B : Type} (col : A -> option B) (rows : list A) :
  length (non_null col rows) = length rows
  <-> forall r, In r rows -> col r <> None.
Proof.
  induction rows as [|r rows IH].
  - split; [intros _ ? [] | reflexivity].
  - pose proof (non_null_length_le col rows) as Hle.
    unfold non_null in *. cbn [flat_map]. rewrite List.length_app.
    destruct (col r) as [v|] eqn:Hr; cbn [length Nat.add].
    + split.
      * intros Hlen r' [<-|Hr']; [congruence|].
        apply IH; [lia | exact Hr'].
      * intros Hall. f_equal. apply IH. intros r' Hr'. apply Hall. right. exact Hr'.
    + split; [lia|]. intros Hall. exfalso.
      apply (Hall r (or_introl eq_refl)). exact Hr.
Qed.

(** X20.  The three counts of [sentences] are one row each and are
    ordered: distinct ids <= non-NULL ids <= rows.  The last two agree
    exactly when no row has a NULL id, the first two exactly when no id
    occurs twice, and there is a distinct id as soon as there is an id. *)
Theorem count_queries_ordered (sentences : list sentences_row) :
  exists rows ids persons : Z,
    count_sentences sentences = [rows]
    /\ count_sentences_doc_number sentences = [ids]
    /\ count_sentences_distinct_doc_number sentences = [persons]
    /\ 0 <= persons <= ids /\ ids <= rows
    /\ (ids = rows <->
        forall s, In s sentences -> sentences_inmate_doc_number s <> None)
    /\ (persons = ids <->
        List.NoDup (non_null sentences_inmate_doc_number sentences))
    /\ (persons = 0 <-> ids = 0).
Proof.
  exists (count_star sentences),
         (count_column sentences_inmate_doc_number sentences),
         (count_distinct sentences_inmate_doc_number sentences).
  split; [reflexivity|]. split; [reflexivity|]. split; [reflexivity|].
  unfold count_distinct, count_column, count_star.
  set (ids := non_null sentences_inmate_doc_number sentences).
  pose proof (remove_dups_length_le ids) as H1.
  pose proof (non_null_length_le sentences_inmate_doc_number sentences) as H2.
  fold ids in H2.
  split; [lia|]. split; [lia|]. split; [|split].
  - rewrite <- non_null_length_eq. fold ids. lia.
  - rewrite <- remove_dups_length_eq. lia.
  - split; intros H0.
    + destruct ids as [|x l] eqn:E; [reflexivity|].
      assert (Hx : In x (remove_dups (x :: l)))
        by (apply (proj2 (remove_dups_In _ _)); left; reflexivity).
      destruct (remove_dups (x :: l)); [destruct Hx | simpl in H0; lia].
    + assert (Hnil : ids = []) by (destruct ids; [reflexivity | simpl in H0; lia]).
      rewrite Hnil. reflexivity.
Qed.

End Counting.





Lemma StronglySorted_app_l {A : Type} (R : A -> A -> Prop) (l1 l2 : list A) :
  StronglySorted R (l1 ++ l2) -> StronglySorted R l1.
Proof.
  induction l1 as [|x l1 IH]; intros Hs; [constructor|].
  simpl in Hs. inversion Hs as [|? ? Hl Hx]; subst.
  constructor; [apply IH, Hl|].
  apply List.Forall_app in Hx. apply Hx.
Qed.

Lemma StronglySorted_weaken {A : Type} (R R' : A -> A -> Prop) (l : list A) :
  (forall a b, R a b -> R' a b) -> StronglySorted R l -> StronglySorted R' l.
Proof.
  intros HR. induction 1 as [|x l Hl IH Hx]; constructor; [exact IH|].
  eapply List.Forall_impl; [|exact Hx]. intros b. apply HR.
Qed.

Section OrderAndLimit.
Import Databases.
Context {A : Type} (leb : A -> A -> bool).
Hypothesis leb_total : forall a b, leb a b = true \/ leb b a = true.
Hypothesis leb_trans : forall a b c, leb a b = true -> leb b c = true -> leb a c = true.

(** [ORDER BY ... LIMIT n] shows the first [n] rows of the order: what is
    left out is not before anything shown. *)
Lemma limit_sort_by (n : nat) (l : list A) :
  length (limit n (sort_by leb l)) = Nat.min n (length l)
  /\ (forall x, In x (limit n (sort_by leb l)) -> In x l)
  /\ StronglySorted (fun a b => leb a b = true) (limit n (sort_by leb l))
  /\ (forall x y, In x (limit n (sort_by leb l)) -> In y l ->
                  ~ In y (limit n (sort_by leb l)) -> leb x y = true).
Proof.
  unfold limit.
  pose proof (sort_by_sorted leb leb_total leb_trans l) as Hs.
  pose proof (sort_by_perm leb l) as Hp.
  split; [rewrite List.length_firstn, sort_by_length; reflexivity|].
  split.
  { intros x Hx. eapply Permutation_in; [exact Hp|].
    eapply In_firstn_to_In. exact Hx. }
  rewrite <- (firstn_skipn n (sort_by leb l)) in Hs.
  split; [eapply StronglySorted_app_l; exact Hs|].
  intros x y Hx Hy Hny.
  apply (Permutation_in _ (Permutation_sym Hp)) in Hy.
  rewrite <- (firstn_skipn n (sort_by leb l)) in Hy.
  apply in_app_or in Hy as [Hy|Hy]; [contradiction|].
  exact (StronglySorted_app_inv _ _ _ Hs x y Hx Hy).
Qed.
End OrderAndLimit.

Section GroupBy.
Import Databases.
Context {A K : Type} `{EqDecision K} (key : A -> K).


Lemma group_count_In (rows : list A) (k : K) (n : Z) :
  In (k, n) (group_count key rows)
  <-> In k (map key rows)
      /\ n = count_star (List.filter (fun r => bool_decide (key r = k)) rows).
Proof.
  unfold group_count. rewrite in_map_iff. split.
  - intros [k' [Heq Hk']]. injection Heq as -> <-.
    apply (proj1 (remove_dups_In _ _)) in Hk'. split; [exact Hk' | reflexivity].
  - intros [Hk ->]. exists k. split; [reflexivity|].
    apply (proj2 (remove_dups_In _ _)). exact Hk.
Qed.



End GroupBy.

Section GroupQueries.
Import Databases.

Lemma count_asc_total {K : Type} (a b : K * Z) :
  count_asc a b = true \/ count_asc b a = true.
Proof. unfold count_asc. lia. Qed.

Lemma count_asc_trans {K : Type} (a b c : K * Z) :
  count_asc a b = true -> count_asc b c = true -> count_asc a c = true.
Proof. unfold count_asc. lia. Qed.

Lemma count_desc_total {K : Type} (a b : K * Z) :
  count_desc a b = true \/ count_desc b a = true.
Proof. unfold count_desc. lia. Qed.

Lemma count_desc_trans {K : Type} (a b c : K * Z) :
  count_desc a b = true -> count_desc b c = true -> count_desc a c = true.
Proof. unfold count_desc. lia. Qed.

(** X22.  The query with [ORDER BY count( * ) LIMIT 20] shows the 20
    smallest race groups, or all of them when there are fewer, in
    ascending order of their counts: no group that is left out is smaller
    than one that is shown. *)
Theorem race_counts_ordered_smallest (inmate : list inmate_row) :
  length (race_counts_ordered inmate)
  = Nat.min 20 (length (group_count inmate_race_code inmate))
  /\ (forall g, In g (race_counts_ordered inmate) ->
                In g (group_count inmate_race_code inmate))
  /\ StronglySorted (fun g1 g2 => snd g1 <= snd g2) (race_counts_ordered inmate)
  /\ (forall g g', In g (race_counts_ordered inmate) ->
                   In g' (group_count inmate_race_code inmate) ->
                   ~ In g' (race_counts_ordered inmate) ->
                   snd g <= snd g').
Proof.
  unfold race_counts_ordered.
  destruct (limit_sort_by count_asc count_asc_total count_asc_trans 20
              (group_count inmate_race_code inmate)) as [Hlen [Hin [Hs Hout]]].
  split; [exact Hlen|]. split; [exact Hin|]. split.
  - eapply StronglySorted_weaken; [|exact Hs].
    intros a b Hab. unfold count_asc in Hab. lia.
  - intros g g' Hg Hg' Hn. specialize (Hout g g' Hg Hg' Hn).
    unfold count_asc in Hout. lia.
Qed.

(** X23.  [HAVING count( * ) > 1000] filters the groups, not the rows:
    every row shown is a race and gender group of the whole table whose
    count exceeds 1000, the rows come in descending order of the counts,
    and a group above 1000 is missing only when 20 groups at least as
    large are shown. *)
Theorem race_gender_counts_having_rows (inmate : list inmate_row) :
  (forall race gender n,
     In ((race, gender), n) (race_gender_counts_having inmate) ->
     1000 < n
     /\ n = count_star
              (List.filter (fun r => bool_decide (race_gender r = (race, gender)))
                           inmate))
  /\ StronglySorted (fun g1 g2 => snd g2 <= snd g1) (race_gender_counts_having inmate)
  /\ (forall g, In g (group_count race_gender inmate) -> 1000 < snd g ->
                ~ In g (race_gender_counts_having inmate) ->
                length (race_gender_counts_having inmate) = 20%nat
                /\ forall g', In g' (race_gender_counts_having inmate) ->
                              snd g <= snd g').
Proof.
  unfold race_gender_counts_having.
  set (kept := List.filter (fun g => 1000 <? snd g) (group_count race_gender inmate)).
  destruct (limit_sort_by count_desc count_desc_total count_desc_trans 20 kept)
    as [Hlen [Hin [Hs Hout]]].
  split; [|split].
  - intros race gender n Hg. apply Hin in Hg. apply filter_In in Hg as [Hg Hn].
    cbn [snd] in Hn. split; [lia|].
    apply group_count_In in Hg. apply Hg.
  - eapply StronglySorted_weaken; [|exact Hs].
    intros a b Hab. unfold count_desc in Hab. lia.
  - intros g Hg Hn Hout'.
    assert (Hk : In g kept) by (apply filter_In; split; [exact Hg | lia]).
    split.
    + rewrite Hlen. apply Nat.min_l.
      destruct (Nat.le_gt_cases 20 (length kept)) as [Hle|Hgt]; [exact Hle|].
      exfalso. apply Hout'. unfold limit.
      rewrite firstn_all2 by (rewrite sort_by_length; lia).
      eapply Permutation_in; [apply Permutation_sym, sort_by_perm | exact Hk].
    + intros g' Hg'. specialize (Hout g' g Hg' Hk Hout').
      unfold count_desc in Hout. lia.
Qed.

End GroupQueries.

Section Joins.
Import Databases.

Section Generic.
Context {A B : Type} (on : A -> B -> bool).


(** The rows of the left join that found a partner are the rows of the
    inner join, in the same order. *)
Lemma left_join_matched (l : list A) (r : list B) :
  flat_map (fun p : A * option B =>
              match snd p with Some b => [(fst p, b)] | None => [] end)
           (left_join on l r)
  = join on l r.
Proof.
  unfold left_join, join. induction l as [|a l IH]; [reflexivity|].
  cbn [flat_map]. rewrite flat_map_app, IH. f_equal.
  destruct (List.filter (on a) r) as [|b bs]; [reflexivity|].
  generalize (b :: bs). intros bs'.
  induction bs' as [|b' bs' IH']; [reflexivity|].
  cbn [map flat_map snd fst app]. f_equal. exact IH'.
Qed.



End Generic.


(** Tables A and B of the notebook's illustration give its Table C under
    [JOIN] and its six-row table under [LEFT JOIN]. *)
Example join_tables_A_B :
  let A := [(1, 5); (2, 10); (3, 2); (4, 6); (5, 22); (6, 9)] in
  let B := [(2, 2); (5, 4); (6, 1); (7, 2); (8, 0)] in
  let on (a b : Z * Z) := fst a =? fst b in
  map (fun p => (fst (fst p), snd (fst p), snd (snd p))) (join on A B)
  = [(2, 10, 2); (5, 22, 4); (6, 9, 1)]
  /\ map (fun p => (fst (fst p), snd (fst p), option_map snd (snd p)))
         (left_join on A B)
     = [(1, 5, None); (2, 10, Some 2); (3, 2, None); (4, 6, None);
        (5, 22, Some 4); (6, 9, Some 1)].
Proof. split; reflexivity. Qed.

End Joins.

Section Tables.
Import Databases.

Lemma run_cons (statement : database -> option database)
      (rest : list (database -> option database)) (db db' : database) :
  statement db = Some db' -> run (statement :: rest) db = run rest db'.
Proof. intros H. cbn [run]. rewrite H. reflexivity. Qed.

(** A table that was created can be dropped, which undoes the creation. *)
Lemma create_then_drop (name : string) (query : database -> option table)
      (db : database) (t : table) :
  db !! name = None -> query db = Some t ->
  create_table_as name query db = Some (<[name := t]> db)
  /\ drop_table name (<[name := t]> db) = Some db.
Proof.
  intros Hfree Hq. split.
  - unfold create_table_as. rewrite Hfree, Hq. reflexivity.
  - unfold drop_table. rewrite lookup_insert_eq.
    f_equal. apply delete_insert_id. exact Hfree.
Qed.

Lemma create_existing (name : string) (query : database -> option table)
      (db : database) (t : table) :
  db !! name = Some t -> create_table_as name query db = None.
Proof. intros H. unfold create_table_as. rewrite H. reflexivity. Qed.

(** X25.  On a database that has [sentences] and [inmate] and neither
    [joinedtable] nor [joinedtable2], the three statements of the
    notebook run through and leave exactly one more table,
    [joinedtable2], holding the three columns of the inner join; creating
    and dropping [joinedtable] alone restores the database.  Run a second
    time the statements fail, at [CREATE TABLE joinedtable2], and
    [DROP TABLE joinedtable] alone fails as well. *)
Theorem notebook_statements_run
        (db : database) (sentences : list sentences_row) (inmate : list inmate_row) :
  db !! "sentences"%string = Some (Sentences sentences) ->
  db !! "inmate"%string = Some (Inmate inmate) ->
  db !! "joinedtable"%string = None ->
  db !! "joinedtable2"%string = None ->
  let db' :=
    <["joinedtable2"%string :=
        Selected (map select_joined (join on_inmate_doc_number sentences inmate))]> db in
  run notebook_statements db = Some db'
  /\ run [create_joinedtable; drop_joinedtable] db = Some db
  /\ run notebook_statements db' = None
  /\ (exists db'', create_joinedtable db' = Some db''
                   /\ create_joinedtable2 db'' = None)
  /\ drop_joinedtable db' = None.
Proof.
  intros Hs Hi Hj Hj2. cbv zeta.
  set (joined := Joined (join on_inmate_doc_number sentences inmate)).
  set (selected := Selected (map select_joined
                               (join on_inmate_doc_number sentences inmate))).
  assert (Hstar : select_star_join db = Some joined)
    by (unfold select_star_join, from_sentences, from_inmate; rewrite Hs, Hi; reflexivity).
  destruct (create_then_drop "joinedtable" select_star_join db joined Hj Hstar)
    as [Hc1 Hd1].
  assert (Hcols : select_columns_join (<["joinedtable"%string := joined]> db)
                  = Some selected).
  { unfold select_columns_join, from_sentences, from_inmate.
    rewrite !lookup_insert_ne by discriminate. rewrite Hs, Hi. reflexivity. }
  assert (Hc2 : create_joinedtable2 (<["joinedtable"%string := joined]> db)
                = Some (<["joinedtable2"%string := selected]>
                          (<["joinedtable"%string := joined]> db))).
  { unfold create_joinedtable2, create_table_as.
    rewrite lookup_insert_ne by discriminate. rewrite Hj2, Hcols. reflexivity. }
  assert (Hd2 : drop_joinedtable (<["joinedtable2"%string := selected]>
                                    (<["joinedtable"%string := joined]> db))
                = Some (<["joinedtable2"%string := selected]> db)).
  { unfold drop_joinedtable, drop_table.
    rewrite lookup_insert_ne by discriminate. rewrite lookup_insert_eq.
    f_equal. rewrite delete_insert_ne by discriminate.
    rewrite delete_insert_id by exact Hj. reflexivity. }
  assert (Hfree : (<["joinedtable2"%string := selected]> db) !! "joinedtable"%string
                  = None)
    by (rewrite lookup_insert_ne by discriminate; exact Hj).
  assert (Hstar' : select_star_join (<["joinedtable2"%string := selected]> db)
                   = Some joined).
  { unfold select_star_join, from_sentences, from_inmate.
    rewrite !lookup_insert_ne by discriminate. rewrite Hs, Hi. reflexivity. }
  destruct (create_then_drop "joinedtable" select_star_join _ joined Hfree Hstar')
    as [Hc1' _].
  assert (Hc2' : create_joinedtable2
                   (<["joinedtable"%string := joined]>
                      (<["joinedtable2"%string := selected]> db)) = None).
  { apply (create_existing _ _ _ selected).
    rewrite lookup_insert_ne by discriminate. apply lookup_insert_eq. }
  split; [|split; [|split; [|split]]].
  - unfold notebook_statements.
    rewrite (run_cons _ _ _ _ Hc1), (run_cons _ _ _ _ Hc2), (run_cons _ _ _ _ Hd2).
    reflexivity.
  - rewrite (run_cons _ _ _ _ Hc1), (run_cons _ _ _ _ Hd1). reflexivity.
  - unfold notebook_statements. rewrite (run_cons _ _ _ _ Hc1').
    cbn [run]. rewrite Hc2'. reflexivity.
  - eexists. split; [exact Hc1' | exact Hc2'].
  - unfold drop_joinedtable, drop_table. rewrite Hfree. reflexivity.
Qed.

Lemma notebook_statements_run_witness :
  let sentences := [mkSentence (Some 7) (Some "1999-01-31"%string);
                    mkSentence None None;
                    mkSentence (Some 9) (Some "2001-06-30"%string)] in
  let inmate := [mkInmate (Some 7) (Some "WHITE"%string) (Some "MALE"%string)] in
  let db : database :=
    <["sentences"%string := Sentences sentences]>
      (<["inmate"%string := Inmate inmate]> ∅) in
  run notebook_statements db
  = Some (<["joinedtable2"%string :=
              Selected [(Some 7, Some "WHITE"%string, Some "1999-01-31"%string)]]> db)
  /\ run [create_joinedtable; drop_joinedtable] db = Some db.
Proof.
  cbv zeta.
  set (sentences := [mkSentence (Some 7) (Some "1999-01-31"%string);
                     mkSentence None None;
                     mkSentence (Some 9) (Some "2001-06-30"%string)]).
  set (inmate := [mkInmate (Some 7) (Some "WHITE"%string) (Some "MALE"%string)]).
  set (db := <["sentences"%string := Sentences sentences]>
               (<["inmate"%string := Inmate inmate]> (∅ : database))).
  assert (Hs : db !! "sentences"%string = Some (Sentences sentences))
    by (vm_compute; reflexivity).
  assert (Hi : db !! "inmate"%string = Some (Inmate inmate))
    by (vm_compute; reflexivity).
  assert (Hj : db !! "joinedtable"%string = None) by (vm_compute; reflexivity).
  assert (Hj2 : db !! "joinedtable2"%string = None) by (vm_compute; reflexivity).
  destruct (notebook_statements_run db sentences inmate Hs Hi Hj Hj2)
    as [Hrun [Hround _]].
  split; [exact Hrun | exact Hround].
Defined.

End Tables.
